(** * spare-part-finder: the text classifier and the offer synthesizer

    A shallow embedding of [utils/matchUtils.js] ([interpretPartFromText],
    [generateSellersForPart], [simulateDelay]) and of the seller listing of
    [controllers/sellerController.js] ([getSellersForPart] with its helpers
    [generateDeliveryTime] and [generateWarranty]).  The second half of the
    definitions embeds the rest of the request handling: [isValidVIN] and
    [generateRequestId], the part requests of [sellerController.js]
    ([createPartRequest], [getRequestStatus]), the handlers of
    [partController.js] and [vehicleController.js], and the route tables of
    [routes/].

    Numbers.  The classifier only computes with literals of the source and
    small counters, so its arithmetic is carried out on IEEE-754 binary64
    values, bit for bit, with the kernel's primitive floats.  The offer
    synthesizer computes with the outputs of [Math.random], which are
    symbolic here: a draw is a rational of [0, 1).  The price of an offer
    is computed on it as the source computes it, every operation rounded to
    binary64 ([binary64], round to nearest, ties to even, on rationals).
    The integer draws [Math.floor(Math.random() * n)] take the floor of the
    exact product: by 4 and by 8 the product of a binary64 number is exact;
    by the other factors (3, 5, 25, 10000 and the widths of the delays) the
    rounded product can reach the next integer at isolated draws just below
    it, within the same range of results.

    Values.  Fields of a request body are JSON scalars ([jsvalue]) and the
    values of a query string are strings or absent: arrays and objects in a
    body, and repeated or bracketed keys in a query string, are outside the
    model.

    Strings.  A JavaScript string is a sequence of UTF-16 code units. *)

From Stdlib Require Import ZArith QArith Qround Qabs Qpower Floats List Permutation Sorted Lia Lqa.
From Stdlib Require Uint63 DecimalPos.
From Stdlib Require Import String Ascii.
From stdpp Require Import gmap.
Import ListNotations.

Set Warnings "-inexact-float".
#[local] Open Scope list_scope.

(** ** JavaScript strings *)

Definition codeunit := N.
Definition jsstring := list codeunit.

(** [utf16] reads a literal of this file (UTF-8 bytes) as the code units the
    JavaScript source holds for the same literal. *)
Fixpoint utf16_of_utf8 (bs : list N) : jsstring :=
  match bs with
  | [] => []
  | b0 :: r0 =>
    if (b0 <? 128)%N then b0 :: utf16_of_utf8 r0 else
    match r0 with
    | [] => [b0]
    | b1 :: r1 =>
      if (b0 <? 224)%N then ((b0 - 192) * 64 + (b1 - 128))%N :: utf16_of_utf8 r1 else
      match r1 with
      | [] => [b0; b1]
      | b2 :: r2 =>
        if (b0 <? 240)%N
        then ((b0 - 224) * 4096 + (b1 - 128) * 64 + (b2 - 128))%N :: utf16_of_utf8 r2 else
        match r2 with
        | [] => [b0; b1; b2]
        | b3 :: r3 =>
          let cp := ((b0 - 240) * 262144 + (b1 - 128) * 4096
                     + (b2 - 128) * 64 + (b3 - 128) - 65536)%N in
          (55296 + cp / 1024)%N :: (56320 + cp mod 1024)%N :: utf16_of_utf8 r3
        end
      end
    end
  end.

Definition utf16 (s : string) : jsstring :=
  utf16_of_utf8 (map N_of_ascii (list_ascii_of_string s)).

(** [String.prototype.startsWith] and [String.prototype.includes] on code
    units: [includes s pat] holds when [pat] starts at some position of [s]. *)
Fixpoint startsWith (s pat : jsstring) : bool :=
  match pat, s with
  | [], _ => true
  | _ :: _, [] => false
  | p :: pat', c :: s' => (p =? c)%N && startsWith s' pat'
  end.

Fixpoint includes (s pat : jsstring) : bool :=
  startsWith s pat ||
  match s with
  | [] => false
  | _ :: s' => includes s' pat
  end.

(** An instance of the built-in [String.prototype.toLowerCase] on Basic
    Latin, the Latin-1 supplement and the Turkish capitals; every other code
    unit is left as it is.  The classifier below does not depend on it: it
    takes the built-in as a parameter, and this instance only serves to run
    it. *)
Definition lowerCodeUnit (c : N) : list N :=
  if ((65 <=? c) && (c <=? 90))%N then [(c + 32)%N]
  else if ((192 <=? c) && (c <=? 222) && negb (c =? 215))%N then [(c + 32)%N]
  else if (c =? 286)%N then [287%N]
  else if (c =? 350)%N then [351%N]
  else if (c =? 304)%N then [105%N; 775%N]
  else [c].

Definition toLowerCase_latin (s : jsstring) : jsstring := flat_map lowerCodeUnit s.

(** ** JavaScript numbers of the classifier *)

Definition number_of_nat (n : nat) : float := of_uint63 (Uint63.of_Z (Z.of_nat n)).

(** [Math.min] of two numbers: NaN if either is NaN, and -0 below +0. *)
Definition Math_min (a b : float) : float :=
  if PrimFloat.is_nan a || PrimFloat.is_nan b then nan
  else if (a <? b)%float then a
  else if (b <? a)%float then b
  else if PrimFloat.is_zero a && PrimFloat.get_sign a then a else b.

(** ** Completions *)

Inductive js_error := TypeError.

Inductive completion (A : Type) :=
| Normal (a : A)
| Throw (e : js_error).
Arguments Normal {A} a.
Arguments Throw {A} e.

(** The scalar values of JavaScript: what a field of a JSON body holds when
    it is not an array or an object (those are outside the model), and what
    stands for an argument the code never looks at. *)
Inductive jsvalue :=
| JSUndefined
| JSNull
| JSBoolean (b : bool)
| JSNumber (x : float)
| JSString (s : jsstring).

(** ** The classifier's tables *)

Module Part.
Record t := mk { name : jsstring; id : jsstring; confidence : float }.
End Part.

Module Mapping.
Record t := mk { keywords : list jsstring; parts : list Part.t }.
End Mapping.

Module SuggestedPart.
Record t := mk {
  name : jsstring;
  id : jsstring;
  confidence : float;
  category : jsstring;
  matchedKeywords : nat
}.
End SuggestedPart.

(** [partMappings], an object literal: [Object.entries] lists its string
    keys in the order they are written. *)
Definition partMappings : list (jsstring * Mapping.t) :=
  [ (utf16 "fren",
     Mapping.mk
       (map utf16 ["fren"; "balata"; "disk"; "durmuyor"; "tutmuyor"; "gıcırdıyor";
                   "ses"; "titreşim"; "pedal"]%string)
       [ Part.mk (utf16 "Fren Balatası Ön") (utf16 "part-fren-001") 0.9;
         Part.mk (utf16 "Fren Balatası Arka") (utf16 "part-fren-002") 0.85;
         Part.mk (utf16 "Fren Diski Ön") (utf16 "part-fren-003") 0.8;
         Part.mk (utf16 "ABS Sensörü") (utf16 "part-fren-010") 0.7 ]);
    (utf16 "motor",
     Mapping.mk
       (map utf16 ["motor"; "çalışmıyor"; "titreşim"; "ses"; "duman"; "yağ";
                   "soğutma"; "ısınma"; "güç"; "performans"]%string)
       [ Part.mk (utf16 "Motor Yağı") (utf16 "part-motor-037") 0.8;
         Part.mk (utf16 "Hava Filtresi") (utf16 "part-motor-016") 0.75;
         Part.mk (utf16 "Buji") (utf16 "part-motor-020") 0.7;
         Part.mk (utf16 "Yağ Filtresi") (utf16 "part-motor-017") 0.7 ]);
    (utf16 "elektrik",
     Mapping.mk
       (map utf16 ["elektrik"; "akü"; "şarj"; "çalışmıyor"; "ışık"; "far";
                   "sinyal"; "klakson"; "cam"]%string)
       [ Part.mk (utf16 "Akü") (utf16 "part-elektrik-001") 0.9;
         Part.mk (utf16 "Alternatör") (utf16 "part-elektrik-002") 0.8;
         Part.mk (utf16 "Far Ampulü") (utf16 "part-elektrik-010") 0.7;
         Part.mk (utf16 "Sigorta Kutusu") (utf16 "part-elektrik-006") 0.6 ]);
    (utf16 "suspansiyon",
     Mapping.mk
       (map utf16 ["amortisör"; "yay"; "salıncak"; "direksiyon"; "titreşim";
                   "sarsıntı"; "ses"; "çukur"]%string)
       [ Part.mk (utf16 "Amortisör Ön Sol") (utf16 "part-suspansiyon-001") 0.85;
         Part.mk (utf16 "Amortisör Ön Sağ") (utf16 "part-suspansiyon-002") 0.85;
         Part.mk (utf16 "Stabilizatör Çubuğu") (utf16 "part-suspansiyon-023") 0.7;
         Part.mk (utf16 "Rotil") (utf16 "part-suspansiyon-013") 0.65 ]);
    (utf16 "klima",
     Mapping.mk
       (map utf16 ["klima"; "soğutmuyor"; "ısıtmıyor"; "hava"; "fan"; "filtre";
                   "gaz"; "kompresör"]%string)
       [ Part.mk (utf16 "Klima Filtresi") (utf16 "part-klima-004") 0.8;
         Part.mk (utf16 "Klima Kompresörü") (utf16 "part-klima-001") 0.75;
         Part.mk (utf16 "Klima Gazı R134a") (utf16 "part-klima-005") 0.7;
         Part.mk (utf16 "Kabin Filtresi") (utf16 "part-klima-022") 0.65 ]) ].

(** ** interpretPartFromText *)

(** The counter of the [forEach] over a category's keywords.  (The source
    also increments [categoryScore] there and never reads it.) *)
Definition keywordMatches (text : jsstring) (keywords : list jsstring) : nat :=
  fold_left (fun n keyword => if includes text keyword then S n else n) keywords 0%nat.

(** [Math.min(0.95, (keywordMatches / mapping.keywords.length) * 0.8 + 0.2)] *)
Definition density_confidence (matches len : nat) : float :=
  Math_min 0.95 (number_of_nat matches / number_of_nat len * 0.8 + 0.2)%float.

(** The two variables the loop over the categories updates. *)
Record best := mkBest {
  bestMatch : option SuggestedPart.t;
  highestConfidence : float
}.

(** A [for ... of] loop whose body may throw. *)
Fixpoint for_of {S E : Type} (body : S -> E -> completion S) (st : S) (es : list E)
  : completion S :=
  match es with
  | [] => Normal st
  | e :: es' =>
    match body st e with
    | Normal st' => for_of body st' es'
    | Throw x => Throw x
    end
  end.

(** The body of the loop, for one [category, mapping] entry. *)
Definition analyze (text : jsstring) (st : best) (entry : jsstring * Mapping.t)
  : completion best :=
  let (category, mapping) := entry in
  let matches := keywordMatches text (Mapping.keywords mapping) in
  if (0 <? matches)%nat then
    let confidence := density_confidence matches (length (Mapping.keywords mapping)) in
    match nth_error (Mapping.parts mapping) 0 with
    | None => Throw TypeError
    | Some bestPart =>
      let adjustedConfidence := (Part.confidence bestPart * confidence)%float in
      if (highestConfidence st <? adjustedConfidence)%float then
        Normal (mkBest
                  (Some (SuggestedPart.mk (Part.name bestPart) (Part.id bestPart)
                           adjustedConfidence category matches))
                  adjustedConfidence)
      else Normal st
    end
  else Normal st.

Definition fallback : SuggestedPart.t :=
  SuggestedPart.mk (utf16 "Genel Kontrol Gerekli") (utf16 "part-general-001")
    0.3 (utf16 "general") 0.

Section Classifier.

(** The built-in [String.prototype.toLowerCase] of the runtime. *)
Variable toLowerCase : jsstring -> jsstring.

Definition interpretPartFromText (description : jsstring) (vin : jsvalue)
  : completion SuggestedPart.t :=
  let text := toLowerCase description in
  match for_of (analyze text) (mkBest None 0%float) partMappings with
  | Throw x => Throw x
  | Normal st =>
    match bestMatch st with
    | None => Normal fallback
    | Some m => Normal m
    end
  end.

End Classifier.

(** ** The world of the offer synthesizer

    Arrays and seller objects live in a store and are passed by reference;
    [Math.random] and the clock are read from the world too. *)

Definition loc := positive.

Module Seller.
Record t := mk {
  name : jsstring;
  location : jsstring;
  rating : Q;
  phone : jsstring;
  email : jsstring
}.
End Seller.

Module Offer.
Record t := mk {
  name : jsstring;
  location : jsstring;
  price : Z;
  stock : Z;
  rating : Q;
  phone : jsstring;
  email : jsstring
}.
End Offer.

Record world := mkWorld {
  arrays : gmap loc (list loc);      (* arrays of references to seller objects *)
  objects : gmap loc Seller.t;       (* the seller objects *)
  random : nat -> Q;                 (* the outputs [Math.random] has yet to give *)
  clock : nat -> jsstring            (* the ISO timestamps [new Date()] has yet to give *)
}.

(** Computations on the random source alone (comparators, sorting). *)
Definition rand (A : Type) : Type := (nat -> Q) -> A * (nat -> Q).

Definition rand_ret {A} (a : A) : rand A := fun g => (a, g).

Definition rand_bind {A B} (c : rand A) (k : A -> rand B) : rand B :=
  fun g => let (a, g') := c g in k a g'.

Definition rand_random : rand Q := fun g => (g 0%nat, fun n => g (S n)).

(** Computations on the world that may throw. *)
Definition M (A : Type) : Type := world -> completion A * world.

Definition ret {A} (a : A) : M A := fun w => (Normal a, w).

Definition bind {A B} (c : M A) (k : A -> M B) : M B :=
  fun w =>
    match c w with
    | (Normal a, w') => k a w'
    | (Throw e, w') => (Throw e, w')
    end.

Notation "'let*' x ':=' c 'in' k" := (bind c (fun x => k))
  (at level 10, x name, c at level 100, k at level 200).

Definition throw {A} (e : js_error) : M A := fun w => (Throw e, w).

Definition lift_rand {A} (c : rand A) : M A :=
  fun w =>
    let (a, g) := c (random w) in
    (Normal a, mkWorld (arrays w) (objects w) g (clock w)).

Definition Math_random : M Q := lift_rand rand_random.

(** [new Date().toISOString()] *)
Definition Date_toISOString : M jsstring :=
  fun w =>
    (Normal (clock w 0%nat),
     mkWorld (arrays w) (objects w) (random w) (fun n => clock w (S n))).

(** [Math.floor] and [Math.round] (halves go up) on exact numbers. *)
Definition Math_floor (x : Q) : Z := Qfloor x.
Definition Math_round (x : Q) : Z := Qfloor (x + (1 # 2)).

(** ** binary64 arithmetic on exact numbers

    An operation on numbers gives the binary64 number nearest to the exact
    result, a tie going to the one whose significand is even.  [binary64 x]
    is that number, for [x] of a magnitude below 2^1024: around [x] the
    numbers of the format are the multiples of 2^e, where [e] is 52 below
    the binary logarithm of [x], and -1074 at least. *)

(** The floor of the binary logarithm of a positive number. *)
Definition Qlog2 (x : Q) : Z :=
  let l := (Z.log2 (Qnum x) - Z.log2 (Z.pos (Qden x)))%Z in
  if Qle_bool (2 ^ l) x then l else (l - 1)%Z.

(** The integer nearest to [x], a tie going to the even one. *)
Definition round_half_even (x : Q) : Z :=
  let n := Qfloor x in
  match Qcompare (x - inject_Z n) (1 # 2) with
  | Lt => n
  | Gt => (n + 1)%Z
  | Eq => if Z.even n then n else (n + 1)%Z
  end.

Definition binary64_exponent (x : Q) : Z := Z.max (Qlog2 (Qabs x) - 52) (-1074).

Definition binary64 (x : Q) : Q :=
  let e := binary64_exponent x in
  (inject_Z (round_half_even (x / 2 ^ e)) * 2 ^ e)%Q.

(** [[...a]]: a new array with the elements of [a]. *)
Definition spread (a : loc) : M loc :=
  fun w =>
    match arrays w !! a with
    | None => (Throw TypeError, w)
    | Some elements =>
      let copy := fresh (dom (arrays w)) in
      (Normal copy,
       mkWorld (<[copy := elements]> (arrays w)) (objects w) (random w) (clock w))
    end.

Definition Array_length (a : loc) : M Z :=
  fun w =>
    match arrays w !! a with
    | None => (Throw TypeError, w)
    | Some elements => (Normal (Z.of_nat (length elements)), w)
    end.

(** [a[i]]: [None] is [undefined]. *)
Definition Array_get (a : loc) (i : nat) : M (option loc) :=
  fun w =>
    match arrays w !! a with
    | None => (Throw TypeError, w)
    | Some elements => (Normal (elements !! i), w)
    end.

(** Reading the properties of a seller; of [undefined] it throws. *)
Definition read_seller (seller : option loc) : M Seller.t :=
  fun w =>
    match seller with
    | None => (Throw TypeError, w)
    | Some s =>
      match objects w !! s with
      | None => (Throw TypeError, w)
      | Some o => (Normal o, w)
      end
    end.

(** [Array.prototype.sort] with a comparator that reads the random source.
    Such a comparator is not consistent, and the order the engine leaves the
    elements in, like the number of times it calls the comparator, is
    implementation-defined: the engine's algorithm is a parameter.  The
    array is sorted in place and returned. *)
Definition sort_engine : Type :=
  forall A : Type, (A -> A -> rand Q) -> list A -> rand (list A).

Definition Array_sort (engine : sort_engine) (a : loc) (comparefn : loc -> loc -> rand Q)
  : M loc :=
  fun w =>
    match arrays w !! a with
    | None => (Throw TypeError, w)
    | Some elements =>
      let (sorted, g) := engine loc comparefn elements (random w) in
      (Normal a, mkWorld (<[a := sorted]> (arrays w)) (objects w) g (clock w))
    end.

(** One engine: insertion sort, calling the comparator as it goes. *)
Fixpoint insert_with {A} (comparefn : A -> A -> rand Q) (x : A) (l : list A)
  : rand (list A) :=
  match l with
  | [] => rand_ret [x]
  | y :: l' =>
    rand_bind (comparefn x y) (fun c =>
      if Qle_bool c 0 then rand_ret (x :: y :: l')
      else rand_bind (insert_with comparefn x l') (fun r => rand_ret (y :: r)))
  end.

Fixpoint insertion_sort_with {A} (comparefn : A -> A -> rand Q) (l : list A)
  : rand (list A) :=
  match l with
  | [] => rand_ret []
  | x :: l' => rand_bind (insertion_sort_with comparefn l') (insert_with comparefn x)
  end.

Definition insertion_engine : sort_engine := @insertion_sort_with.

(** [Array.prototype.sort((a, b) => a.price - b.price)].  On integer prices
    the comparator is consistent, and the language then fixes the result:
    the elements in ascending order of price, equal prices in their former
    order.  [sort_by price] is that result. *)
Section SortBy.

Context {A : Type} (price : A -> Z).

Fixpoint insert_by (x : A) (l : list A) : list A :=
  match l with
  | [] => [x]
  | y :: l' =>
    if (price x - price y <=? 0)%Z then x :: y :: l'
    else y :: insert_by x l'
  end.

Definition sort_by (l : list A) : list A := fold_right insert_by [] l.

End SortBy.

(** ** generateSellersForPart *)

(** The chain of [if ... else if] on [partId.includes(...)]. *)
Definition basePrice_of (partId : jsstring) : Z :=
  if includes partId (utf16 "motor") then 800
  else if includes partId (utf16 "fren") then 300
  else if includes partId (utf16 "elektrik") then 200
  else if includes partId (utf16 "suspansiyon") then 400
  else if includes partId (utf16 "klima") then 250
  else if includes partId (utf16 "govde") then 600
  else if includes partId (utf16 "ic-aksam") then 150
  else 100.

(** The price the source computes from a draw [r] of [Math.random], each
    of its operations in binary64: [(r - 0.5) * 0.4], where [0.4] is the
    number the literal denotes, then [basePrice * (1 + priceVariation)], and
    [Math.round] of that. *)
Definition literal_0_4 : Q := binary64 (2 # 5).

Definition priceVariation (r : Q) : Q :=
  binary64 (binary64 (r - (1 # 2)) * literal_0_4).

Definition price_of (basePrice : Z) (r : Q) : Z :=
  Math_round (binary64 (inject_Z basePrice * binary64 (1 + priceVariation r))).

(** The product that [Math.round] is given, on the binary64 numbers of the
    kernel, to compare [binary64] with. *)
Definition price_product_float (basePrice r : float) : float :=
  (basePrice * (1 + (r - 0.5) * 0.4))%float.

(** The body of the [for] loop at index [i]: the offer that is pushed. *)
Definition make_offer (partId : jsstring) (shuffledSellers : loc) (i : nat) : M Offer.t :=
  let* seller := Array_get shuffledSellers i in
  let basePrice := basePrice_of partId in
  let* r1 := Math_random in
  let price := price_of basePrice r1 in
  let* r2 := Math_random in
  let stock := (Math_floor (r2 * 25) + 1)%Z in
  let* s := read_seller seller in
  ret (Offer.mk (Seller.name s) (Seller.location s) price stock
         (Seller.rating s) (Seller.phone s) (Seller.email s)).

(** [for (let i = 0; i < bound; i++)]: [steps] iterations are left, the next
    one at index [i]; [selectedSellers] grows by [push]. *)
Fixpoint select_sellers (partId : jsstring) (shuffledSellers : loc)
    (steps i : nat) (selectedSellers : list Offer.t) : M (list Offer.t) :=
  match steps with
  | O => ret selectedSellers
  | S steps' =>
    let* o := make_offer partId shuffledSellers i in
    select_sellers partId shuffledSellers steps' (S i) (selectedSellers ++ [o])
  end.

(** The comparator [() => 0.5 - Math.random()]. *)
Definition random_order : loc -> loc -> rand Q :=
  fun _ _ => rand_bind rand_random (fun r => rand_ret ((1 # 2) - r)%Q).

Section Synthesizer.

Variable engine : sort_engine.

Definition generateSellersForPart (partId : jsstring) (globalSellers : loc)
  : M (list Offer.t) :=
  let* r := Math_random in
  let numSellers := (Math_floor (r * 4) + 2)%Z in
  let* copy := spread globalSellers in
  let* shuffledSellers := Array_sort engine copy random_order in
  let* len := Array_length shuffledSellers in
  let* selectedSellers :=
    select_sellers partId shuffledSellers (Z.to_nat (Z.min numSellers len)) 0 [] in
  ret (sort_by Offer.price selectedSellers).

End Synthesizer.

(** [simulateDelay(min, max)]: the delay is drawn from the random source;
    the time that passes is not part of the model. *)
Definition simulateDelay (min max : Z) : M unit :=
  let* r := Math_random in
  let delay := (Math_floor (r * inject_Z (max - min + 1)) + min)%Z in
  ret tt.

(** ** getSellersForPart *)

Module Enriched.
(** [{...seller, deliveryTime, warranty, paymentMethods, lastUpdated}] *)
Record t := mk {
  seller : Offer.t;
  deliveryTime : jsstring;
  warranty : jsstring;
  paymentMethods : list jsstring;
  lastUpdated : jsstring
}.
Definition price (e : t) : Z := Offer.price (seller e).
End Enriched.

Definition delivery_options : list jsstring :=
  map utf16 ["1-2 gün"; "2-3 gün"; "3-5 gün"; "1 hafta"; "Aynı gün"]%string.

Definition delivery_weights : list Q := [3 # 10; 3 # 10; 1 # 4; 1 # 10; 1 # 20]%Q.

(** The walk over the cumulative weights, from index [i] on. *)
Fixpoint delivery_walk (random cumulative : Q) (i : nat) (weights : list Q) : jsstring :=
  match weights with
  | [] => nth 0 delivery_options []
  | weight :: weights' =>
    let cumulative := (cumulative + weight)%Q in
    if Qle_bool random cumulative then nth i delivery_options []
    else delivery_walk random cumulative (S i) weights'
  end.

Definition generateDeliveryTime : M jsstring :=
  let* random := Math_random in
  ret (delivery_walk random 0 0 delivery_weights).

Definition generateWarranty (partId : jsstring) : jsstring :=
  if includes partId (utf16 "motor") then utf16 "2 yıl garanti"
  else if includes partId (utf16 "fren") then utf16 "1 yıl garanti"
  else if includes partId (utf16 "elektrik") then utf16 "6 ay garanti"
  else if includes partId (utf16 "suspansiyon") then utf16 "1 yıl garanti"
  else if includes partId (utf16 "klima") then utf16 "1 yıl garanti"
  else if includes partId (utf16 "govde") then utf16 "6 ay garanti"
  else utf16 "3 ay garanti".

(** The callback of [sellers.map], and [map] itself with its effects in
    the order of the elements. *)
Definition add_metadata (partId : jsstring) (seller : Offer.t) : M Enriched.t :=
  let* deliveryTime := generateDeliveryTime in
  let warranty := generateWarranty partId in
  let* lastUpdated := Date_toISOString in
  ret (Enriched.mk seller deliveryTime warranty
         (map utf16 ["Nakit"; "Kredi Kartı"; "Havale"]%string) lastUpdated).

Fixpoint Array_map {A B} (f : A -> M B) (l : list A) : M (list B) :=
  match l with
  | [] => ret []
  | x :: l' =>
    let* y := f x in
    let* ys := Array_map f l' in
    ret (y :: ys)
  end.

(** [mockSellers.json], which is not among the sources.  The own properties
    of the object are the entries keyed by a part id, each a list in the
    format of the offers ([predefined]), and [global_sellers], the pool of
    seller profiles, which have no price; the entries of [predefined] have
    names other than "global_sellers". *)
Record mockData := mkMockData {
  predefined : gmap jsstring (list Offer.t);
  global_sellers : option loc
}.

(** What [mockSellers[partId]] gives, and what [sellers] holds after it:
    an array in the format of the offers, the pool itself, a member of
    [Object.prototype] (a function, or the prototype for [__proto__]) with
    the [length] it has, or [undefined]. *)
Inductive sellers_value :=
| Offers (sellers : list Offer.t)
| Pool (pool : loc)
| InheritedMember (length : jsvalue)
| Undefined.

(** [length === 0] *)
Definition strict_equals_zero (length : jsvalue) : bool :=
  match length with
  | JSNumber x => (x =? 0)%float
  | _ => false
  end.

Module EnrichedProfile.
(** [{...seller, deliveryTime, warranty, paymentMethods, lastUpdated}] for
    an element of the pool: the profile's own fields, if it is an object. *)
Record t := mk {
  seller : option Seller.t;
  deliveryTime : jsstring;
  warranty : jsstring;
  paymentMethods : list jsstring;
  lastUpdated : jsstring
}.
End EnrichedProfile.

Record priceRange := mkPriceRange { range_min : Z; range_max : Z; range_average : Z }.

Inductive response :=
| Status400                       (* Missing part ID *)
| Status404                       (* No sellers found *)
| Status500                       (* Internal server error *)
| Success (partId : jsstring) (sellers : list Enriched.t) (count : nat)
          (range : priceRange) (timestamp : jsstring)
| Success_unpriced (partId : jsstring) (sellers : list EnrichedProfile.t) (count : nat)
          (timestamp : jsstring). (* priceRange: min, max and average are NaN *)

Definition price_range (prices : list Z) : priceRange :=
  match prices with
  | [] => mkPriceRange 0 0 0      (* not reached: an empty list is answered with 404 *)
  | p :: ps =>
    mkPriceRange (fold_left Z.min ps p) (fold_left Z.max ps p)
      (Math_round (inject_Z (fold_left Z.add prices 0%Z) / inject_Z (Z.of_nat (length prices))))
  end.

(** [try { ... } catch (error) { res.status(500) ... }] *)
Definition try_catch (body : M response) : M response :=
  fun w =>
    match body w with
    | (Normal r, w') => (Normal r, w')
    | (Throw _, w') => (Normal Status500, w')
    end.

(** The elements of an array. *)
Definition Array_elements (a : loc) : M (list loc) :=
  fun w =>
    match arrays w !! a with
    | None => (Throw TypeError, w)
    | Some elements => (Normal elements, w)
    end.

(** The callback of [sellers.map] on an element of the pool: the spread
    copies the fields of the profile, and nothing of what is not an
    object. *)
Definition add_metadata_profile (partId : jsstring) (seller : loc)
  : M EnrichedProfile.t :=
  let* profile := (fun w => (Normal (objects w !! seller), w)) in
  let* deliveryTime := generateDeliveryTime in
  let warranty := generateWarranty partId in
  let* lastUpdated := Date_toISOString in
  ret (EnrichedProfile.mk profile deliveryTime warranty
         (map utf16 ["Nakit"; "Kredi Kartı"; "Havale"]%string) lastUpdated).

Section Listing.

Variable engine : sort_engine.

(** The names [Object.prototype] answers to, each with the [length] of its
    value. *)
Variable Object_prototype : jsstring -> option jsvalue.

Variable mockSellers : mockData.

(** [mockSellers[partId]] *)
Definition lookup_sellers (partId : jsstring) : sellers_value :=
  match predefined mockSellers !! partId with
  | Some sellers => Offers sellers
  | None =>
    match bool_decide (partId = utf16 "global_sellers"), global_sellers mockSellers with
    | true, Some pool => Pool pool
    | _, _ =>
      match Object_prototype partId with
      | Some length => InheritedMember length
      | None => Undefined
      end
    end
  end.

Definition getSellersForPart (partId : jsstring) : M response :=
  try_catch (
    let* _ := simulateDelay 200 700 in
    match partId with
    | [] => ret Status400
    | _ :: _ =>
      let sellers := lookup_sellers partId in
      let* sellers :=
        match sellers, global_sellers mockSellers with
        | Undefined, Some pool =>
          let* generated := generateSellersForPart engine partId pool in
          ret (Offers generated)
        | _, _ => ret sellers
        end in
      match sellers with
      | Undefined | Offers [] => ret Status404
      | Offers sellers =>
        let* sellersWithMetadata := Array_map (add_metadata partId) sellers in
        let sorted := sort_by Enriched.price sellersWithMetadata in
        let* timestamp := Date_toISOString in
        ret (Success partId sorted (length sorted)
               (price_range (map Enriched.price sorted)) timestamp)
      | Pool pool =>
        let* elements := Array_elements pool in
        match elements with
        | [] => ret Status404
        | _ :: _ =>
          let* sellersWithMetadata :=
            Array_map (add_metadata_profile partId) elements in
          (* no element has a price: the comparator gives NaN for every
             pair, which leaves the order as it is *)
          let* timestamp := Date_toISOString in
          ret (Success_unpriced partId sellersWithMetadata
                 (length sellersWithMetadata) timestamp)
        end
      | InheritedMember length =>
        if strict_equals_zero length then ret Status404
        else throw TypeError      (* [sellers.map] is not a function *)
      end
    end).

End Listing.

(** ** Definitions used to state the properties *)

(** The text of the scenario. *)
Definition scenario : jsstring := utf16 "fren tutmuyor arka kısımdan ses geliyor".

(** Every keyword of every category. *)
Definition all_keywords : list jsstring :=
  flat_map (fun entry => Mapping.keywords (snd entry)) partMappings.

(** What the loop computes for a category whose keywords match [matches]
    times: the confidence adjusted by the weight of the category's first
    part, if there is one. *)
Definition adjusted (mapping : Mapping.t) (matches : nat) : option float :=
  match nth_error (Mapping.parts mapping) 0 with
  | None => None
  | Some bestPart =>
    Some (Part.confidence bestPart
          * density_confidence matches (length (Mapping.keywords mapping)))%float
  end.

(** The adjusted confidences the loop can reach on the table, and the
    initial value of [highestConfidence]. *)
Definition attainable_of (entry : jsstring * Mapping.t) : list float :=
  flat_map (fun k => match adjusted (snd entry) k with Some a => [a] | None => [] end)
           (seq 1 (length (Mapping.keywords (snd entry)))).

Definition attainable : list float := 0%float :: flat_map attainable_of partMappings.

Section Candidates.

Variable text : jsstring.

(** The number of keywords of a category that occur in [text]. *)
Definition matches (mapping : Mapping.t) : nat :=
  keywordMatches text (Mapping.keywords mapping).

(** A category is a candidate, with adjusted confidence [a], when at least
    one of its keywords occurs in [text]. *)
Definition candidate (entry : jsstring * Mapping.t) (a : float) : Prop :=
  (0 < matches (snd entry))%nat /\ adjusted (snd entry) (matches (snd entry)) = Some a.

(** The suggestion the loop builds for a candidate: [{...bestPart,
    confidence, category, matchedKeywords}]. *)
Definition suggestion_of (entry : jsstring * Mapping.t) (bestPart : Part.t) (a : float)
  : SuggestedPart.t :=
  SuggestedPart.mk (Part.name bestPart) (Part.id bestPart) a (fst entry)
    (matches (snd entry)).

(** What holds of the loop's variables once the entries [done] are behind. *)
Record loop_inv (done : list (jsstring * Mapping.t)) (st : best) : Prop := {
  inv_attainable : In (highestConfidence st) attainable;
  inv_highest : forall e a,
    In e done -> candidate e a -> (highestConfidence st <? a)%float = false;
  inv_none : bestMatch st = None ->
    highestConfidence st = 0%float /\ forall e, In e done -> matches (snd e) = 0%nat;
  inv_some : forall r, bestMatch st = Some r ->
    exists j e bestPart,
      done !! j = Some e /\
      nth_error (Mapping.parts (snd e)) 0 = Some bestPart /\
      candidate e (highestConfidence st) /\
      r = suggestion_of e bestPart (highestConfidence st) /\
      forall i e' a, (i < j)%nat -> done !! i = Some e' -> candidate e' a ->
                     (a <? highestConfidence st)%float = true
}.

End Candidates.

(** Checks on the table, by computation. *)
Definition entry_check (entry : jsstring * Mapping.t) : bool :=
  let n := length (Mapping.keywords (snd entry)) in
  match nth_error (Mapping.parts (snd entry)) 0 with
  | None => false
  | Some bestPart =>
    forallb (fun k =>
      let d := density_confidence k n in
      let a := (Part.confidence bestPart * d)%float in
      (0 <=? d)%float && (d <=? 0.95)%float &&
      implb (0 <? k)%nat
        ((0 <? a)%float &&
         forallb (fun entry' =>
           implb (bool_decide (fst entry' = fst entry))
             match nth_error (Mapping.parts (snd entry')) 0 with
             | Some bestPart' => (a <=? Part.confidence bestPart')%float
             | None => true
             end) partMappings))
      (seq 0 (S n))
  end.

Definition order_check (x y z : float) : bool :=
  negb (x <? x)%float &&
  implb (x <? y)%float (negb (y <? x)%float) &&
  implb (negb (x <? y)%float) (implb (x <? z)%float (y <? z)%float).

(** The price rule as the specification words it: a fixed list of
    substring rules tried in order, the first that matches gives the base
    price, and 100 is the default. *)
Definition price_rules : list (jsstring * Z) :=
  [ (utf16 "motor", 800); (utf16 "fren", 300); (utf16 "elektrik", 200);
    (utf16 "suspansiyon", 400); (utf16 "klima", 250); (utf16 "govde", 600);
    (utf16 "ic-aksam", 150) ]%Z.

Fixpoint first_matching_rule (rules : list (jsstring * Z)) (partId : jsstring) : Z :=
  match rules with
  | [] => 100
  | (key, basePrice) :: rules' =>
    if includes partId key then basePrice else first_matching_rule rules' partId
  end.

(** [Math.random] returns numbers of [0, 1). *)
Definition valid_random (w : world) : Prop :=
  forall n, (0 <= random w n)%Q /\ (random w n < 1)%Q.

(** A computation on the random source that only draws from it. *)
Definition advances {A} (c : rand A) : Prop :=
  forall g, exists n, forall i, snd (c g) i = g (n + i)%nat.

(** What is assumed of the engine's sort when the comparator only draws from
    the random source: it calls the comparator some number of times and
    leaves the elements in some order. *)
Definition engine_permutes (engine : sort_engine) : Prop :=
  forall (A : Type) (comparefn : A -> A -> rand Q) (l : list A),
    (forall x y, advances (comparefn x y)) ->
    advances (engine A comparefn l) /\
    forall g, Permutation (fst (engine A comparefn l g)) l.

(** The seller pool [pool] holds the sellers [sellers], all of them objects
    of the store. *)
Definition pool_of (w : world) (pool : loc) (sellers : list loc) : Prop :=
  arrays w !! pool = Some sellers /\
  forall s, In s sellers -> exists o, objects w !! s = Some o.

(** An offer made for [partId] from one of [sellers]: the seller's fields
    copied, a price drawn around the base price, a stock of 1 to 25. *)
Definition offer_from (w : world) (partId : jsstring) (sellers : list loc)
    (o : Offer.t) : Prop :=
  exists (r1 r2 : Q) (s : loc) (seller : Seller.t),
    (0 <= r1)%Q /\ (r1 < 1)%Q /\ (0 <= r2)%Q /\ (r2 < 1)%Q /\
    In s sellers /\ objects w !! s = Some seller /\
    o = Offer.mk (Seller.name seller) (Seller.location seller)
          (price_of (basePrice_of partId) r1) (Math_floor (r2 * 25) + 1)%Z
          (Seller.rating seller) (Seller.phone seller) (Seller.email seller).

(** The world after [n] draws. *)
Definition later (w w' : world) : Prop :=
  arrays w' = arrays w /\ objects w' = objects w /\ clock w' = clock w /\
  exists n, forall i, random w' i = random w (n + i)%nat.

(** The store before and after a computation: same arrays, same objects. *)
Definition same_store (w w' : world) : Prop :=
  arrays w' = arrays w /\ objects w' = objects w.

Definition keeps_store {A} (c : M A) : Prop := forall w, same_store w (snd (c w)).


(** A small world to run the synthesizer in: three sellers in a pool. *)
Definition seller_a : Seller.t :=
  Seller.mk (utf16 "Oto Merkez") (utf16 "İstanbul") (9 # 2) (utf16 "0212") (utf16 "a@x").
Definition seller_b : Seller.t :=
  Seller.mk (utf16 "Parça Dünyası") (utf16 "Ankara") (43 # 10) (utf16 "0312") (utf16 "b@x").
Definition seller_c : Seller.t :=
  Seller.mk (utf16 "Ege Yedek") (utf16 "İzmir") (47 # 10) (utf16 "0232") (utf16 "c@x").

Definition sample_draws (n : nat) : Q :=
  nth n [7 # 10; 1 # 5; 9 # 10; 1 # 2; 0; 3 # 4; 1 # 10; 3 # 5; 1 # 3]%Q (2 # 5)%Q.

Definition sample_world : world :=
  mkWorld {[ 1%positive := [10; 11; 12]%positive ]}
          {[ 10%positive := seller_a; 11%positive := seller_b; 12%positive := seller_c ]}
          sample_draws
          (fun _ => utf16 "2024-01-01T00:00:00.000Z").

Definition empty_pool_world : world :=
  mkWorld {[ 1%positive := [] ]} ∅ sample_draws
          (fun _ => utf16 "2024-01-01T00:00:00.000Z").

(** ** Regular expressions

    The patterns of the source are anchored at both ends and use classes,
    sequence and repetition only, so [RegExp.prototype.test] decides whether
    the whole string belongs to the pattern's language.  It is computed here
    with derivatives. *)

Inductive regex :=
| Void                              (* no string *)
| Eps                               (* the empty string *)
| Class (p : codeunit -> bool)      (* one code unit of a class *)
| Seq (a b : regex)
| Alt (a b : regex)
| Star (a : regex).

Fixpoint nullable (r : regex) : bool :=
  match r with
  | Void => false
  | Eps => true
  | Class _ => false
  | Seq a b => nullable a && nullable b
  | Alt a b => nullable a || nullable b
  | Star _ => true
  end.

Fixpoint derivative (c : codeunit) (r : regex) : regex :=
  match r with
  | Void => Void
  | Eps => Void
  | Class p => if p c then Eps else Void
  | Seq a b =>
    if nullable a then Alt (Seq (derivative c a) b) (derivative c b)
    else Seq (derivative c a) b
  | Alt a b => Alt (derivative c a) (derivative c b)
  | Star a => Seq (derivative c a) (Star a)
  end.

Definition RegExp_test (r : regex) (s : jsstring) : bool :=
  nullable (fold_left (fun r c => derivative c r) s r).

(** [r{n}] and [r+] *)
Fixpoint times (n : nat) (r : regex) : regex :=
  match n with
  | O => Eps
  | S n' => Seq r (times n' r)
  end.

Definition Plus (r : regex) : regex := Seq r (Star r).

(** The strings of a pattern. *)
Inductive lang : regex -> jsstring -> Prop :=
| lang_eps : lang Eps []
| lang_class (p : codeunit -> bool) (c : codeunit) : p c = true -> lang (Class p) [c]
| lang_seq (a b : regex) (s t : jsstring) :
    lang a s -> lang b t -> lang (Seq a b) (s ++ t)
| lang_alt_l (a b : regex) (s : jsstring) : lang a s -> lang (Alt a b) s
| lang_alt_r (a b : regex) (s : jsstring) : lang b s -> lang (Alt a b) s
| lang_star_nil (a : regex) : lang (Star a) []
| lang_star_app (a : regex) (s t : jsstring) :
    lang a s -> lang (Star a) t -> lang (Star a) (s ++ t).

Definition in_ranges (ranges : list (N * N)) (c : codeunit) : bool :=
  existsb (fun range => (fst range <=? c)%N && (c <=? snd range)%N) ranges.

(** [Canonicalize] of a pattern with the [i] flag (and without [u]): the
    upper-case form of the code unit.  A code unit outside ASCII is never
    sent into ASCII, which is all that classes of ASCII characters can
    tell; it is left as it is here. *)
Definition Canonicalize (ch : codeunit) : codeunit :=
  if ((97 <=? ch) && (ch <=? 122))%N then (ch - 32)%N else ch.

(** ** isValidVIN *)

(** [[A-HJ-NPR-Z0-9]] *)
Definition vin_ranges : list (N * N) :=
  [(65, 72); (74, 78); (80, 80); (82, 90); (48, 57)]%N.

(** [/^[A-HJ-NPR-Z0-9]{17}$/i] *)
Definition vinRegex : regex :=
  times 17 (Class (fun ch => in_ranges vin_ranges (Canonicalize ch))).

(** [!vin] and [typeof vin !== 'string'] reject everything but a non-empty
    string. *)
Definition isValidVIN (vin : jsvalue) : bool :=
  match vin with
  | JSString (c :: s) => RegExp_test vinRegex (c :: s)
  | _ => false
  end.

(** A character a VIN may hold: a digit, or a letter of the Latin alphabet
    other than I, O and Q, in either case. *)
Definition vin_character (c : codeunit) : Prop :=
  (48 <= c <= 57)%N \/
  (((65 <= c <= 90)%N \/ (97 <= c <= 122)%N) /\
   c <> 73%N /\ c <> 79%N /\ c <> 81%N /\ c <> 105%N /\ c <> 111%N /\ c <> 113%N).

(** ** Values, strings and numbers of the request handlers *)

(** [ToBoolean]: what [!v] and [v || d] look at. *)
Definition ToBoolean (v : jsvalue) : bool :=
  match v with
  | JSUndefined | JSNull => false
  | JSBoolean b => b
  | JSNumber x => negb (PrimFloat.is_zero x || PrimFloat.is_nan x)
  | JSString [] => false
  | JSString (_ :: _) => true
  end.

(** [v === s] for a string [s]. *)
Definition strict_equals_string (v : jsvalue) (s : jsstring) : bool :=
  match v with
  | JSString s' => bool_decide (s' = s)
  | _ => false
  end.

(** White space and line terminators, which [String.prototype.trim] strips
    and [\s] matches. *)
Definition whitespace_ranges : list (N * N) :=
  [(9, 13); (32, 32); (160, 160); (5760, 5760); (8192, 8202); (8232, 8233);
   (8239, 8239); (8287, 8287); (12288, 12288); (65279, 65279)]%N.

Definition is_whitespace (c : codeunit) : bool := in_ranges whitespace_ranges c.

Fixpoint trimStart (s : jsstring) : jsstring :=
  match s with
  | [] => []
  | c :: s' => if is_whitespace c then trimStart s' else s
  end.

Definition trim (s : jsstring) : jsstring := rev (trimStart (rev (trimStart s))).

(** The exact value of a finite number. *)
Definition number_value (x : float) : option Q :=
  match Prim2SF x with
  | S754_zero _ => Some 0%Q
  | S754_finite sign m e =>
    let magnitude :=
      if (0 <=? e)%Z then inject_Z (Z.pos m * 2 ^ e) else (Z.pos m # 2 ^ Z.to_pos (- e))%Q in
    Some (if sign then (- magnitude)%Q else magnitude)
  | S754_infinity _ | S754_nan => None
  end.

(** [Math.round] of a number: the number itself when it is not finite or is
    integral, else the nearest integer, a half going up; a result of zero
    takes the sign of the argument. *)
Definition Math_round_number (x : float) : float :=
  match number_value x with
  | None => x
  | Some q =>
    if Qeq_bool (inject_Z (Qfloor q)) q then x
    else
      let n := Qfloor (q + (1 # 2)) in
      if (0 <? n)%Z then of_uint63 (Uint63.of_Z n)
      else if (n <? 0)%Z then (- of_uint63 (Uint63.of_Z (- n)))%float
      else if (x <? 0)%float then (-0)%float else 0%float
  end.

(** A completion inside a computation on the world. *)
Definition lift_completion {A} (c : completion A) : M A :=
  fun w => (c, w).

(** [try { ... } catch (error) { ... }] with the answer [on_error]. *)
Definition try_catch_with {R} (on_error : R) (body : M R) : M R :=
  fun w =>
    match body w with
    | (Normal r, w') => (Normal r, w')
    | (Throw _, w') => (Normal on_error, w')
    end.

(** ** partController.js: interpretPartFromDescription *)

(** An entry of [mockVehicles.json], which is not among the sources, with
    the fields the handlers read. *)
Module Vehicle.
Record t := mk {
  vin : jsstring;
  make : jsstring;
  model : jsstring;
  year : Z;
  categories : list jsstring
}.
End Vehicle.

Definition getConfidenceLevel (confidence : float) : jsstring :=
  if (0.8 <=? confidence)%float then utf16 "Yüksek"
  else if (0.6 <=? confidence)%float then utf16 "Orta"
  else if (0.4 <=? confidence)%float then utf16 "Düşük"
  else utf16 "Çok Düşük".

Definition high_reliability_line : jsstring :=
  utf16 "Bu parça tahmini yüksek güvenilirlik seviyesinde".
Definition brake_line : jsstring :=
  utf16 "Fren parçaları güvenlik açısından kritiktir, profesyonel montaj önerilir".
Definition engine_line : jsstring :=
  utf16 "Motor parçaları için orijinal parça kullanımı önerilir".
Definition more_detail_line : jsstring :=
  utf16 "Daha detaylı açıklama ile daha kesin sonuç alabilirsiniz".
Definition expert_line : jsstring :=
  utf16 "Bir uzmanla görüşmeniz önerilir".

(** The [push]es of [generateRecommendations], in their order. *)
Definition generateRecommendations (suggestedPart : SuggestedPart.t) : list jsstring :=
  (if (0.7 <? SuggestedPart.confidence suggestedPart)%float
   then [high_reliability_line] else []) ++
  (if bool_decide (SuggestedPart.category suggestedPart = utf16 "fren")
   then [brake_line] else []) ++
  (if bool_decide (SuggestedPart.category suggestedPart = utf16 "motor")
   then [engine_line] else []) ++
  (if (SuggestedPart.confidence suggestedPart <? 0.5)%float
   then [more_detail_line; expert_line] else []).

Module Interpretation.
(** The [data] of a successful answer. *)
Record t := mk {
  vehicle_vin : jsstring;
  vehicle_make : jsstring;
  vehicle_model : jsstring;
  vehicle_year : Z;
  part_name : jsstring;
  part_id : jsstring;
  part_confidence : float;
  originalDescription : jsstring;
  processedText : jsstring;
  detectedKeywords : nat;
  category : jsstring;
  confidenceLevel : jsstring;
  recommendations : list jsstring;
  timestamp : jsstring
}.
End Interpretation.

Inductive interpret_response :=
| Interpret400_missing                        (* Missing required fields *)
| Interpret400_vin                            (* Invalid VIN format *)
| Interpret400_short                          (* Description too short *)
| Interpret404 (vin : jsvalue)                (* Vehicle not found *)
| Interpret500                                (* Internal server error *)
| Interpret200 (data : Interpretation.t).

Section PartController.

Variable toLowerCase : jsstring -> jsstring.
Variable mockVehicles : list Vehicle.t.

(** [mockVehicles.find(v => v.vin === vin)] *)
Definition find_vehicle (vin : jsvalue) : option Vehicle.t :=
  find (fun v => strict_equals_string vin (Vehicle.vin v)) mockVehicles.

(** [req.body] gives [vin] and [description]: scalars of a JSON body, or
    [undefined] when absent. *)
Definition interpretPartFromDescription (vin description : jsvalue)
  : M interpret_response :=
  try_catch_with Interpret500 (
    let* _ := simulateDelay 300 1000 in
    if negb (ToBoolean vin) || negb (ToBoolean description) then ret Interpret400_missing
    else if negb (isValidVIN vin) then ret Interpret400_vin
    else
      match description with
      | JSString d =>
        if (length (trim d) <? 5)%nat then ret Interpret400_short
        else
          match find_vehicle vin with
          | None => ret (Interpret404 vin)
          | Some vehicle =>
            let* suggestedPart :=
              lift_completion (interpretPartFromText toLowerCase d vin) in
            let detectedKeywords :=
              match SuggestedPart.matchedKeywords suggestedPart with
              | O => O
              | S n => S n
              end in
            let category :=
              match SuggestedPart.category suggestedPart with
              | [] => utf16 "unknown"
              | c :: cs => c :: cs
              end in
            let confidenceLevel :=
              getConfidenceLevel (SuggestedPart.confidence suggestedPart) in
            let confidence :=
              (Math_round_number (SuggestedPart.confidence suggestedPart * 100) / 100)%float in
            let recommendations := generateRecommendations suggestedPart in
            let* timestamp := Date_toISOString in
            ret (Interpret200
                   (Interpretation.mk
                      (Vehicle.vin vehicle) (Vehicle.make vehicle)
                      (Vehicle.model vehicle) (Vehicle.year vehicle)
                      (SuggestedPart.name suggestedPart) (SuggestedPart.id suggestedPart)
                      confidence d (toLowerCase d) detectedKeywords category
                      confidenceLevel recommendations timestamp))
          end
      | _ => throw TypeError              (* [description.trim] is not a function *)
      end).

End PartController.

(** A vehicle to run the handlers on. *)
Definition sample_vehicles : list Vehicle.t :=
  [ Vehicle.mk (utf16 "WDB2020201F685790") (utf16 "Mercedes-Benz") (utf16 "A180") 2020
      (map utf16 ["Motor"; "Fren"]%string) ].

(** Checks on the table for the confidence levels and the recommendations:
    for each category and each number [k] of matched keywords. *)
Definition level_check (entry : jsstring * Mapping.t) : bool :=
  forallb (fun k =>
    match adjusted (snd entry) k with
    | None => true
    | Some a =>
      implb (bool_decide (getConfidenceLevel a = utf16 "Yüksek")) (8 <=? k)%nat &&
      implb (k <=? 2)%nat (bool_decide (getConfidenceLevel a = utf16 "Çok Düşük")) &&
      implb (0.7 <? a)%float (7 <=? k)%nat &&
      implb (k <=? 3)%nat (a <? 0.5)%float
    end) (seq 1 (length (Mapping.keywords (snd entry)))).

(** The delivery label by the place of the draw among the cumulative
    weights 0.3, 0.6, 0.85, 0.95 and 1. *)
Definition delivery_label (r : Q) : jsstring :=
  if Qle_bool r (3 # 10) then utf16 "1-2 gün"
  else if Qle_bool r (3 # 5) then utf16 "2-3 gün"
  else if Qle_bool r (17 # 20) then utf16 "3-5 gün"
  else if Qle_bool r (19 # 20) then utf16 "1 hafta"
  else if Qle_bool r 1 then utf16 "Aynı gün"
  else utf16 "1-2 gün".

(** Base price and warranty label, rule by rule. *)
Definition price_and_warranty : list (Z * jsstring) :=
  [ (800, utf16 "2 yıl garanti"); (300, utf16 "1 yıl garanti");
    (200, utf16 "6 ay garanti"); (400, utf16 "1 yıl garanti");
    (250, utf16 "1 yıl garanti"); (600, utf16 "6 ay garanti");
    (150, utf16 "3 ay garanti"); (100, utf16 "3 ay garanti") ]%Z.


(** ** sellerController.js: the part requests *)

(** The decimal digits of an integer, as a template literal prints a
    number that is an integer. *)
Fixpoint uint_units (u : Decimal.uint) : jsstring :=
  match u with
  | Decimal.Nil => []
  | Decimal.D0 u' => 48%N :: uint_units u'
  | Decimal.D1 u' => 49%N :: uint_units u'
  | Decimal.D2 u' => 50%N :: uint_units u'
  | Decimal.D3 u' => 51%N :: uint_units u'
  | Decimal.D4 u' => 52%N :: uint_units u'
  | Decimal.D5 u' => 53%N :: uint_units u'
  | Decimal.D6 u' => 54%N :: uint_units u'
  | Decimal.D7 u' => 55%N :: uint_units u'
  | Decimal.D8 u' => 56%N :: uint_units u'
  | Decimal.D9 u' => 57%N :: uint_units u'
  end.

Definition Number_toString_integer (z : Z) : jsstring :=
  match Z.to_int z with
  | Decimal.Pos u => uint_units u
  | Decimal.Neg u => 45%N :: uint_units u
  end.

(** [[^\s@]] *)
Definition email_class (c : codeunit) : bool := negb (is_whitespace c || (c =? 64)%N).

(** [/^[^\s@]+@[^\s@]+\.[^\s@]+$/] *)
Definition emailRegex : regex :=
  Seq (Plus (Class email_class))
    (Seq (Class (N.eqb 64))
       (Seq (Plus (Class email_class))
          (Seq (Class (N.eqb 46)) (Plus (Class email_class))))).

(** [emailRegex.test(v)]: the pattern is tried on the string of [v]; the
    string of a scalar that is not a string holds no "@".  (An array or an
    object, whose string can hold one, is not a [jsvalue].) *)
Definition test_email (v : jsvalue) : bool :=
  match v with
  | JSString s => RegExp_test emailRegex s
  | _ => false
  end.

Inductive request_status :=
| pending
| in_progress
| offers_received.

(** [status === s] *)
Definition status_eqb (a b : request_status) : bool :=
  match a, b with
  | pending, pending | in_progress, in_progress | offers_received, offers_received => true
  | _, _ => false
  end.

Module Request.
Record t := mk {
  requestId : jsstring;
  vin : jsvalue;
  partId : jsvalue;
  userEmail : jsvalue;
  description : jsvalue;
  urgency : jsvalue;
  status : request_status;
  createdAt : jsstring;
  estimatedResponse : jsstring;
  contactAttempts : Z;
  offerCount : option Z                (* absent until offers are received *)
}.
End Request.

(** [v || d] *)
Definition or_default (v d : jsvalue) : jsvalue := if ToBoolean v then v else d.

Definition getEstimatedResponseTime (urgency : jsvalue) : jsstring :=
  if strict_equals_string urgency (utf16 "urgent") then utf16 "2-4 saat"
  else if strict_equals_string urgency (utf16 "high") then utf16 "4-8 saat"
  else if strict_equals_string urgency (utf16 "normal") then utf16 "8-24 saat"
  else if strict_equals_string urgency (utf16 "low") then utf16 "1-3 gün"
  else utf16 "8-24 saat".

(** [simulateSellerNotification]: the number of sellers notified. *)
Definition simulateSellerNotification (request : Request.t) : M Z :=
  let* _ := simulateDelay 100 300 in
  let* r := Math_random in
  let notificationCount := (Math_floor (r * 8) + 3)%Z in
  let* timestamp := Date_toISOString in
  ret notificationCount.

Inductive create_response :=
| Create400_missing                     (* Missing required fields *)
| Create400_email                       (* Invalid email format *)
| Create500
| Create201 (requestId estimatedResponse : jsstring) (notificationsSent : Z)
            (timestamp : jsstring).

Inductive status_response :=
| RequestStatus404                      (* Request not found *)
| RequestStatus500
| RequestStatus200 (request : Request.t) (timestamp : jsstring).

Section Requests.

(** The time value, in milliseconds, of an ISO timestamp of the clock:
    [Date.parse], the inverse of [toISOString]. *)
Variable Date_parse : jsstring -> Z.

(** [Date.now()]: the time value of the clock's next reading. *)
Definition Date_now : M Z :=
  let* now := Date_toISOString in
  ret (Date_parse now).

Definition generateRequestId : M jsstring :=
  let* timestamp := Date_now in
  let* r := Math_random in
  let random := Math_floor (r * 10000) in
  ret (utf16 "req-" ++ Number_toString_integer timestamp ++ utf16 "-"
         ++ Number_toString_integer random).

(** [pendingRequests] is a [Map] from request ids to request objects; a
    handler takes it and gives it back. *)
Definition createPartRequest (vin partId userEmail description urgency : jsvalue)
    (pendingRequests : gmap jsstring Request.t)
  : M (create_response * gmap jsstring Request.t) :=
  try_catch_with (Create500, pendingRequests) (
    let* _ := simulateDelay 300 800 in
    if negb (ToBoolean vin) || negb (ToBoolean partId) || negb (ToBoolean userEmail)
    then ret (Create400_missing, pendingRequests)
    else if negb (test_email userEmail) then ret (Create400_email, pendingRequests)
    else
      let* requestId := generateRequestId in
      let* createdAt := Date_toISOString in
      let request :=
        Request.mk requestId vin partId userEmail
          (or_default description (JSString []))
          (or_default urgency (JSString (utf16 "normal")))
          pending createdAt (getEstimatedResponseTime urgency) 0 None in
      let pendingRequests' := <[requestId := request]> pendingRequests in
      let* notificationsSent := simulateSellerNotification request in
      let* timestamp := Date_toISOString in
      ret (Create201 requestId (Request.estimatedResponse request) notificationsSent
             timestamp,
           pendingRequests')).

(** The update of the request's status by the minutes elapsed since it
    was created; the request object is changed in place. *)
Definition update_status (now : jsstring) (request : Request.t) : M Request.t :=
  let minutesElapsed :=
    (inject_Z (Date_parse now - Date_parse (Request.createdAt request))
     / inject_Z (1000 * 60))%Q in
  if negb (Qle_bool minutesElapsed 30) && status_eqb (Request.status request) pending
  then
    let* r := Math_random in
    ret (Request.mk (Request.requestId request) (Request.vin request)
           (Request.partId request) (Request.userEmail request)
           (Request.description request) (Request.urgency request)
           in_progress (Request.createdAt request)
           (Request.estimatedResponse request)
           (Math_floor (r * 3) + 1)%Z (Request.offerCount request))
  else if negb (Qle_bool minutesElapsed 60)
          && status_eqb (Request.status request) in_progress
  then
    let* r := Math_random in
    ret (Request.mk (Request.requestId request) (Request.vin request)
           (Request.partId request) (Request.userEmail request)
           (Request.description request) (Request.urgency request)
           offers_received (Request.createdAt request)
           (Request.estimatedResponse request)
           (Request.contactAttempts request) (Some (Math_floor (r * 5) + 1)%Z))
  else ret request.

Definition getRequestStatus (requestId : jsstring)
    (pendingRequests : gmap jsstring Request.t)
  : M (status_response * gmap jsstring Request.t) :=
  try_catch_with (RequestStatus500, pendingRequests) (
    let* _ := simulateDelay 100 300 in
    match pendingRequests !! requestId with
    | None => ret (RequestStatus404, pendingRequests)
    | Some request =>
      let* now := Date_toISOString in
      let* request' := update_status now request in
      let* timestamp := Date_toISOString in
      ret (RequestStatus200 request' timestamp,
           <[requestId := request']> pendingRequests)
    end).

End Requests.

(** A well-formed address, as the pattern sees it: a local part, "@", and a
    domain with a dot that has something on both sides, none of them holding
    white space or another "@". *)
Definition email_part (s : jsstring) : Prop :=
  s <> [] /\ Forall (fun c => is_whitespace c = false /\ c <> 64%N) s.

Definition email_wellformed (e : jsstring) : Prop :=
  exists a b c,
    e = a ++ [64%N] ++ b ++ [46%N] ++ c /\
    email_part a /\ email_part b /\ email_part c.

(** The steps a status can take in one reading. *)
Definition status_step (old new : request_status) : Prop :=
  match old, new with
  | pending, pending | pending, in_progress
  | in_progress, in_progress | in_progress, offers_received
  | offers_received, offers_received => True
  | _, _ => False
  end.

(** A clock for the examples: readings ten minutes apart, numbered. *)
Definition sample_clock (n : nat) : jsstring := Number_toString_integer (Z.of_nat n).

Definition sample_parse (s : jsstring) : Z :=
  600000 * fold_left (fun acc c => 10 * acc + (Z.of_N c - 48))%Z s 0%Z.

Definition sample_server_world : world :=
  mkWorld ∅ ∅ sample_draws sample_clock.

(** ** vehicleController.js *)

Inductive vehicle_response :=
| Vehicle400                                   (* Invalid VIN format *)
| Vehicle404 (vin : jsstring)                  (* Vehicle not found *)
| Vehicle500
| Vehicle200 (data : Vehicle.t) (timestamp : jsstring).

(** The value of a code unit as a digit: 0 to 9, then the letters in either
    case for 10 to 35. *)
Definition digit_value (c : codeunit) : option Z :=
  if ((48 <=? c) && (c <=? 57))%N then Some (Z.of_N c - 48)%Z
  else if ((97 <=? c) && (c <=? 122))%N then Some (Z.of_N c - 87)%Z
  else if ((65 <=? c) && (c <=? 90))%N then Some (Z.of_N c - 55)%Z
  else None.

(** The integer of the longest prefix of digits of the radix, if it is not
    empty. *)
Fixpoint parse_digits (radix : Z) (digits : jsstring) (mathInt : option Z) : option Z :=
  match digits with
  | [] => mathInt
  | c :: digits' =>
    match digit_value c with
    | Some d =>
      if (d <? radix)%Z
      then parse_digits radix digits'
             (Some (radix * match mathInt with Some n => n | None => 0 end + d)%Z)
      else mathInt
    | None => mathInt
    end
  end.

(** [parseInt(string)], without a radix: leading white space is skipped, a
    sign is read, "0x" or "0X" announces radix 16, and the digits that follow
    are read as far as they go.  [None] is [NaN].  The value is exact; as a
    number it is rounded, which leaves the safe integers as they are and
    sends no other integer onto one of them. *)
Definition parseInt (string : jsstring) : option Z :=
  let trimmed := trimStart string in
  let '(sign, unsigned) :=
    match trimmed with
    | c :: rest =>
      if (c =? 45)%N then ((-1)%Z, rest)
      else if (c =? 43)%N then (1%Z, rest)
      else (1%Z, trimmed)
    | [] => (1%Z, trimmed)
    end in
  let '(radix, digits) :=
    match unsigned with
    | c :: x :: rest =>
      if ((c =? 48) && ((x =? 120) || (x =? 88)))%N then (16%Z, rest)
      else (10%Z, unsigned)
    | _ => (10%Z, unsigned)
    end in
  match parse_digits radix digits None with
  | None => None
  | Some mathInt => Some (sign * mathInt)%Z
  end.

Inductive vehicle_search_response :=
| VehicleSearch500
| VehicleSearch200 (data : list Vehicle.t) (count : nat)
    (make model year : option jsstring) (timestamp : jsstring).

Section VehicleController.

Variable toLowerCase : jsstring -> jsstring.
Variable mockVehicles : list Vehicle.t.

(** [req.params.vin] is a string. *)
Definition getVehicleByVIN (vin : jsstring) : M vehicle_response :=
  try_catch_with Vehicle500 (
    let* _ := simulateDelay 200 800 in
    if negb (isValidVIN (JSString vin)) then ret Vehicle400
    else
      match find_vehicle mockVehicles (JSString vin) with
      | None => ret (Vehicle404 vin)
      | Some vehicle =>
        let* timestamp := Date_toISOString in
        ret (Vehicle200 vehicle timestamp)
      end).

(** [req.query] gives [make], [model] and [year]: strings, or [undefined]
    ([None]) when the query does not name them.  A key that is repeated or
    written with brackets, for which the parser of the query gives an array
    or an object, is outside the model.  The years of the file are safe
    integers. *)
Definition searchVehicles (make model year : option jsstring)
  : M vehicle_search_response :=
  try_catch_with VehicleSearch500 (
    let* _ := simulateDelay 150 400 in
    let filteredVehicles := mockVehicles in
    let filteredVehicles :=
      match make with
      | Some (c :: m) =>
        List.filter (fun v => includes (toLowerCase (Vehicle.make v)) (toLowerCase (c :: m)))
          filteredVehicles
      | _ => filteredVehicles
      end in
    let filteredVehicles :=
      match model with
      | Some (c :: m) =>
        List.filter (fun v => includes (toLowerCase (Vehicle.model v)) (toLowerCase (c :: m)))
          filteredVehicles
      | _ => filteredVehicles
      end in
    let filteredVehicles :=
      match year with
      | Some (c :: y) =>
        match parseInt (c :: y) with
        | Some yearNum => List.filter (fun v => (Vehicle.year v =? yearNum)%Z) filteredVehicles
        | None => filteredVehicles
        end
      | _ => filteredVehicles
      end in
    let* timestamp := Date_toISOString in
    ret (VehicleSearch200 filteredVehicles (length filteredVehicles) make model year
           timestamp)).

End VehicleController.

(** ** partController.js: the catalogue *)

(** A part of [mockParts.json], which is not among the sources, with the
    fields the handlers read. *)
Module CatalogPart.
Record t := mk { name : jsstring; id : jsstring }.
End CatalogPart.

(** What [mockParts[key]] gives: the parts of a category of the file, a
    member of [Object.prototype] (a function, or the prototype itself for
    [__proto__]), which is truthy and has the [length] given, or
    [undefined]. *)
Inductive property :=
| Own (parts : list CatalogPart.t)
| Inherited (length : jsvalue)
| Absent.

(** [categoryParts.length] *)
Inductive part_count :=
| Count (n : nat)
| InheritedLength (length : jsvalue).

Module CategoryCount.
Record t := mk { name : jsstring; partCount : part_count; available : bool }.
End CategoryCount.

(** [{ ...part, category: cat }] *)
Module SearchResult.
Record t := mk { part : CatalogPart.t; category : jsstring }.
End SearchResult.

Inductive parts_response :=
| Parts400                                     (* Invalid VIN format *)
| Parts404_vehicle (vin : jsstring)            (* Vehicle not found *)
| Parts404_unavailable (category : jsstring) (availableCategories : list jsstring)
                                               (* Category not available *)
| Parts404_category (category : jsstring) (availableCategories : list jsstring)
                                               (* Category not found *)
| Parts500
| Parts200 (vin make model : jsstring) (year : Z) (category : jsstring)
    (parts : list CatalogPart.t) (count : nat) (timestamp : jsstring)
| Parts200_inherited (vin make model : jsstring) (year : Z) (category : jsstring)
    (length : jsvalue) (timestamp : jsstring).

Inductive categories_response :=
| Categories400                                (* Invalid VIN format *)
| Categories404 (vin : jsstring)               (* Vehicle not found *)
| Categories500
| Categories200 (vin make model : jsstring) (year : Z)
    (categories : list CategoryCount.t) (totalCategories : nat) (timestamp : jsstring).

Inductive search_parts_response :=
| SearchParts400                               (* Invalid search query *)
| SearchParts500
| SearchParts200 (query category : jsstring) (results : list SearchResult.t)
    (count : nat) (timestamp : jsstring).

(** The value of the own property [key] of an object whose own properties
    are [o], in the order of [Object.keys]. *)
Fixpoint own_property {V} (key : jsstring) (o : list (jsstring * V)) : option V :=
  match o with
  | [] => None
  | (k, v) :: o' => if bool_decide (k = key) then Some v else own_property key o'
  end.

Section PartCatalogue.

Variable toLowerCase : jsstring -> jsstring.
Variable mockVehicles : list Vehicle.t.

(** The categories of [mockParts.json], each with its parts. *)
Variable mockParts : list (jsstring * list CatalogPart.t).

(** The names [Object.prototype] answers to, each with the [length] of its
    value. *)
Variable Object_prototype : jsstring -> option jsvalue.

(** [mockParts[key]] *)
Definition get_parts (key : jsstring) : property :=
  match own_property key mockParts with
  | Some parts => Own parts
  | None =>
    match Object_prototype key with
    | Some length => Inherited length
    | None => Absent
    end
  end.

(** [req.params] gives [vin] and [category], both strings. *)
Definition getPartsByCategory (vin category : jsstring) : M parts_response :=
  try_catch_with Parts500 (
    let* _ := simulateDelay 150 600 in
    if negb (isValidVIN (JSString vin)) then ret Parts400
    else
      match find_vehicle mockVehicles (JSString vin) with
      | None => ret (Parts404_vehicle vin)
      | Some vehicle =>
        if negb (existsb (fun c => bool_decide (c = category)) (Vehicle.categories vehicle))
        then ret (Parts404_unavailable category (Vehicle.categories vehicle))
        else
          match get_parts category with
          | Absent => ret (Parts404_category category (map fst mockParts))
          | Own categoryParts =>
            let* timestamp := Date_toISOString in
            ret (Parts200 (Vehicle.vin vehicle) (Vehicle.make vehicle)
                   (Vehicle.model vehicle) (Vehicle.year vehicle) category
                   categoryParts (length categoryParts) timestamp)
          | Inherited length =>
            let* timestamp := Date_toISOString in
            ret (Parts200_inherited (Vehicle.vin vehicle) (Vehicle.make vehicle)
                   (Vehicle.model vehicle) (Vehicle.year vehicle) category
                   length timestamp)
          end
      end).

Definition getVehicleCategories (vin : jsstring) : M categories_response :=
  try_catch_with Categories500 (
    let* _ := simulateDelay 100 300 in
    if negb (isValidVIN (JSString vin)) then ret Categories400
    else
      match find_vehicle mockVehicles (JSString vin) with
      | None => ret (Categories404 vin)
      | Some vehicle =>
        let categoriesWithCounts :=
          map (fun category =>
                 CategoryCount.mk category
                   match get_parts category with
                   | Own parts => Count (length parts)
                   | Inherited length => InheritedLength length
                   | Absent => Count 0
                   end
                   match get_parts category with
                   | Own _ | Inherited _ => true
                   | Absent => false
                   end)
            (Vehicle.categories vehicle) in
        let* timestamp := Date_toISOString in
        ret (Categories200 (Vehicle.vin vehicle) (Vehicle.make vehicle)
               (Vehicle.model vehicle) (Vehicle.year vehicle)
               categoriesWithCounts (length categoriesWithCounts) timestamp)
      end).

(** [categoriesToSearch.forEach(cat => ...)]: the parts of each category
    that match are pushed to [results]; a member of [Object.prototype] has
    no [filter] to call. *)
Fixpoint search_categories (searchTerm : jsstring) (categoriesToSearch : list jsstring)
    (results : list SearchResult.t) : completion (list SearchResult.t) :=
  match categoriesToSearch with
  | [] => Normal results
  | cat :: categories =>
    match get_parts cat with
    | Absent => search_categories searchTerm categories results
    | Inherited _ => Throw TypeError
    | Own parts =>
      let matchingParts :=
        List.filter (fun part =>
                  includes (toLowerCase (CatalogPart.name part)) searchTerm
                  || includes (toLowerCase (CatalogPart.id part)) searchTerm)
          parts in
      search_categories searchTerm categories
        (results ++ map (fun part => SearchResult.mk part cat) matchingParts)
    end
  end.

(** [req.query] gives [query] and [category]: strings, or [undefined]
    ([None]) when the query does not name them.  A key that is repeated or
    written with brackets, for which the parser of the query gives an array
    or an object, is outside the model. *)
Definition searchParts (query category : option jsstring) : M search_parts_response :=
  try_catch_with SearchParts500 (
    let* _ := simulateDelay 200 500 in
    match query with
    | Some (c :: q) =>
      if (length (trim (c :: q)) <? 2)%nat then ret SearchParts400
      else
        let searchTerm := trim (toLowerCase (c :: q)) in
        let categoriesToSearch :=
          match category with
          | Some (c' :: cat) => [c' :: cat]
          | _ => map fst mockParts
          end in
        let* results :=
          lift_completion (search_categories searchTerm categoriesToSearch []) in
        let* timestamp := Date_toISOString in
        ret (SearchParts200 (c :: q)
               match category with
               | Some (c' :: cat) => c' :: cat
               | _ => utf16 "all"
               end
               results (length results) timestamp)
    | _ => ret SearchParts400
    end).

End PartCatalogue.

(** ** The routers

    [router.get(path, handler)] and [router.post(path, handler)] add a route
    to the router; a request goes to the first route of its method whose
    path matches, and the handlers of this program answer every request they
    are given.  A path is taken by its segments, the text between the
    slashes; a segment of a route is literal text or a parameter, and a
    parameter takes any segment that is not empty. *)

Inductive http_method := GET | POST.

Definition method_eqb (a b : http_method) : bool :=
  match a, b with
  | GET, GET | POST, POST => true
  | _, _ => false
  end.

Inductive segment :=
| Literal (text : jsstring)
| Param (name : jsstring).

Module Route.
Record t (H : Type) := mk { method : http_method; path : list segment; handler : H }.
Arguments mk {H} method path handler.
Arguments method {H} t.
Arguments path {H} t.
Arguments handler {H} t.
End Route.

(** Literal text is compared as the pattern the router compiles it to
    compares it: without regard to case. *)
Definition literal_matches (text s : jsstring) : bool :=
  bool_decide (map Canonicalize text = map Canonicalize s).

(** The segments the parameters take, when the path matches; the router
    gives the handler each of them decoded. *)
Fixpoint match_path (pattern : list segment) (path : list jsstring)
  : option (list (jsstring * jsstring)) :=
  match pattern, path with
  | [], [] => Some []
  | Literal text :: pattern', s :: path' =>
    if literal_matches text s then match_path pattern' path' else None
  | Param name :: pattern', s :: path' =>
    match s with
    | [] => None
    | _ :: _ =>
      match match_path pattern' path' with
      | Some params => Some ((name, s) :: params)
      | None => None
      end
    end
  | _, _ => None
  end.

Fixpoint dispatch {H} (routes : list (Route.t H)) (method : http_method)
    (path : list jsstring) : option (H * list (jsstring * jsstring)) :=
  match routes with
  | [] => None
  | route :: routes' =>
    if method_eqb (Route.method route) method
    then
      match match_path (Route.path route) path with
      | Some params => Some (Route.handler route, params)
      | None => dispatch routes' method path
      end
    else dispatch routes' method path
  end.

Inductive vehicle_handler := GetVehicleByVIN | GetAllVehicles | SearchVehicles.

Definition vehicleRoutes : list (Route.t vehicle_handler) :=
  [ Route.mk GET [Param (utf16 "vin")] GetVehicleByVIN;
    Route.mk GET [] GetAllVehicles;
    Route.mk GET [Literal (utf16 "search")] SearchVehicles ].

Inductive part_handler :=
| GetPartsByCategory
| InterpretPartFromDescription
| GetVehicleCategories
| SearchParts.

Definition partRoutes : list (Route.t part_handler) :=
  [ Route.mk GET [Param (utf16 "vin"); Param (utf16 "category")] GetPartsByCategory;
    Route.mk POST [Literal (utf16 "interpret")] InterpretPartFromDescription;
    Route.mk GET [Param (utf16 "vin"); Literal (utf16 "categories")] GetVehicleCategories;
    Route.mk GET [Literal (utf16 "search")] SearchParts ].

Inductive seller_handler :=
| GetSellersForPart
| CreatePartRequest
| GetRequestStatus
| GetAllSellers.

Definition sellerRoutes : list (Route.t seller_handler) :=
  [ Route.mk GET [Param (utf16 "partId")] GetSellersForPart;
    Route.mk POST [Literal (utf16 "request")] CreatePartRequest;
    Route.mk GET [Literal (utf16 "request"); Param (utf16 "requestId")] GetRequestStatus;
    Route.mk GET [] GetAllSellers ].


Definition sample_prototype (key : jsstring) : option jsvalue :=
  if bool_decide (key = utf16 "__proto__") then Some JSUndefined
  else if bool_decide (key ∈ map utf16 ["toString"; "valueOf"; "toLocaleString"]%string)
  then Some (JSNumber 0)
  else if bool_decide (key ∈ map utf16 ["constructor"; "hasOwnProperty"; "isPrototypeOf";
                                        "propertyIsEnumerable"; "__lookupGetter__";
                                        "__lookupSetter__"]%string)
  then Some (JSNumber 1)
  else if bool_decide (key ∈ map utf16 ["__defineGetter__"; "__defineSetter__"]%string)
  then Some (JSNumber 2)
  else None.

(** The computation [c] returns, whatever the world, a value that [P]
    holds of; and when the draws of the world are numbers of [0, 1), so are
    those left, and [Q] holds of the value too. *)
Definition returns {A} (P Q : A -> Prop) (c : M A) : Prop :=
  forall w, exists a w',
    c w = (Normal a, w') /\ P a /\ (valid_random w -> valid_random w' /\ Q a).

(** The status a reading gives a request of status [status], [elapsed]
    milliseconds after the request was created. *)
Definition status_after (elapsed : Z) (status : request_status) : request_status :=
  match status with
  | pending => if (30 * 60000 <? elapsed)%Z then in_progress else pending
  | in_progress => if (60 * 60000 <? elapsed)%Z then offers_received else in_progress
  | offers_received => offers_received
  end.

(** The request a reading leaves, with the draw [r] for the count it sets. *)
Definition polled (elapsed : Z) (r : Q) (request : Request.t) : Request.t :=
  Request.mk (Request.requestId request) (Request.vin request)
    (Request.partId request) (Request.userEmail request)
    (Request.description request) (Request.urgency request)
    (status_after elapsed (Request.status request))
    (Request.createdAt request) (Request.estimatedResponse request)
    (match Request.status request with
     | pending =>
       if (30 * 60000 <? elapsed)%Z then (Math_floor (r * 3) + 1)%Z
       else Request.contactAttempts request
     | _ => Request.contactAttempts request
     end)
    (match Request.status request with
     | in_progress =>
       if (60 * 60000 <? elapsed)%Z then Some (Math_floor (r * 5) + 1)%Z
       else Request.offerCount request
     | _ => Request.offerCount request
     end).

(** A pending request of the first reading of [sample_clock], and a world
    whose clock starts seventy minutes later. *)
Definition sample_request : Request.t :=
  Request.mk (utf16 "req-0-1234") (JSString (utf16 "WDB2020201F685790"))
    (JSString (utf16 "part-fren-001")) (JSString (utf16 "user@example.com"))
    (JSString []) (JSString (utf16 "normal")) pending (sample_clock 0)
    (utf16 "8-24 saat") 0 None.

Definition sample_requests : gmap jsstring Request.t :=
  {[ utf16 "req-0-1234" := sample_request ]}.

Definition sample_late_world : world :=
  mkWorld ∅ ∅ sample_draws (fun n => sample_clock (n + 7)).

(** * Properties of the classifier *)

Lemma fold_matches_bound (text : jsstring) (keywords : list jsstring) (n : nat) :
  (n <= fold_left (fun n keyword => if includes text keyword then S n else n) keywords n
     <= n + length keywords)%nat.
Proof.
  revert n; induction keywords as [|k ks IH]; intros n; simpl.
  - lia.
  - destruct (includes text k).
    + specialize (IH (S n)); lia.
    + specialize (IH n); lia.
Qed.

Lemma keywordMatches_le (text : jsstring) (keywords : list jsstring) :
  (keywordMatches text keywords <= length keywords)%nat.
Proof.
  unfold keywordMatches.
  pose proof (fold_matches_bound text keywords 0) as H; simpl in H; lia.
Qed.

(** The classifier sees the text only through the keywords that occur in it. *)
Lemma fold_matches_ext (text text' : jsstring) (keywords : list jsstring) (n : nat) :
  (forall kw, In kw keywords -> includes text kw = includes text' kw) ->
  fold_left (fun n keyword => if includes text keyword then S n else n) keywords n =
  fold_left (fun n keyword => if includes text' keyword then S n else n) keywords n.
Proof.
  revert n; induction keywords as [|k ks IH]; intros n H; simpl.
  - reflexivity.
  - rewrite (H k) by (left; reflexivity).
    apply IH; intros kw Hkw; apply H; right; exact Hkw.
Qed.

Lemma analyze_ext (text text' : jsstring) (st : best) (entry : jsstring * Mapping.t) :
  (forall kw, In kw (Mapping.keywords (snd entry)) ->
              includes text kw = includes text' kw) ->
  analyze text st entry = analyze text' st entry.
Proof.
  destruct entry as [category mapping]; simpl; intros H.
  unfold keywordMatches.
  rewrite (fold_matches_ext text text' (Mapping.keywords mapping) 0%nat H); reflexivity.
Qed.

Lemma for_of_analyze_ext (text text' : jsstring) (es : list (jsstring * Mapping.t)) :
  (forall kw, In kw (flat_map (fun entry => Mapping.keywords (snd entry)) es) ->
              includes text kw = includes text' kw) ->
  forall st, for_of (analyze text) st es = for_of (analyze text') st es.
Proof.
  induction es as [|e es IH]; intros H st; simpl.
  - reflexivity.
  - rewrite (analyze_ext text text' st e).
    + destruct (analyze text' st e); [apply IH | reflexivity].
      intros kw Hkw; apply H; simpl; apply in_or_app; right; exact Hkw.
    + intros kw Hkw; apply H; simpl; apply in_or_app; left; exact Hkw.
Qed.

Lemma classify_profile (lower lower' : jsstring -> jsstring)
    (d d' : jsstring) (vin vin' : jsvalue) :
  (forall kw, In kw all_keywords -> includes (lower d) kw = includes (lower' d') kw) ->
  interpretPartFromText lower d vin = interpretPartFromText lower' d' vin'.
Proof.
  intros H; unfold interpretPartFromText.
  rewrite (for_of_analyze_ext (lower d) (lower' d') partMappings H); reflexivity.
Qed.

(** Two texts the classifier can be run on. *)
Example classify_empty :
  interpretPartFromText (fun s => s) [] JSUndefined = Normal fallback.
Proof. vm_compute. reflexivity. Qed.

Example classify_fren_far :
  interpretPartFromText toLowerCase_latin (utf16 "FREN far") JSUndefined =
  Normal (SuggestedPart.mk (utf16 "Fren Balatası Ön") (utf16 "part-fren-001")
            (0.9 * (1 / 9 * 0.8 + 0.2))%float (utf16 "fren") 1).
Proof. vm_compute. reflexivity. Qed.

Lemma empty_profile :
  forallb (fun kw => negb (includes [] kw)) all_keywords = true.
Proof. vm_compute. reflexivity. Qed.

Lemma fren_profile :
  forallb (fun kw => bool_decide (kw = utf16 "fren") || negb (includes (utf16 "fren") kw))
          all_keywords = true.
Proof. vm_compute. reflexivity. Qed.

(** Every category has a first part, so the loop never throws. *)
Lemma for_of_analyze_total (text : jsstring) (es : list (jsstring * Mapping.t)) :
  Forall (fun entry => Mapping.parts (snd entry) <> []) es ->
  forall st, exists st', for_of (analyze text) st es = Normal st'.
Proof.
  induction 1 as [|[category mapping] es Hparts _ IH]; intros st; simpl.
  - exists st; reflexivity.
  - destruct (Mapping.parts mapping) as [|bestPart rest] eqn:E; [contradiction|].
    destruct (0 <? keywordMatches text (Mapping.keywords mapping))%nat; simpl.
    + destruct (highestConfidence st <? _)%float; apply IH.
    + apply IH.
Qed.

Lemma partMappings_parts :
  Forall (fun entry => Mapping.parts (snd entry) <> []) partMappings.
Proof. repeat constructor; discriminate. Qed.

(** C6. The classifier is total: for every description it returns a
    suggestion and does not throw.  When no keyword of any category occurs
    in the lower-cased text, the suggestion is the fixed fallback: id
    "part-general-001", confidence 0.3, category "general", no matched
    keyword. *)
Theorem classifier_total_and_fallback (toLowerCase : jsstring -> jsstring)
    (description : jsstring) (vin : jsvalue) :
  (exists r, interpretPartFromText toLowerCase description vin = Normal r) /\
  ((forall category mapping kw,
       In (category, mapping) partMappings -> In kw (Mapping.keywords mapping) ->
       includes (toLowerCase description) kw = false) ->
   interpretPartFromText toLowerCase description vin =
   Normal (SuggestedPart.mk (utf16 "Genel Kontrol Gerekli") (utf16 "part-general-001")
             0.3%float (utf16 "general") 0)).
Proof.
  split.
  - unfold interpretPartFromText.
    destruct (for_of_analyze_total (toLowerCase description) partMappings
                partMappings_parts (mkBest None 0%float)) as [st ->].
    destruct (bestMatch st); eexists; reflexivity.
  - intros Hnone.
    rewrite (classify_profile toLowerCase (fun s => s) description [] vin JSUndefined).
    + exact classify_empty.
    + intros kw Hkw.
      pose proof empty_profile as Hp; rewrite forallb_forall in Hp.
      specialize (Hp kw Hkw); apply negb_true_iff in Hp; rewrite Hp.
      apply in_flat_map in Hkw; destruct Hkw as [[category mapping] [He Hk]].
      exact (Hnone category mapping kw He Hk).
Qed.

Lemma classifier_total_and_fallback_witness :
  interpretPartFromText toLowerCase_latin (utf16 "Merhaba") (JSString (utf16 "VIN")) =
  Normal (SuggestedPart.mk (utf16 "Genel Kontrol Gerekli") (utf16 "part-general-001")
            0.3%float (utf16 "general") 0).
Proof.
  apply (proj2 (classifier_total_and_fallback toLowerCase_latin (utf16 "Merhaba")
                  (JSString (utf16 "VIN")))).
  intros category mapping kw He Hk.
  assert (Hall : forallb (fun kw => negb (includes (toLowerCase_latin (utf16 "Merhaba")) kw))
                   all_keywords = true) by (vm_compute; reflexivity).
  rewrite forallb_forall in Hall.
  apply negb_true_iff, Hall, in_flat_map.
  exists (category, mapping); split; assumption.
Defined.

(** The scenario's result, computed. *)
Lemma classify_scenario :
  interpretPartFromText (fun s => s) scenario JSUndefined =
  Normal (SuggestedPart.mk (utf16 "Fren Balatası Ön") (utf16 "part-fren-001")
            (0.9 * Math_min 0.95 (3 / 9 * 0.8 + 0.2))%float (utf16 "fren") 3).
Proof. vm_compute. reflexivity. Qed.

(** C1, as amended.  On the text "fren tutmuyor arka kısımdan ses geliyor"
    (which lower-casing leaves as it is) the classifier returns category
    "fren", part id "part-fren-001", a matched-keyword count of exactly 3 and
    the confidence 0.9 * min(0.95, (3/9)*0.8 + 0.2), which is about 0.42:
    above 0.4 and strictly below 0.5. *)
Theorem scenario_classified (toLowerCase : jsstring -> jsstring) (vin : jsvalue) :
  toLowerCase scenario = scenario ->
  exists r,
    interpretPartFromText toLowerCase scenario vin = Normal r /\
    SuggestedPart.category r = utf16 "fren" /\
    SuggestedPart.id r = utf16 "part-fren-001" /\
    SuggestedPart.matchedKeywords r = 3%nat /\
    SuggestedPart.confidence r = (0.9 * Math_min 0.95 (3 / 9 * 0.8 + 0.2))%float /\
    (0.4 <? SuggestedPart.confidence r)%float = true /\
    (SuggestedPart.confidence r <? 0.5)%float = true.
Proof.
  intros Hlower.
  rewrite (classify_profile toLowerCase (fun s => s) scenario scenario vin JSUndefined)
    by (intros kw _; rewrite Hlower; reflexivity).
  rewrite classify_scenario.
  eexists; split; [reflexivity|]; simpl.
  repeat split; vm_compute; reflexivity.
Qed.

Lemma scenario_classified_witness :
  toLowerCase_latin scenario = scenario /\
  exists r,
    interpretPartFromText toLowerCase_latin scenario (JSString (utf16 "WDB2020201F685790"))
      = Normal r /\
    SuggestedPart.category r = utf16 "fren" /\
    SuggestedPart.id r = utf16 "part-fren-001" /\
    SuggestedPart.matchedKeywords r = 3%nat /\
    SuggestedPart.confidence r = (0.9 * Math_min 0.95 (3 / 9 * 0.8 + 0.2))%float /\
    (0.4 <? SuggestedPart.confidence r)%float = true /\
    (SuggestedPart.confidence r <? 0.5)%float = true.
Proof.
  split.
  - vm_compute; reflexivity.
  - apply (scenario_classified toLowerCase_latin (JSString (utf16 "WDB2020201F685790"))).
    vm_compute; reflexivity.
Defined.

(** C1, as stated, fails: on the scenario's text the confidence is not
    strictly greater than 0.5. *)
Lemma scenario_confidence_not_above_half :
  ~ (exists r,
        interpretPartFromText toLowerCase_latin scenario
          (JSString (utf16 "WDB2020201F685790")) = Normal r /\
        SuggestedPart.category r = utf16 "fren" /\
        SuggestedPart.id r = utf16 "part-fren-001" /\
        (3 <= SuggestedPart.matchedKeywords r)%nat /\
        (0.5 <? SuggestedPart.confidence r)%float = true).
Proof.
  intros [r [Hr [_ [_ [_ Hconf]]]]].
  rewrite (classify_profile toLowerCase_latin (fun s => s) scenario scenario
             _ JSUndefined) in Hr
    by (intros kw _; f_equal; vm_compute; reflexivity).
  rewrite classify_scenario in Hr.
  injection Hr as <-.
  vm_compute in Hconf; discriminate Hconf.
Qed.

(** C7. When "fren" occurs in the lower-cased text and no other keyword of
    any category does, the classifier returns category "fren" with one
    matched keyword and the confidence 0.9 * min(0.95, (1/9)*0.8 + 0.2). *)
Theorem only_fren_classified (toLowerCase : jsstring -> jsstring)
    (description : jsstring) (vin : jsvalue) :
  includes (toLowerCase description) (utf16 "fren") = true ->
  (forall kw, In kw all_keywords -> kw <> utf16 "fren" ->
              includes (toLowerCase description) kw = false) ->
  exists r,
    interpretPartFromText toLowerCase description vin = Normal r /\
    SuggestedPart.category r = utf16 "fren" /\
    SuggestedPart.matchedKeywords r = 1%nat /\
    SuggestedPart.confidence r = (0.9 * Math_min 0.95 (1 / 9 * 0.8 + 0.2))%float.
Proof.
  intros Hfren Hothers.
  rewrite (classify_profile toLowerCase (fun s => s) description (utf16 "fren")
             vin JSUndefined).
  - eexists; split; [vm_compute; reflexivity|].
    repeat split; vm_compute; reflexivity.
  - intros kw Hkw.
    pose proof fren_profile as Hp; rewrite forallb_forall in Hp.
    specialize (Hp kw Hkw); apply orb_true_iff in Hp.
    destruct (decide (kw = utf16 "fren")) as [->|Hne].
    + rewrite Hfren; vm_compute; reflexivity.
    + rewrite (Hothers kw Hkw Hne).
      destruct Hp as [Hp|Hp].
      * apply bool_decide_eq_true in Hp; contradiction.
      * apply negb_true_iff in Hp; symmetry; exact Hp.
Qed.

Lemma only_fren_classified_witness :
  exists r,
    interpretPartFromText toLowerCase_latin (utf16 "Frenler") JSNull = Normal r /\
    SuggestedPart.category r = utf16 "fren" /\
    SuggestedPart.matchedKeywords r = 1%nat /\
    SuggestedPart.confidence r = (0.9 * Math_min 0.95 (1 / 9 * 0.8 + 0.2))%float.
Proof.
  apply (only_fren_classified toLowerCase_latin (utf16 "Frenler") JSNull).
  - vm_compute; reflexivity.
  - intros kw Hkw Hne.
    assert (Hall : forallb (fun kw => bool_decide (kw = utf16 "fren")
                      || negb (includes (toLowerCase_latin (utf16 "Frenler")) kw))
                     all_keywords = true) by (vm_compute; reflexivity).
    rewrite forallb_forall in Hall.
    specialize (Hall kw Hkw); apply orb_true_iff in Hall; destruct Hall as [H|H].
    + apply bool_decide_eq_true in H; contradiction.
    + apply negb_true_iff in H; exact H.
Defined.

(** ** The table, checked by computation *)

Lemma forallb_seq (f : nat -> bool) (a n : nat) :
  forallb f (seq a n) = true -> forall k, (a <= k < a + n)%nat -> f k = true.
Proof.
  intros H k Hk; rewrite forallb_forall in H; apply H, in_seq; exact Hk.
Qed.

Lemma partMappings_checked : forallb entry_check partMappings = true.
Proof. vm_compute. reflexivity. Qed.

Lemma attainable_ordered :
  forallb (fun x => forallb (fun y => forallb (order_check x y) attainable) attainable)
          attainable = true.
Proof. vm_compute. reflexivity. Qed.

Lemma entry_facts (entry : jsstring * Mapping.t) (k : nat) :
  In entry partMappings ->
  (k <= length (Mapping.keywords (snd entry)))%nat ->
  exists bestPart,
    nth_error (Mapping.parts (snd entry)) 0 = Some bestPart /\
    let d := density_confidence k (length (Mapping.keywords (snd entry))) in
    let a := (Part.confidence bestPart * d)%float in
    (0 <=? d)%float = true /\ (d <=? 0.95)%float = true /\
    ((0 < k)%nat ->
     (0 <? a)%float = true /\
     forall mapping' bestPart',
       In (fst entry, mapping') partMappings ->
       nth_error (Mapping.parts mapping') 0 = Some bestPart' ->
       (a <=? Part.confidence bestPart')%float = true).
Proof.
  intros Hin Hk.
  pose proof partMappings_checked as H; rewrite forallb_forall in H.
  specialize (H entry Hin); unfold entry_check in H.
  destruct (nth_error (Mapping.parts (snd entry)) 0) as [bestPart|]; [|discriminate].
  exists bestPart; split; [reflexivity|].
  apply forallb_seq with (k := k) in H; [|lia].
  cbv zeta in *.
  apply andb_true_iff in H; destruct H as [H Himp].
  apply andb_true_iff in H; destruct H as [H0 H1].
  split; [exact H0|]; split; [exact H1|].
  intros Hpos; apply Nat.ltb_lt in Hpos; rewrite Hpos in Himp; cbn [implb] in Himp.
  apply andb_true_iff in Himp; destruct Himp as [Ha Hall].
  split; [exact Ha|].
  intros mapping' bestPart' Hin' Hnth.
  rewrite forallb_forall in Hall; specialize (Hall _ Hin'); cbn [fst snd] in Hall.
  rewrite bool_decide_eq_true_2 in Hall by reflexivity.
  cbn [implb] in Hall.
  rewrite Hnth in Hall; exact Hall.
Qed.

Lemma attainable_candidate (text : jsstring) (entry : jsstring * Mapping.t) (a : float) :
  In entry partMappings -> candidate text entry a -> In a attainable.
Proof.
  intros Hin [Hpos Hadj]; right.
  apply in_flat_map; exists entry; split; [exact Hin|].
  apply in_flat_map; exists (matches text (snd entry)); split.
  - apply in_seq; pose proof (keywordMatches_le text (Mapping.keywords (snd entry))).
    unfold matches in *; lia.
  - rewrite Hadj; left; reflexivity.
Qed.

Lemma attainable_order (x y z : float) :
  In x attainable -> In y attainable -> In z attainable ->
  (x <? x)%float = false /\
  ((x <? y)%float = true -> (y <? x)%float = false) /\
  ((x <? y)%float = false -> (x <? z)%float = true -> (y <? z)%float = true).
Proof.
  intros Hx Hy Hz.
  pose proof attainable_ordered as H; rewrite forallb_forall in H.
  specialize (H x Hx); rewrite forallb_forall in H.
  specialize (H y Hy); rewrite forallb_forall in H.
  specialize (H z Hz); unfold order_check in H.
  destruct (x <? x)%float, (x <? y)%float, (y <? x)%float, (x <? z)%float, (y <? z)%float;
    simpl in H; try discriminate; repeat split; intros; congruence.
Qed.

Lemma attainable_irrefl (x : float) : In x attainable -> (x <? x)%float = false.
Proof. intros Hx; exact (proj1 (attainable_order x x x Hx Hx Hx)). Qed.

Lemma attainable_asym (x y : float) :
  In x attainable -> In y attainable -> (x <? y)%float = true -> (y <? x)%float = false.
Proof. intros Hx Hy; exact (proj1 (proj2 (attainable_order x y y Hx Hy Hy))). Qed.

Lemma attainable_below (x y z : float) :
  In x attainable -> In y attainable -> In z attainable ->
  (x <? y)%float = false -> (x <? z)%float = true -> (y <? z)%float = true.
Proof. intros Hx Hy Hz; exact (proj2 (proj2 (attainable_order x y z Hx Hy Hz))). Qed.

(** ** The loop over the categories *)

Lemma lookup_In {A} (l : list A) (i : nat) (x : A) : l !! i = Some x -> In x l.
Proof. intros H; apply list_elem_of_In, (list_elem_of_lookup_2 l i x H). Qed.

Lemma candidate_unique (text : jsstring) (entry : jsstring * Mapping.t) (a a' : float) :
  candidate text entry a -> candidate text entry a' -> a = a'.
Proof. intros [_ H] [_ H']; congruence. Qed.

(** One turn of the loop: nothing changes for a category without a match;
    a candidate replaces the best one exactly when it is strictly better. *)
Lemma analyze_cases (text : jsstring) (st : best) (entry : jsstring * Mapping.t) :
  In entry partMappings ->
  (matches text (snd entry) = 0%nat /\ analyze text st entry = Normal st) \/
  (exists bestPart a,
      nth_error (Mapping.parts (snd entry)) 0 = Some bestPart /\
      candidate text entry a /\ (0 <? a)%float = true /\
      analyze text st entry =
      Normal (if (highestConfidence st <? a)%float
              then mkBest (Some (suggestion_of text entry bestPart a)) a
              else st)).
Proof.
  intros Hin.
  destruct (entry_facts entry (matches text (snd entry)) Hin
              (keywordMatches_le text _)) as [bestPart [Hnth [_ [_ Hpos]]]].
  destruct entry as [category mapping]; cbn [fst snd] in *.
  unfold analyze, candidate, adjusted, suggestion_of; cbn [fst snd].
  fold (matches text mapping).
  destruct (matches text mapping) as [|k] eqn:Hk.
  - left; split; reflexivity.
  - right; exists bestPart; eexists; rewrite Hnth.
    split; [reflexivity|]; split; [split; [lia|reflexivity]|].
    split; [apply Hpos; lia|].
    cbn [Nat.ltb Nat.leb].
    destruct (highestConfidence st <? _)%float; reflexivity.
Qed.

Lemma loop_inv_init (text : jsstring) : loop_inv text [] (mkBest None 0%float).
Proof.
  constructor; simpl.
  - left; reflexivity.
  - intros e a [].
  - intros _; split; [reflexivity|intros e []].
  - intros r H; discriminate H.
Qed.

Lemma loop_inv_keep (text : jsstring) (done : list (jsstring * Mapping.t))
    (st : best) (entry : jsstring * Mapping.t) :
  loop_inv text done st ->
  (forall a, candidate text entry a -> (highestConfidence st <? a)%float = false) ->
  (bestMatch st = None -> matches text (snd entry) = 0%nat) ->
  loop_inv text (done ++ [entry]) st.
Proof.
  intros [Hatt Hhigh Hnone Hsome] Hentry Hzero; constructor.
  - exact Hatt.
  - intros e a He Hc; apply in_app_or in He; destruct He as [He|[<-|[]]].
    + exact (Hhigh e a He Hc).
    + exact (Hentry a Hc).
  - intros Hb; destruct (Hnone Hb) as [H0 Hall]; split; [exact H0|].
    intros e He; apply in_app_or in He; destruct He as [He|[<-|[]]].
    + exact (Hall e He).
    + exact (Hzero Hb).
  - intros r Hr; destruct (Hsome r Hr) as [j [e [bestPart [Hj [Hnth [Hc [-> Hbefore]]]]]]].
    exists j, e, bestPart; repeat split; try assumption.
    + apply lookup_app_l_Some; exact Hj.
    + apply Hc.
    + apply Hc.
    + intros i e' a Hi Hi' Hc'.
      apply (Hbefore i e' a Hi); [|exact Hc'].
      rewrite lookup_app_l in Hi'; [exact Hi'|].
      apply lookup_lt_Some in Hj; lia.
Qed.

Lemma loop_inv_step (text : jsstring) (done : list (jsstring * Mapping.t))
    (st : best) (entry : jsstring * Mapping.t) :
  In entry partMappings ->
  (forall e, In e done -> In e partMappings) ->
  loop_inv text done st ->
  exists st', analyze text st entry = Normal st' /\ loop_inv text (done ++ [entry]) st'.
Proof.
  intros Hin Hdone Hinv.
  destruct (analyze_cases text st entry Hin)
    as [[Hzero ->]|[bestPart [a [Hnth [Hc [Hpos ->]]]]]].
  - exists st; split; [reflexivity|].
    apply loop_inv_keep; [exact Hinv| |intros _; exact Hzero].
    intros a [Hlt _]; lia.
  - pose proof (attainable_candidate text entry a Hin Hc) as Ha.
    destruct (highestConfidence st <? a)%float eqn:Hlt.
    + eexists; split; [reflexivity|].
      destruct Hinv as [Hatt Hhigh Hnone Hsome].
      assert (Hbelow : forall e a', In e done -> candidate text e a' ->
                                    (a' <? a)%float = true).
      { intros e a' He Hc'.
        pose proof (attainable_candidate text e a' (Hdone e He) Hc') as Ha'.
        apply (attainable_below (highestConfidence st) a' a Hatt Ha' Ha);
          [exact (Hhigh e a' He Hc')|exact Hlt]. }
      constructor; cbn [highestConfidence bestMatch].
      * exact Ha.
      * intros e a' He Hc'; apply in_app_or in He; destruct He as [He|[<-|[]]].
        -- pose proof (attainable_candidate text e a' (Hdone e He) Hc') as Ha'.
           apply (attainable_asym a' a Ha' Ha), (Hbelow e a' He Hc').
        -- rewrite (candidate_unique text entry a' a Hc' Hc).
           apply (attainable_irrefl a Ha).
      * intros H; discriminate H.
      * intros r Hr; injection Hr as <-.
        exists (length done), entry, bestPart; repeat split; try assumption.
        -- apply list_lookup_middle; reflexivity.
        -- apply Hc.
        -- apply Hc.
        -- intros i e' a' Hi Hi' Hc'.
           rewrite lookup_app_l in Hi' by exact Hi.
           exact (Hbelow e' a' (lookup_In done i e' Hi') Hc').
    + exists st; split; [reflexivity|].
      apply loop_inv_keep; [exact Hinv| |].
      * intros a' Hc'; rewrite (candidate_unique text entry a' a Hc' Hc); exact Hlt.
      * intros Hb; destruct (inv_none text done st Hinv Hb) as [H0 _].
        rewrite H0 in Hlt; congruence.
Qed.

Lemma loop_inv_for_of (text : jsstring) (es done : list (jsstring * Mapping.t))
    (st : best) :
  (forall e, In e (done ++ es) -> In e partMappings) ->
  loop_inv text done st ->
  exists st', for_of (analyze text) st es = Normal st' /\ loop_inv text (done ++ es) st'.
Proof.
  revert done st; induction es as [|e es IH]; intros done st Hsub Hinv; simpl.
  - exists st; split; [reflexivity|]; rewrite app_nil_r; exact Hinv.
  - destruct (loop_inv_step text done st e) as [st1 [-> Hinv1]].
    + apply Hsub, in_or_app; right; left; reflexivity.
    + intros e' He'; apply Hsub, in_or_app; left; exact He'.
    + exact Hinv.
    + replace (done ++ e :: es) with ((done ++ [e]) ++ es)
        by (rewrite <- app_assoc; reflexivity).
      apply IH; [|exact Hinv1].
      rewrite <- app_assoc; exact Hsub.
Qed.

(** The classifier's result, characterised: either no category has a match
    and the result is the fallback, or the result is the suggestion built
    for a candidate category that is strictly better than every candidate
    before it and not worse than any candidate after it. *)
Lemma classifier_winner (toLowerCase : jsstring -> jsstring)
    (description : jsstring) (vin : jsvalue) :
  let text := toLowerCase description in
  exists r,
    interpretPartFromText toLowerCase description vin = Normal r /\
    ((r = fallback /\ forall e, In e partMappings -> matches text (snd e) = 0%nat) \/
     (exists j e bestPart,
         partMappings !! j = Some e /\
         nth_error (Mapping.parts (snd e)) 0 = Some bestPart /\
         candidate text e (SuggestedPart.confidence r) /\
         r = suggestion_of text e bestPart (SuggestedPart.confidence r) /\
         (forall i e' a, (i < j)%nat -> partMappings !! i = Some e' ->
                         candidate text e' a ->
                         (a <? SuggestedPart.confidence r)%float = true) /\
         (forall e' a, In e' partMappings -> candidate text e' a ->
                       (SuggestedPart.confidence r <? a)%float = false))).
Proof.
  intros text; unfold interpretPartFromText; fold text.
  destruct (loop_inv_for_of text partMappings [] (mkBest None 0%float))
    as [st [-> [Hatt Hhigh Hnone Hsome]]].
  - intros e He; exact He.
  - apply loop_inv_init.
  - cbn [app] in *.
    destruct (bestMatch st) as [r|] eqn:Hb.
    + exists r; split; [reflexivity|]; right.
      destruct (Hsome r eq_refl) as [j [e [bestPart [Hj [Hnth [Hc [Hr Hbefore]]]]]]].
      assert (Hconf : SuggestedPart.confidence r = highestConfidence st)
        by (rewrite Hr; reflexivity).
      rewrite Hconf.
      exists j, e, bestPart; repeat split; try assumption; apply Hc.
    + exists fallback; split; [reflexivity|]; left.
      split; [reflexivity|]; apply (Hnone eq_refl).
Qed.

(** The categories have distinct names. *)
Lemma category_index (j j' : nat) (e e' : jsstring * Mapping.t) :
  partMappings !! j = Some e -> partMappings !! j' = Some e' -> fst e = fst e' -> j = j'.
Proof.
  intros Hj Hj' Hk.
  assert (Hkeys : forall i c, map fst partMappings !! i = Some c ->
            nth i [0; 1; 2; 3; 4]%nat 5%nat =
            (if bool_decide (c = utf16 "fren") then 0
             else if bool_decide (c = utf16 "motor") then 1
             else if bool_decide (c = utf16 "elektrik") then 2
             else if bool_decide (c = utf16 "suspansiyon") then 3 else 4)%nat).
  { intros i c Hi.
    destruct i as [|[|[|[|[|i]]]]]; vm_compute in Hi; try discriminate Hi;
      injection Hi as <-; vm_compute; reflexivity. }
  assert (Hm : forall i x, partMappings !! i = Some x ->
                           map fst partMappings !! i = Some (fst x)).
  { intros i x Hi; change (map fst partMappings) with (fst <$> partMappings).
    rewrite list_lookup_fmap, Hi; reflexivity. }
  pose proof (Hkeys j _ (Hm j e Hj)) as E; pose proof (Hkeys j' _ (Hm j' e' Hj')) as E'.
  rewrite Hk in E; rewrite <- E' in E.
  apply lookup_lt_Some in Hj, Hj'; change (length partMappings) with 5%nat in Hj, Hj'.
  destruct j as [|[|[|[|[|j]]]]]; destruct j' as [|[|[|[|[|j']]]]];
    simpl in E; try lia.
Qed.

Lemma general_is_no_category (mapping : Mapping.t) :
  ~ In (utf16 "general", mapping) partMappings.
Proof.
  intros H; apply (in_map fst) in H; vm_compute in H.
  repeat (destruct H as [H|H]; [discriminate H|]); exact H.
Qed.

(** C2. For every text, the density confidence of every category lies in
    [0, 0.95]; and the confidence of the returned suggestion is at most the
    base weight of the first part of the suggestion's category. *)
Theorem confidence_bounds (toLowerCase : jsstring -> jsstring)
    (description : jsstring) (vin : jsvalue) :
  Forall (fun entry =>
            let d := density_confidence
                       (keywordMatches (toLowerCase description)
                          (Mapping.keywords (snd entry)))
                       (length (Mapping.keywords (snd entry))) in
            (0 <=? d)%float = true /\ (d <=? 0.95)%float = true) partMappings /\
  (forall r mapping bestPart,
      interpretPartFromText toLowerCase description vin = Normal r ->
      In (SuggestedPart.category r, mapping) partMappings ->
      nth_error (Mapping.parts mapping) 0 = Some bestPart ->
      (SuggestedPart.confidence r <=? Part.confidence bestPart)%float = true).
Proof.
  split.
  - apply List.Forall_forall; intros entry Hin.
    destruct (entry_facts entry _ Hin (keywordMatches_le (toLowerCase description) _))
      as [bestPart [_ [H0 [H1 _]]]].
    split; assumption.
  - intros r mapping bestPart Hr Hin Hnth.
    destruct (classifier_winner toLowerCase description vin) as [r' [Hr' Hwin]].
    rewrite Hr in Hr'; injection Hr' as <-.
    destruct Hwin as [[-> _]|[j [e [p [Hj [Hp [[Hpos Hadj] [Hsugg _]]]]]]]].
    + exfalso; exact (general_is_no_category mapping Hin).
    + assert (Hcat : SuggestedPart.category r = fst e) by (rewrite Hsugg; reflexivity).
      rewrite Hcat in Hin.
      destruct (entry_facts e _ (lookup_In _ _ _ Hj)
                  (keywordMatches_le (toLowerCase description) _))
        as [p' [Hp' [_ [_ Hle]]]].
      destruct (Hle Hpos) as [_ Hweights].
      specialize (Hweights mapping bestPart Hin Hnth).
      unfold adjusted in Hadj; rewrite Hp' in Hadj; injection Hadj as Hadj.
      unfold matches in Hadj; rewrite <- Hadj; exact Hweights.
Qed.


Lemma confidence_bounds_witness :
  exists r mapping bestPart,
    interpretPartFromText toLowerCase_latin scenario JSUndefined = Normal r /\
    In (SuggestedPart.category r, mapping) partMappings /\
    nth_error (Mapping.parts mapping) 0 = Some bestPart /\
    (SuggestedPart.confidence r <=? Part.confidence bestPart)%float = true.
Proof.
  pose (bestPart := Part.mk (utf16 "Fren Balatası Ön") (utf16 "part-fren-001") 0.9).
  pose (r := SuggestedPart.mk (utf16 "Fren Balatası Ön") (utf16 "part-fren-001")
               (0.9 * Math_min 0.95 (3 / 9 * 0.8 + 0.2))%float (utf16 "fren") 3).
  pose (mapping := snd (nth 0 partMappings (utf16 "", Mapping.mk [] []))).
  assert (Hr : interpretPartFromText toLowerCase_latin scenario JSUndefined = Normal r)
    by (vm_compute; reflexivity).
  assert (Hin : In (SuggestedPart.category r, mapping) partMappings)
    by (left; reflexivity).
  assert (Hnth : nth_error (Mapping.parts mapping) 0 = Some bestPart) by reflexivity.
  exists r, mapping, bestPart.
  split; [exact Hr|]; split; [exact Hin|]; split; [exact Hnth|].
  exact (proj2 (confidence_bounds toLowerCase_latin scenario JSUndefined)
           r mapping bestPart Hr Hin Hnth).
Defined.

Lemma analyze_not_better (text : jsstring) (st : best) (entry : jsstring * Mapping.t)
    (a : float) :
  candidate text entry a -> (highestConfidence st <? a)%float = false ->
  analyze text st entry = Normal st.
Proof.
  destruct entry as [category mapping]; unfold candidate, adjusted, matches, analyze.
  cbn [fst snd]; intros [Hpos Hadj] Hlt.
  apply Nat.ltb_lt in Hpos; rewrite Hpos.
  destruct (nth_error (Mapping.parts mapping) 0) as [bestPart|]; [|discriminate Hadj].
  injection Hadj as Hadj; rewrite Hadj, Hlt; reflexivity.
Qed.

(** C3. The categories are examined in the order fren, motor, elektrik,
    suspansiyon, klima.  A candidate that is not strictly better than the
    best one so far leaves the loop's variables as they are.  Hence, when two
    categories have exactly the same adjusted confidence, the later one is
    never the category returned; and when the earlier one is the first
    candidate with that confidence and no candidate is better, it is the one
    returned. *)
Theorem first_best_category_wins (toLowerCase : jsstring -> jsstring)
    (description : jsstring) (vin : jsvalue) :
  let text := toLowerCase description in
  map fst partMappings =
    map utf16 ["fren"; "motor"; "elektrik"; "suspansiyon"; "klima"]%string /\
  (forall st entry a,
      candidate text entry a -> (highestConfidence st <? a)%float = false ->
      analyze text st entry = Normal st) /\
  (forall i j ei ej a,
      (i < j)%nat -> partMappings !! i = Some ei -> partMappings !! j = Some ej ->
      candidate text ei a -> candidate text ej a ->
      exists r,
        interpretPartFromText toLowerCase description vin = Normal r /\
        SuggestedPart.category r <> fst ej /\
        ((forall e' a', In e' partMappings -> candidate text e' a' ->
                        (a <? a')%float = false) ->
         (forall i' e' a', (i' < i)%nat -> partMappings !! i' = Some e' ->
                           candidate text e' a' -> (a' <? a)%float = true) ->
         SuggestedPart.category r = fst ei /\
         SuggestedPart.confidence r = a /\
         SuggestedPart.matchedKeywords r = matches text (snd ei))).
Proof.
  intros text; split; [vm_compute; reflexivity|].
  split; [intros st entry a; apply analyze_not_better|].
  intros i j ei ej a Hij Hi Hj Hci Hcj.
  destruct (classifier_winner toLowerCase description vin) as [r [Hr Hwin]].
  fold text in Hwin.
  exists r; split; [exact Hr|].
  destruct Hwin as [[_ Hnone]|[j0 [e0 [p0 [Hj0 [Hp0 [Hc0 [Hsugg [Hbefore Hbest]]]]]]]]].
  { exfalso; destruct Hci as [Hpos _].
    rewrite (Hnone ei (lookup_In _ _ _ Hi)) in Hpos; lia. }
  assert (Hcat : SuggestedPart.category r = fst e0) by (rewrite Hsugg; reflexivity).
  assert (Hmk : SuggestedPart.matchedKeywords r = matches text (snd e0))
    by (rewrite Hsugg; reflexivity).
  pose proof (attainable_candidate text ei a (lookup_In _ _ _ Hi) Hci) as Ha.
  split.
  - intros Heq; rewrite Hcat in Heq.
    pose proof (category_index j0 j e0 ej Hj0 Hj Heq) as ->.
    assert (e0 = ej) as -> by congruence.
    pose proof (candidate_unique text ej _ _ Hc0 Hcj) as Hconf.
    pose proof (Hbefore i ei a Hij Hi Hci) as Hlt.
    rewrite Hconf, (attainable_irrefl a Ha) in Hlt; discriminate Hlt.
  - intros Hmax Hfirst.
    assert (j0 = i) as ->.
    { destruct (lt_eq_lt_dec j0 i) as [[Hlt|Heq]|Hgt]; [|exact Heq|].
      - pose proof (Hfirst j0 e0 _ Hlt Hj0 Hc0) as H1.
        rewrite (Hbest ei a (lookup_In _ _ _ Hi) Hci) in H1; discriminate H1.
      - pose proof (Hbefore i ei a Hgt Hi Hci) as H1.
        rewrite (Hmax e0 _ (lookup_In _ _ _ Hj0) Hc0) in H1; discriminate H1. }
    assert (e0 = ei) as -> by congruence.
    repeat split; [exact Hcat| |exact Hmk].
    exact (candidate_unique text ei _ _ Hc0 Hci).
Qed.

(** "Fren far": fren and elektrik both match once and tie; fren is returned. *)
Lemma first_best_category_wins_witness :
  exists r,
    interpretPartFromText toLowerCase_latin (utf16 "Fren far") JSUndefined = Normal r /\
    SuggestedPart.category r <> utf16 "elektrik".
Proof.
  destruct (proj2 (proj2 (first_best_category_wins toLowerCase_latin (utf16 "Fren far")
                            JSUndefined))
              0%nat 2%nat
              (nth 0 partMappings (utf16 "", Mapping.mk [] []))
              (nth 2 partMappings (utf16 "", Mapping.mk [] []))
              (0.9 * Math_min 0.95 (1 / 9 * 0.8 + 0.2))%float)
    as [r [Hr [Hne _]]].
  - lia.
  - reflexivity.
  - reflexivity.
  - split; [vm_compute; lia|vm_compute; reflexivity].
  - split; [vm_compute; lia|vm_compute; reflexivity].
  - exists r; split; [exact Hr|exact Hne].
Defined.

(** * Properties of the offer synthesizer *)

(** ** Running computations *)

Lemma bind_run {A B} (c : M A) (k : A -> M B) (w w1 : world) (a : A) :
  c w = (Normal a, w1) -> bind c k w = k a w1.
Proof. intros H; unfold bind; rewrite H; reflexivity. Qed.

Lemma bind_cases {A B} (c : M A) (k : A -> M B) (w : world) :
  bind c k w =
  match c w with
  | (Normal a, w1) => k a w1
  | (Throw e, w1) => (Throw e, w1)
  end.
Proof. reflexivity. Qed.

Lemma bind_inv {A B} (c : M A) (k : A -> M B) (w w' : world) (b : B) :
  bind c k w = (Normal b, w') ->
  exists a w1, c w = (Normal a, w1) /\ k a w1 = (Normal b, w').
Proof.
  unfold bind; destruct (c w) as [[a|e] w1]; intros H.
  - exists a, w1; split; [reflexivity|exact H].
  - discriminate H.
Qed.

Lemma later_refl (w : world) : later w w.
Proof. repeat split; exists 0%nat; reflexivity. Qed.

Lemma later_trans (w1 w2 w3 : world) : later w1 w2 -> later w2 w3 -> later w1 w3.
Proof.
  intros [Ha [Ho [Hc [n Hn]]]] [Ha' [Ho' [Hc' [n' Hn']]]].
  repeat split; try congruence.
  exists (n + n')%nat; intros i; rewrite Hn', Hn; f_equal; lia.
Qed.

Lemma later_valid (w w' : world) : later w w' -> valid_random w -> valid_random w'.
Proof. intros [_ [_ [_ [n Hn]]]] Hv i; rewrite Hn; apply Hv. Qed.

Lemma Math_random_run (w : world) :
  exists w', Math_random w = (Normal (random w 0%nat), w') /\ later w w'.
Proof.
  eexists; split; [reflexivity|].
  repeat split; exists 1%nat; reflexivity.
Qed.

(** ** Numbers *)

Lemma floor_bounds (x : Q) (a b : Z) :
  (inject_Z a <= x)%Q -> (x < inject_Z b)%Q -> (a <= Qfloor x < b)%Z.
Proof.
  intros Ha Hb; split.
  - rewrite <- (Qfloor_Z a); apply Qfloor_resp_le; exact Ha.
  - rewrite Zlt_Qlt; eapply Qle_lt_trans; [apply Qfloor_le|exact Hb].
Qed.

Lemma numSellers_range (r : Q) :
  (0 <= r)%Q -> (r < 1)%Q -> (2 <= Math_floor (r * 4) + 2 <= 5)%Z.
Proof.
  intros H0 H1.
  assert (0 <= Qfloor (r * 4) < 4)%Z; [|unfold Math_floor; lia].
  apply floor_bounds; unfold inject_Z; lra.
Qed.


(** ** binary64 rounding keeps the order *)

Section Binary64Facts.

#[local] Open Scope Q_scope.

Lemma two_neq_0 : ~ 2 == 0.
Proof. intros H; discriminate H. Qed.

Lemma pow2_pos (e : Z) : 0 < 2 ^ e.
Proof. apply Qpower_0_lt; reflexivity. Qed.

Lemma pow2_le (a b : Z) : (a <= b)%Z -> 2 ^ a <= 2 ^ b.
Proof. intros H; apply Qpower_le_compat_l; [exact H|discriminate]. Qed.

Lemma pow2_succ (a : Z) : 2 ^ (a + 1) == 2 * 2 ^ a.
Proof. rewrite (Qpower_plus 2 a 1 two_neq_0). rewrite Qmult_comm. reflexivity. Qed.

Lemma pow2_Z (n : Z) : (0 <= n)%Z -> inject_Z (2 ^ n) == 2 ^ n.
Proof. intros H; apply (Zpower_Qpower 2 n H). Qed.

(** [Qlog2 x] is the floor of the binary logarithm of [x]. *)
Lemma Qlog2_spec (x : Q) : 0 < x -> 2 ^ Qlog2 x <= x /\ x < 2 ^ (Qlog2 x + 1).
Proof.
  intros Hx; destruct x as [a b]; unfold Qlog2; cbn [Qnum Qden].
  assert (Ha : (0 < a)%Z).
  { unfold Qlt in Hx; cbn in Hx; lia. }
  set (la := Z.log2 a); set (lb := Z.log2 (Z.pos b)); set (l := (la - lb)%Z).
  destruct (Z.log2_spec a Ha) as [Ha1 Ha2]; fold la in Ha1, Ha2.
  destruct (Z.log2_spec (Z.pos b) eq_refl) as [Hb1 Hb2]; fold lb in Hb1, Hb2.
  assert (Hla : (0 <= la)%Z) by apply Z.log2_nonneg.
  assert (Hlb : (0 <= lb)%Z) by apply Z.log2_nonneg.
  assert (HA1 : 2 ^ la <= inject_Z a) by (rewrite <- pow2_Z by lia; rewrite <- Zle_Qle; exact Ha1).
  assert (HA2 : inject_Z a < 2 ^ (la + 1)) by (rewrite <- pow2_Z by lia; rewrite <- Zlt_Qlt; change (Z.succ la) with (la + 1)%Z in Ha2; exact Ha2).
  assert (HB1 : 2 ^ lb <= inject_Z (Z.pos b)) by (rewrite <- pow2_Z by lia; rewrite <- Zle_Qle; exact Hb1).
  assert (HB2 : inject_Z (Z.pos b) < 2 ^ (lb + 1)) by (rewrite <- pow2_Z by lia; rewrite <- Zlt_Qlt; exact Hb2).
  assert (Hx' : a # b == inject_Z a / inject_Z (Z.pos b)) by apply Qmake_Qdiv.
  assert (Hb0 : 0 < inject_Z (Z.pos b)) by reflexivity.
  (* x < 2^(l+1) and 2^(l-1) < x *)
  assert (Hup : a # b < 2 ^ (l + 1)).
  { rewrite Hx'; apply Qlt_shift_div_r; [exact Hb0|].
    eapply Qlt_le_trans; [exact HA2|].
    replace (la + 1)%Z with ((l + 1) + lb)%Z by (unfold l; lia).
    rewrite (Qpower_plus 2 (l + 1) lb two_neq_0).
    apply Qmult_le_l; [apply pow2_pos|exact HB1]. }
  assert (Hlow : 2 ^ (l - 1) <= a # b).
  { rewrite Hx'; apply Qle_shift_div_l; [exact Hb0|].
    eapply Qle_trans; [|exact HA1].
    assert (E : 2 ^ la == 2 ^ (l - 1) * 2 ^ (lb + 1)).
    { rewrite <- (Qpower_plus 2 (l - 1) (lb + 1) two_neq_0).
      replace (l - 1 + (lb + 1))%Z with la by (unfold l; lia); reflexivity. }
    rewrite E.
    apply Qmult_le_l; [apply pow2_pos|apply Qlt_le_weak; exact HB2]. }
  destruct (Qle_bool (2 ^ l) (a # b)) eqn:E.
  - apply Qle_bool_iff in E; split; assumption.
  - split; [exact Hlow|].
    replace (l - 1 + 1)%Z with l by lia.
    apply Qnot_le_lt; intros H; apply Qle_bool_iff in H; congruence.
Qed.

Lemma Qlog2_le (x y : Q) : 0 < x -> x <= y -> (Qlog2 x <= Qlog2 y)%Z.
Proof.
  intros Hx Hxy.
  destruct (Qlog2_spec x Hx) as [Hx1 _].
  destruct (Qlog2_spec y (Qlt_le_trans _ _ _ Hx Hxy)) as [_ Hy2].
  destruct (Z_le_gt_dec (Qlog2 x) (Qlog2 y)) as [H|H]; [exact H|exfalso].
  assert (2 ^ (Qlog2 y + 1) <= 2 ^ Qlog2 x) by (apply pow2_le; lia).
  lra.
Qed.

Lemma pow2_add (a b : Z) : 2 ^ (a + b) == 2 ^ a * 2 ^ b.
Proof. apply Qpower_plus, two_neq_0. Qed.

(** ** Rounding to the nearest integer *)

Lemma round_half_even_floor (x : Q) :
  (Qfloor x <= round_half_even x <= Qfloor x + 1)%Z.
Proof.
  unfold round_half_even.
  destruct (Qcompare _ _); [destruct (Z.even _)|..]; lia.
Qed.

Lemma round_half_even_Z (n : Z) : round_half_even (inject_Z n) = n.
Proof.
  unfold round_half_even; rewrite Qfloor_Z.
  destruct (Qcompare_spec (inject_Z n - inject_Z n) (1 # 2)) as [H|H|H];
    [exfalso; lra|reflexivity|exfalso; lra].
Qed.

Lemma round_half_even_le (x y : Q) :
  x <= y -> (round_half_even x <= round_half_even y)%Z.
Proof.
  intros Hxy.
  pose proof (Qfloor_resp_le x y Hxy) as Hfloor.
  pose proof (round_half_even_floor x) as Hx.
  pose proof (round_half_even_floor y) as Hy.
  destruct (Z.eq_dec (Qfloor x) (Qfloor y)) as [E|E]; [|lia].
  unfold round_half_even in *; rewrite <- E in *.
  destruct (Qcompare_spec (x - inject_Z (Qfloor x)) (1 # 2)) as [H1|H1|H1];
    destruct (Qcompare_spec (y - inject_Z (Qfloor x)) (1 # 2)) as [H2|H2|H2];
    try lia; try (exfalso; lra); destruct (Z.even (Qfloor x)); lia.
Qed.

Lemma round_half_even_ge (n : Z) (x : Q) : inject_Z n <= x -> (n <= round_half_even x)%Z.
Proof. intros H; rewrite <- (round_half_even_Z n); apply round_half_even_le, H. Qed.

Lemma round_half_even_le_Z (n : Z) (x : Q) : x <= inject_Z n -> (round_half_even x <= n)%Z.
Proof. intros H; rewrite <- (round_half_even_Z n); apply round_half_even_le, H. Qed.

(** ** The format around a number *)

Lemma scaled_le (x y : Q) (e : Z) : x <= y -> x / 2 ^ e <= y / 2 ^ e.
Proof.
  intros H; apply Qmult_le_compat_r; [exact H|].
  apply Qlt_le_weak, Qinv_lt_0_compat, pow2_pos.
Qed.

(** A number of magnitude [m] scaled by its own exponent is below 2^53, and
    is 2^52 at least unless the exponent is the least. *)
Lemma exponent_bounds (x : Q) :
  0 < Qabs x ->
  Qabs x / 2 ^ binary64_exponent x < inject_Z (2 ^ 53) /\
  ((-1074 < binary64_exponent x)%Z ->
   inject_Z (2 ^ 52) <= Qabs x / 2 ^ binary64_exponent x).
Proof.
  intros Hx; destruct (Qlog2_spec (Qabs x) Hx) as [Hlow Hup].
  unfold binary64_exponent; set (l := Qlog2 (Qabs x)) in *.
  set (e := Z.max (l - 52) (-1074)).
  split.
  - apply Qlt_shift_div_r; [apply pow2_pos|].
    eapply Qlt_le_trans; [exact Hup|].
    rewrite (pow2_Z 53) by lia; rewrite <- pow2_add; apply pow2_le; lia.
  - intros He; apply Qle_shift_div_l; [apply pow2_pos|].
    eapply Qle_trans; [|exact Hlow].
    rewrite (pow2_Z 52) by lia; rewrite <- pow2_add; apply pow2_le; lia.
Qed.

Lemma binary64_exponent_le (x y : Q) :
  0 < Qabs x -> Qabs x <= Qabs y -> (binary64_exponent x <= binary64_exponent y)%Z.
Proof.
  intros Hx Hxy; unfold binary64_exponent.
  pose proof (Qlog2_le _ _ Hx Hxy); lia.
Qed.

Lemma binary64_nonneg (x : Q) : 0 <= x -> 0 <= binary64 x.
Proof.
  intros Hx; unfold binary64.
  apply Qmult_le_0_compat; [|apply Qlt_le_weak, pow2_pos].
  change 0 with (inject_Z 0); rewrite <- Zle_Qle.
  apply round_half_even_ge; change (inject_Z 0) with 0.
  apply Qle_shift_div_l; [apply pow2_pos|lra].
Qed.

Lemma binary64_nonpos (x : Q) : x <= 0 -> binary64 x <= 0.
Proof.
  intros Hx; unfold binary64.
  assert (H : (round_half_even (x / 2 ^ binary64_exponent x) <= 0)%Z).
  { apply round_half_even_le_Z; change (inject_Z 0) with 0.
    apply Qle_shift_div_r; [apply pow2_pos|lra]. }
  rewrite Zle_Qle in H; change (inject_Z 0) with 0 in H.
  pose proof (pow2_pos (binary64_exponent x)).
  nra.
Qed.

(** Rounding to binary64 keeps the order. *)
Lemma binary64_le (x y : Q) : x <= y -> binary64 x <= binary64 y.
Proof.
  intros Hxy.
  destruct (Qlt_le_dec 0 x) as [Hx|Hx]; [|destruct (Qlt_le_dec y 0) as [Hy|Hy]].
  - (* both above zero *)
    assert (Hy : 0 < y) by lra.
    assert (Ax : Qabs x == x) by (apply Qabs_pos; lra).
    assert (Ay : Qabs y == y) by (apply Qabs_pos; lra).
    assert (Hax : 0 < Qabs x) by (rewrite Ax; exact Hx).
    assert (Hay : 0 < Qabs y) by (rewrite Ay; exact Hy).
    assert (He : (binary64_exponent x <= binary64_exponent y)%Z).
    { apply binary64_exponent_le; [exact Hax|rewrite Ax, Ay; exact Hxy]. }
    destruct (exponent_bounds x Hax) as [Hx53 _].
    destruct (exponent_bounds y Hay) as [_ Hy52].
    rewrite Ax in Hx53; rewrite Ay in Hy52.
    unfold binary64.
    set (ex := binary64_exponent x) in *; set (ey := binary64_exponent y) in *.
    destruct (Z.eq_dec ex ey) as [E|E].
    + rewrite <- E; apply Qmult_le_compat_r; [|apply Qlt_le_weak, pow2_pos].
      rewrite <- Zle_Qle; apply round_half_even_le, scaled_le, Hxy.
    + assert (H1 : (round_half_even (x / 2 ^ ex) <= 2 ^ 53)%Z).
      { apply round_half_even_le_Z, Qlt_le_weak, Hx53. }
      assert (H2 : (2 ^ 52 <= round_half_even (y / 2 ^ ey))%Z).
      { apply round_half_even_ge, Hy52; unfold binary64_exponent in *; lia. }
      rewrite Zle_Qle in H1, H2.
      assert (H3 : inject_Z (2 ^ 53) * 2 ^ ex <= inject_Z (2 ^ 52) * 2 ^ ey).
      { rewrite (pow2_Z 53), (pow2_Z 52) by lia; rewrite <- !pow2_add.
        apply pow2_le; lia. }
      pose proof (pow2_pos ex); pose proof (pow2_pos ey).
      eapply Qle_trans; [apply Qmult_le_compat_r; [exact H1|lra]|].
      eapply Qle_trans; [exact H3|].
      apply Qmult_le_compat_r; [exact H2|lra].
  - (* both below zero *)
    assert (Hx' : x < 0) by lra.
    assert (Ax : Qabs x == - x) by (apply Qabs_neg; lra).
    assert (Ay : Qabs y == - y) by (apply Qabs_neg; lra).
    assert (Hax : 0 < Qabs x) by (rewrite Ax; lra).
    assert (Hay : 0 < Qabs y) by (rewrite Ay; lra).
    assert (He : (binary64_exponent y <= binary64_exponent x)%Z).
    { apply binary64_exponent_le; [exact Hay|rewrite Ax, Ay; lra]. }
    destruct (exponent_bounds x Hax) as [_ Hx52].
    destruct (exponent_bounds y Hay) as [Hy53 _].
    unfold binary64.
    set (ex := binary64_exponent x) in *; set (ey := binary64_exponent y) in *.
    destruct (Z.eq_dec ex ey) as [E|E].
    + rewrite <- E; apply Qmult_le_compat_r; [|apply Qlt_le_weak, pow2_pos].
      rewrite <- Zle_Qle; apply round_half_even_le, scaled_le, Hxy.
    + assert (H1 : (round_half_even (x / 2 ^ ex) <= - 2 ^ 52)%Z).
      { apply round_half_even_le_Z.
        assert (Hx52' : inject_Z (2 ^ 52) <= Qabs x / 2 ^ ex).
        { apply Hx52; unfold binary64_exponent in *; lia. }
        rewrite Ax in Hx52'; rewrite inject_Z_opp.
        unfold Qdiv in *; lra. }
      assert (H2 : (- 2 ^ 53 <= round_half_even (y / 2 ^ ey))%Z).
      { apply round_half_even_ge.
        rewrite Ay in Hy53; rewrite inject_Z_opp.
        unfold Qdiv in *; lra. }
      rewrite Zle_Qle in H1, H2; rewrite inject_Z_opp in H1, H2.
      assert (H3 : inject_Z (2 ^ 53) * 2 ^ ey <= inject_Z (2 ^ 52) * 2 ^ ex).
      { rewrite (pow2_Z 53), (pow2_Z 52) by lia; rewrite <- !pow2_add.
        apply pow2_le; lia. }
      pose proof (pow2_pos ex); pose proof (pow2_pos ey).
      eapply Qle_trans; [apply Qmult_le_compat_r; [exact H1|lra]|].
      eapply Qle_trans; [|apply Qmult_le_compat_r; [exact H2|lra]].
      lra.
  - eapply Qle_trans; [apply binary64_nonpos, Hx|apply binary64_nonneg, Hy].
Qed.

End Binary64Facts.

(** ** The price *)

Lemma priceVariation_le (r r' : Q) :
  (r <= r')%Q -> (priceVariation r <= priceVariation r')%Q.
Proof.
  intros H; unfold priceVariation; apply binary64_le.
  apply Qmult_le_compat_r; [apply binary64_le; lra|].
  apply binary64_nonneg; discriminate.
Qed.

(** The product that [Math.round] is given grows with the draw. *)
Lemma price_product_le (b : Z) (r r' : Q) :
  (0 <= b)%Z -> (r <= r')%Q ->
  (binary64 (inject_Z b * binary64 (1 + priceVariation r))
   <= binary64 (inject_Z b * binary64 (1 + priceVariation r')))%Q.
Proof.
  intros Hb H; apply binary64_le.
  rewrite !(Qmult_comm (inject_Z b)); apply Qmult_le_compat_r.
  - apply binary64_le; pose proof (priceVariation_le r r' H); lra.
  - change 0%Q with (inject_Z 0); rewrite <- Zle_Qle; exact Hb.
Qed.

(** At the ends of the draws, for each base price of the rules: the
    product is 0.8 times the base price at least and 1.2 times at most. *)
Lemma price_product_ends :
  forallb (fun b =>
             Qle_bool ((4 # 5) * inject_Z b)
                      (binary64 (inject_Z b * binary64 (1 + priceVariation 0)))
             && Qle_bool (binary64 (inject_Z b * binary64 (1 + priceVariation 1)))
                         ((6 # 5) * inject_Z b))
          (100%Z :: map snd price_rules) = true.
Proof. vm_compute. reflexivity. Qed.

Lemma basePrice_is_a_rule (partId : jsstring) :
  In (basePrice_of partId) (100%Z :: map snd price_rules).
Proof.
  unfold basePrice_of; cbn [map snd price_rules].
  repeat match goal with
         | |- context [if ?b then _ else _] => destruct b
         end; cbn; tauto.
Qed.

(** On draws that are binary64 numbers the product is, to the bit, the one
    the primitive operations give: at both ends of the range, near them, at
    the draw 9/16 for which the exact product 102.5 would round up, and at
    others, for every base price. *)
Example price_product_is_binary64 :
  forallb (fun r =>
    forallb (fun b =>
      match number_value r, number_value (price_product_float (number_of_nat b) r) with
      | Some q, Some product =>
        Qeq_bool product
          (binary64 (inject_Z (Z.of_nat b) * binary64 (1 + priceVariation q)))
      | _, _ => false
      end) [100; 150; 200; 250; 300; 400; 600; 800]%nat)
    [0; 0x1p-1074; 1e-17; 0.1; 0.25; 0.3; 0.4999999999999999; 0.5; 0.5625; 0.7;
     0.75; 0.9; 0.9999999999999999]%float = true.
Proof. vm_compute. reflexivity. Qed.

Example price_at_9_16 : price_of 100 (9 # 16) = 102%Z.
Proof. vm_compute. reflexivity. Qed.

(** The product lies within a fifth of the base price. *)
Lemma price_factor (partId : jsstring) (r : Q) :
  (0 <= r)%Q -> (r < 1)%Q ->
  ((4 # 5) * inject_Z (basePrice_of partId)
   <= binary64 (inject_Z (basePrice_of partId) * binary64 (1 + priceVariation r)))%Q /\
  (binary64 (inject_Z (basePrice_of partId) * binary64 (1 + priceVariation r))
   <= (6 # 5) * inject_Z (basePrice_of partId))%Q /\
  (0 < basePrice_of partId)%Z.
Proof.
  intros H0 H1.
  pose proof (basePrice_is_a_rule partId) as Hin.
  pose proof price_product_ends as Hends.
  rewrite forallb_forall in Hends; specialize (Hends _ Hin).
  apply andb_true_iff in Hends; destruct Hends as [Hlow Hhigh].
  apply Qle_bool_iff in Hlow, Hhigh.
  assert (Hb : (0 < basePrice_of partId)%Z).
  { revert Hin; generalize (basePrice_of partId); intros b Hb.
    cbn in Hb; repeat destruct Hb as [Hb|Hb]; try subst b; try reflexivity; contradiction. }
  split; [|split; [|exact Hb]].
  - eapply Qle_trans; [exact Hlow|].
    apply price_product_le; [lia|exact H0].
  - eapply Qle_trans; [|exact Hhigh].
    apply price_product_le; [lia|lra].
Qed.

Lemma basePrice_first_rule (partId : jsstring) :
  basePrice_of partId = first_matching_rule price_rules partId.
Proof. reflexivity. Qed.

(** ** Sorting by price *)

Section SortByFacts.

Context {A : Type} (price : A -> Z).

Lemma insert_by_perm (x : A) (l : list A) : Permutation (insert_by price x l) (x :: l).
Proof.
  induction l as [|y l IH]; simpl.
  - reflexivity.
  - destruct (price x - price y <=? 0)%Z.
    + reflexivity.
    + rewrite IH; apply perm_swap.
Qed.

Lemma sort_by_perm (l : list A) : Permutation (sort_by price l) l.
Proof.
  induction l as [|x l IH]; simpl.
  - reflexivity.
  - rewrite insert_by_perm; apply perm_skip; exact IH.
Qed.

Lemma sort_by_length (l : list A) : length (sort_by price l) = length l.
Proof. apply Permutation_length, sort_by_perm. Qed.



End SortByFacts.

(** ** The loop that makes the offers *)

Lemma offer_from_later (w w' : world) (partId : jsstring) (sellers sellers' : list loc)
    (o : Offer.t) :
  objects w' = objects w -> (forall s, In s sellers' -> In s sellers) ->
  offer_from w' partId sellers' o -> offer_from w partId sellers o.
Proof.
  intros Ho Hin [r1 [r2 [s [seller [H1 [H2 [H3 [H4 [Hs [Hobj ->]]]]]]]]]].
  exists r1, r2, s, seller; rewrite <- Ho; repeat split; auto.
Qed.

Lemma make_offer_run (partId : jsstring) (sh : loc) (shuffled : list loc) (i : nat)
    (s : loc) (seller : Seller.t) (w : world) :
  arrays w !! sh = Some shuffled -> shuffled !! i = Some s ->
  objects w !! s = Some seller -> valid_random w ->
  exists o w',
    make_offer partId sh i w = (Normal o, w') /\ later w w' /\
    offer_from w partId shuffled o.
Proof.
  intros Harr Hi Hobj Hvalid.
  unfold make_offer, bind, Array_get; rewrite Harr, Hi.
  unfold Math_random, lift_rand, rand_random, read_seller; cbn [arrays objects random clock].
  rewrite Hobj; unfold ret.
  eexists; eexists; split; [reflexivity|]; split.
  - repeat split; exists 2%nat; reflexivity.
  - exists (random w 0%nat), (random w 1%nat), s, seller.
    destruct (Hvalid 0%nat), (Hvalid 1%nat).
    repeat split; auto.
    apply (lookup_In shuffled i s Hi).
Qed.

Lemma select_sellers_run (partId : jsstring) (sh : loc) (shuffled : list loc)
    (steps : nat) :
  forall (i : nat) (acc : list Offer.t) (w : world),
    arrays w !! sh = Some shuffled ->
    (forall s, In s shuffled -> exists o, objects w !! s = Some o) ->
    valid_random w -> (i + steps <= length shuffled)%nat ->
    exists offers w',
      select_sellers partId sh steps i acc w = (Normal (acc ++ offers), w') /\
      length offers = steps /\
      Forall (offer_from w partId shuffled) offers /\
      later w w'.
Proof.
  induction steps as [|steps IH]; intros i acc w Harr Hobj Hvalid Hlen; simpl.
  - exists [], w; rewrite app_nil_r.
    split; [reflexivity|]; split; [reflexivity|]; split; [constructor|apply later_refl].
  - destruct (lookup_lt_is_Some_2 shuffled i) as [s Hs]; [lia|].
    destruct (Hobj s (lookup_In shuffled i s Hs)) as [seller Hseller].
    destruct (make_offer_run partId sh shuffled i s seller w Harr Hs Hseller Hvalid)
      as [o [w1 [Hrun [Hlater Hoffer]]]].
    rewrite (bind_run _ _ w w1 o Hrun).
    pose proof Hlater as [Ha [Ho _]].
    destruct (IH (S i) (acc ++ [o]) w1) as [offers [w' [Hrun' [Hlen' [Hall Hlater']]]]].
    + rewrite Ha; exact Harr.
    + intros s' Hs'; rewrite Ho; exact (Hobj s' Hs').
    + apply (later_valid w w1 Hlater Hvalid).
    + lia.
    + exists (o :: offers), w'; rewrite Hrun', <- app_assoc; simpl.
      split; [reflexivity|]; split; [|split].
      * f_equal; exact Hlen'.
      * constructor; [exact Hoffer|].
        eapply List.Forall_impl; [|exact Hall].
        intros o'; apply offer_from_later; [exact Ho|auto].
      * apply (later_trans w w1 w' Hlater Hlater').
Qed.

Lemma random_order_advances (x y : loc) : advances (random_order x y).
Proof. intros g; exists 1%nat; reflexivity. Qed.

(** ** generateSellersForPart, characterised *)

Lemma generate_spec (engine : sort_engine) (partId : jsstring) (pool : loc)
    (sellers : list loc) (w : world) :
  engine_permutes engine -> valid_random w -> pool_of w pool sellers ->
  exists selected w',
    generateSellersForPart engine partId pool w
      = (Normal (sort_by Offer.price selected), w') /\
    length selected =
      Z.to_nat (Z.min (Math_floor (random w 0%nat * 4) + 2) (Z.of_nat (length sellers))) /\
    Forall (offer_from w partId sellers) selected.
Proof.
  intros Hengine Hvalid [Hpool Hobjects].
  unfold generateSellersForPart.
  destruct (Math_random_run w) as [w1 [Hrun1 Hlater1]].
  rewrite (bind_run _ _ w w1 _ Hrun1).
  pose proof (later_valid w w1 Hlater1 Hvalid) as Hvalid1.
  destruct Hlater1 as [Ha1 [Ho1 [Hc1 Hn1]]].
  (* the copy *)
  unfold bind at 1, spread; rewrite Ha1, Hpool.
  set (copy := fresh (dom (arrays w))).
  (* the shuffle *)
  unfold bind at 1, Array_sort; cbn [arrays objects random clock].
  rewrite lookup_insert_eq.
  destruct (Hengine loc random_order sellers random_order_advances) as [Hadv Hperm].
  specialize (Hperm (random w1)); destruct (Hadv (random w1)) as [n Hn].
  destruct (engine loc random_order sellers (random w1)) as [shuffled g].
  cbn [fst snd] in Hperm, Hn.
  rewrite insert_insert_eq.
  set (w3 := mkWorld (<[copy := shuffled]> (arrays w)) (objects w1) g (clock w1)).
  assert (Harr3 : arrays w3 !! copy = Some shuffled) by apply lookup_insert_eq.
  assert (Hvalid3 : valid_random w3).
  { intros i; cbn [w3 random]; rewrite Hn; apply Hvalid1. }
  (* the length *)
  unfold bind at 1, Array_length; rewrite Harr3.
  rewrite (Permutation_length Hperm).
  set (steps := Z.to_nat (Z.min _ _)).
  destruct (select_sellers_run partId copy shuffled steps 0 [] w3 Harr3) as
    [offers [w' [Hrun [Hlen [Hall Hlater]]]]].
  - intros s Hs; cbn [w3 objects]; rewrite Ho1.
    apply Hobjects, (Permutation_in s Hperm Hs).
  - exact Hvalid3.
  - rewrite (Permutation_length Hperm); unfold steps; lia.
  - rewrite (bind_run _ _ w3 w' _ Hrun); cbn [app].
    exists offers, w'; split; [reflexivity|]; split; [exact Hlen|].
    eapply List.Forall_impl; [|exact Hall].
    intros o; apply offer_from_later; [exact Ho1|].
    intros s Hs; exact (Permutation_in s Hperm Hs).
Qed.

(** ** What a call leaves of the store *)

Lemma keeps_ret {A} (a : A) : keeps_store (ret a).
Proof. intros w; split; reflexivity. Qed.

Lemma keeps_bind {A B} (c : M A) (k : A -> M B) :
  keeps_store c -> (forall a, keeps_store (k a)) -> keeps_store (bind c k).
Proof.
  intros Hc Hk w; unfold bind.
  specialize (Hc w); destruct (c w) as [[a|e] w1]; cbn [snd] in *.
  - destruct Hc as [Ha Ho]; destruct (Hk a w1) as [Ha' Ho'].
    split; congruence.
  - exact Hc.
Qed.

Lemma keeps_Math_random : keeps_store Math_random.
Proof. intros w; split; reflexivity. Qed.

Lemma keeps_Array_get (a : loc) (i : nat) : keeps_store (Array_get a i).
Proof. intros w; unfold Array_get; destruct (arrays w !! a); split; reflexivity. Qed.

Lemma keeps_Array_length (a : loc) : keeps_store (Array_length a).
Proof. intros w; unfold Array_length; destruct (arrays w !! a); split; reflexivity. Qed.

Lemma keeps_read_seller (seller : option loc) : keeps_store (read_seller seller).
Proof.
  intros w; unfold read_seller; destruct seller as [s|]; [|split; reflexivity].
  destruct (objects w !! s); split; reflexivity.
Qed.

Lemma keeps_make_offer (partId : jsstring) (sh : loc) (i : nat) :
  keeps_store (make_offer partId sh i).
Proof.
  unfold make_offer.
  apply keeps_bind; [apply keeps_Array_get|intros seller].
  apply keeps_bind; [apply keeps_Math_random|intros r1].
  apply keeps_bind; [apply keeps_Math_random|intros r2].
  apply keeps_bind; [apply keeps_read_seller|intros s].
  apply keeps_ret.
Qed.

Lemma keeps_select_sellers (partId : jsstring) (sh : loc) (steps : nat) :
  forall i acc, keeps_store (select_sellers partId sh steps i acc).
Proof.
  induction steps as [|steps IH]; intros i acc; simpl.
  - apply keeps_ret.
  - apply keeps_bind; [apply keeps_make_offer|intros o; apply IH].
Qed.

(** C10. A call of the offer synthesizer leaves the seller pool as it was:
    the array it is given holds the same references in the same order
    afterwards, every array of the store is unchanged (the shuffle sorts a
    fresh copy in place), and no seller object is changed. *)
Theorem pool_not_mutated (engine : sort_engine) (partId : jsstring) (pool : loc)
    (w : world) :
  let w' := snd (generateSellersForPart engine partId pool w) in
  arrays w' !! pool = arrays w !! pool /\
  arrays w ⊆ arrays w' /\
  objects w' = objects w.
Proof.
  cbv zeta; unfold generateSellersForPart.
  destruct (Math_random_run w) as [w1 [Hrun1 [Ha1 [Ho1 _]]]].
  rewrite (bind_run _ _ w w1 _ Hrun1), <- Ha1, <- Ho1.
  rewrite bind_cases; unfold spread.
  destruct (arrays w1 !! pool) as [elements|] eqn:Hpool; cbn [snd].
  2: { split; [exact Hpool|split; reflexivity]. }
  set (copy := fresh (dom (arrays w1))).
  assert (Hfresh : arrays w1 !! copy = None)
    by (apply not_elem_of_dom, is_fresh).
  assert (Hne : copy <> pool) by congruence.
  rewrite bind_cases; unfold Array_sort; cbn [arrays objects random clock].
  rewrite lookup_insert_eq.
  destruct (engine loc random_order elements (random w1)) as [shuffled g].
  rewrite insert_insert_eq.
  match goal with
  | |- context [bind ?c ?k ?w0] =>
    assert (Hkeep : keeps_store (bind c k)); [|destruct (Hkeep w0) as [Ha Ho]]
  end.
  { apply keeps_bind; [apply keeps_Array_length|intros len].
    apply keeps_bind; [apply keeps_select_sellers|intros selected].
    apply keeps_ret. }
  cbn [arrays objects] in Ha, Ho.
  rewrite Ha, Ho; split; [|split].
  - rewrite lookup_insert_ne by exact Hne; exact Hpool.
  - apply insert_subseteq; exact Hfresh.
  - reflexivity.
Qed.

(** ** The insertion-sort engine and the sample worlds *)

Lemma advances_ret {A} (a : A) : advances (rand_ret a).
Proof. intros g; exists 0%nat; reflexivity. Qed.

Lemma advances_bind {A B} (c : rand A) (k : A -> rand B) :
  advances c -> (forall a, advances (k a)) -> advances (rand_bind c k).
Proof.
  intros Hc Hk g; unfold rand_bind.
  destruct (Hc g) as [n Hn]; destruct (c g) as [a g1]; cbn [snd] in Hn.
  destruct (Hk a g1) as [m Hm].
  exists (n + m)%nat; intros i; rewrite Hm, Hn; f_equal; lia.
Qed.

Lemma insert_with_advances {A} (comparefn : A -> A -> rand Q) (x : A) (l : list A) :
  (forall x y, advances (comparefn x y)) -> advances (insert_with comparefn x l).
Proof.
  intros Hcmp; induction l as [|y l IH]; simpl.
  - apply advances_ret.
  - apply advances_bind; [apply Hcmp|intros c].
    destruct (Qle_bool c 0); [apply advances_ret|].
    apply advances_bind; [exact IH|intros r; apply advances_ret].
Qed.

Lemma insert_with_perm {A} (comparefn : A -> A -> rand Q) (x : A) (l : list A) :
  forall g, Permutation (fst (insert_with comparefn x l g)) (x :: l).
Proof.
  induction l as [|y l IH]; intros g; simpl.
  - reflexivity.
  - unfold rand_bind; destruct (comparefn x y g) as [c g1].
    destruct (Qle_bool c 0); simpl; [reflexivity|].
    specialize (IH g1); destruct (insert_with comparefn x l g1) as [r g2]; simpl in *.
    rewrite IH; apply perm_swap.
Qed.

Lemma insertion_engine_permutes : engine_permutes insertion_engine.
Proof.
  intros A comparefn l Hcmp; unfold insertion_engine; split.
  - induction l as [|x l IH]; simpl.
    + apply advances_ret.
    + apply advances_bind; [exact IH|intros s; apply insert_with_advances, Hcmp].
  - induction l as [|x l IH]; intros g; simpl.
    + reflexivity.
    + unfold rand_bind; specialize (IH g).
      destruct (insertion_sort_with comparefn l g) as [s g1]; simpl in IH.
      rewrite insert_with_perm; apply perm_skip; exact IH.
Qed.

Lemma sample_draws_valid (n : nat) : (0 <= sample_draws n)%Q /\ (sample_draws n < 1)%Q.
Proof.
  unfold sample_draws.
  do 9 (destruct n as [|n];
        [split; [unfold Qle, Z.le; intros H; vm_compute in H; discriminate H
                |vm_compute; reflexivity]|]).
  destruct n; split; (unfold Qle, Z.le; intros H; vm_compute in H; discriminate H)
                     || (vm_compute; reflexivity).
Qed.

Lemma sample_world_valid : valid_random sample_world.
Proof. exact sample_draws_valid. Qed.

Lemma sample_world_pool :
  pool_of sample_world 1%positive [10; 11; 12]%positive.
Proof.
  split; [reflexivity|].
  intros s [<-|[<-|[<-|[]]]]; eexists; reflexivity.
Qed.

Lemma empty_pool_world_pool : pool_of empty_pool_world 1%positive [].
Proof. split; [reflexivity|intros s []]. Qed.

(** Sorting the pool itself, without the copy, would reorder it. *)
Example sort_in_place_reorders :
  arrays (snd (Array_sort insertion_engine 1%positive random_order sample_world))
    !! 1%positive = Some [11; 10; 12]%positive.
Proof. vm_compute. reflexivity. Qed.

Example generate_for_empty_pool :
  fst (generateSellersForPart insertion_engine (utf16 "part-fren-001") 1%positive
         empty_pool_world) = Normal [].
Proof. vm_compute. reflexivity. Qed.

Example generate_prices :
  match fst (generateSellersForPart insertion_engine (utf16 "part-fren-001") 1%positive
               sample_world) with
  | Normal offers => map Offer.price offers = [300; 312; 330]%Z
  | Throw _ => False
  end.
Proof. vm_compute. reflexivity. Qed.

(** ** The claims on the offers *)

(** C4. For every part identifier and every seller pool, the synthesizer
    returns offers, never more than the pool holds, and their number lies
    between min(2, pool size) and min(5, pool size); for an empty pool it
    returns the empty list and does not throw. *)
Theorem offer_count (engine : sort_engine) (partId : jsstring) (pool : loc)
    (sellers : list loc) (w : world) :
  engine_permutes engine -> valid_random w -> pool_of w pool sellers ->
  exists offers w',
    generateSellersForPart engine partId pool w = (Normal offers, w') /\
    (length offers <= length sellers)%nat /\
    (Nat.min 2 (length sellers) <= length offers)%nat /\
    (length offers <= Nat.min 5 (length sellers))%nat /\
    (sellers = [] -> offers = []).
Proof.
  intros Hengine Hvalid Hpool.
  destruct (generate_spec engine partId pool sellers w Hengine Hvalid Hpool)
    as [selected [w' [Hrun [Hlen _]]]].
  exists (sort_by Offer.price selected), w'; split; [exact Hrun|].
  rewrite sort_by_length, Hlen.
  destruct (Hvalid 0%nat) as [H0 H1].
  pose proof (numSellers_range (random w 0%nat) H0 H1) as Hn.
  repeat split; try lia.
  intros ->; simpl in Hlen.
  assert (Hnil : selected = []) by (destruct selected; [reflexivity|simpl in Hlen; lia]).
  rewrite Hnil; reflexivity.
Qed.

Lemma offer_count_witness :
  exists offers w',
    generateSellersForPart insertion_engine (utf16 "part-fren-001") 1%positive sample_world
      = (Normal offers, w') /\
    (length offers <= 3)%nat /\ (2 <= length offers)%nat /\ (length offers <= 3)%nat /\
    ([10; 11; 12]%positive = [] -> offers = []).
Proof.
  exact (offer_count insertion_engine (utf16 "part-fren-001") 1%positive
           [10; 11; 12]%positive sample_world
           insertion_engine_permutes sample_world_valid sample_world_pool).
Defined.

(** C5. The base price of a part is given by the first rule, in the order
    motor 800, fren 300, elektrik 200, suspansiyon 400, klima 250, govde 600,
    ic-aksam 150, whose substring occurs in the part identifier, and is 100
    when none does; and the price of every synthesized offer is that base
    price times a factor of [0.8, 1.2], rounded to the nearest integer: the
    product the code computes in binary64 is the base price times such a
    factor. *)
Theorem offer_prices (engine : sort_engine) (partId : jsstring) (pool : loc)
    (sellers : list loc) (w : world) :
  engine_permutes engine -> valid_random w -> pool_of w pool sellers ->
  basePrice_of partId = first_matching_rule price_rules partId /\
  exists offers w',
    generateSellersForPart engine partId pool w = (Normal offers, w') /\
    Forall (fun o =>
              exists factor : Q,
                (4 # 5 <= factor)%Q /\ (factor <= 6 # 5)%Q /\
                Offer.price o =
                Math_round (inject_Z (first_matching_rule price_rules partId) * factor))
           offers.
Proof.
  intros Hengine Hvalid Hpool; split; [apply basePrice_first_rule|].
  destruct (generate_spec engine partId pool sellers w Hengine Hvalid Hpool)
    as [selected [w' [Hrun [_ Hall]]]].
  exists (sort_by Offer.price selected), w'; split; [exact Hrun|].
  eapply Permutation_Forall; [symmetry; apply sort_by_perm|].
  eapply List.Forall_impl; [|exact Hall].
  intros o [r1 [r2 [s [seller [H0 [H1 [_ [_ [_ [_ ->]]]]]]]]]].
  destruct (price_factor partId r1 H0 H1) as [Hlow [Hhigh Hbase]].
  cbn [Offer.price]; unfold price_of.
  change (first_matching_rule price_rules partId) with (basePrice_of partId).
  set (product := binary64 _) in *.
  assert (Hb : (0 < inject_Z (basePrice_of partId))%Q).
  { change 0%Q with (inject_Z 0); rewrite <- Zlt_Qlt; exact Hbase. }
  exists (product / inject_Z (basePrice_of partId))%Q.
  split; [apply Qle_shift_div_l; [exact Hb|exact Hlow]|].
  split; [apply Qle_shift_div_r; [exact Hb|exact Hhigh]|].
  unfold Math_round; apply Qfloor_comp.
  rewrite Qmult_div_r; [reflexivity|].
  intros E; rewrite E in Hb; discriminate Hb.
Qed.

Lemma offer_prices_witness :
  basePrice_of (utf16 "part-fren-001") =
    first_matching_rule price_rules (utf16 "part-fren-001") /\
  exists offers w',
    generateSellersForPart insertion_engine (utf16 "part-fren-001") 1%positive sample_world
      = (Normal offers, w') /\
    Forall (fun o =>
              exists factor : Q,
                (4 # 5 <= factor)%Q /\ (factor <= 6 # 5)%Q /\
                Offer.price o =
                Math_round (inject_Z (first_matching_rule price_rules
                                        (utf16 "part-fren-001")) * factor))
           offers.
Proof.
  exact (offer_prices insertion_engine (utf16 "part-fren-001") 1%positive
           [10; 11; 12]%positive sample_world
           insertion_engine_permutes sample_world_valid sample_world_pool).
Defined.

(** ** The buckets of the delivery time *)

Lemma Qle_bool_ext (r a b : Q) : (a == b)%Q -> Qle_bool r a = Qle_bool r b.
Proof.
  intros E; destruct (Qle_bool r b) eqn:Hb.
  - apply Qle_bool_iff; rewrite E; apply Qle_bool_iff; exact Hb.
  - destruct (Qle_bool r a) eqn:Ha; [|reflexivity].
    apply Qle_bool_iff in Ha; rewrite E in Ha; apply Qle_bool_iff in Ha; congruence.
Qed.

Lemma delivery_walk_label (r : Q) :
  delivery_walk r 0 0 delivery_weights = delivery_label r.
Proof.
  unfold delivery_weights, delivery_label; cbn [delivery_walk].
  rewrite (Qle_bool_ext r (0 + (3 # 10)) (3 # 10)) by reflexivity.
  rewrite (Qle_bool_ext r (0 + (3 # 10) + (3 # 10)) (3 # 5)) by reflexivity.
  rewrite (Qle_bool_ext r (0 + (3 # 10) + (3 # 10) + (1 # 4)) (17 # 20)) by reflexivity.
  rewrite (Qle_bool_ext r (0 + (3 # 10) + (3 # 10) + (1 # 4) + (1 # 10)) (19 # 20))
    by reflexivity.
  rewrite (Qle_bool_ext r (0 + (3 # 10) + (3 # 10) + (1 # 4) + (1 # 10) + (1 # 20)) 1)
    by reflexivity.
  reflexivity.
Qed.

Lemma delivery_label_option (r : Q) : In (delivery_label r) delivery_options.
Proof.
  unfold delivery_label, delivery_options.
  repeat match goal with |- context [Qle_bool r ?q] => destruct (Qle_bool r q) end;
    simpl; tauto.
Qed.

(** ** The listing *)

Lemma ret_inv {A} (a b : A) (w w' : world) : ret a w = (Normal b, w') -> a = b.
Proof. unfold ret; intros H; injection H as -> _; reflexivity. Qed.




(** *** mockSellers[partId] *)

Lemma lookup_sellers_Offers (Object_prototype : jsstring -> option jsvalue)
    (mockSellers : mockData) (partId : jsstring) (offers : list Offer.t) :
  lookup_sellers Object_prototype mockSellers partId = Offers offers ->
  predefined mockSellers !! partId = Some offers.
Proof.
  unfold lookup_sellers.
  destruct (predefined mockSellers !! partId) as [l|];
    [intros H; injection H as ->; reflexivity|].
  destruct (bool_decide _), (global_sellers mockSellers), (Object_prototype partId);
    discriminate.
Qed.

Lemma lookup_sellers_Pool (Object_prototype : jsstring -> option jsvalue)
    (mockSellers : mockData) (partId : jsstring) (pool : loc) :
  lookup_sellers Object_prototype mockSellers partId = Pool pool ->
  partId = utf16 "global_sellers" /\ predefined mockSellers !! partId = None /\
  global_sellers mockSellers = Some pool.
Proof.
  unfold lookup_sellers.
  destruct (predefined mockSellers !! partId) as [l|]; [discriminate|].
  destruct (bool_decide (partId = utf16 "global_sellers")) eqn:E;
    destruct (global_sellers mockSellers) as [p|];
    destruct (Object_prototype partId); try discriminate.
  all: intros H; injection H as ->; apply bool_decide_eq_true in E; auto.
Qed.

Lemma lookup_sellers_Inherited (Object_prototype : jsstring -> option jsvalue)
    (mockSellers : mockData) (partId : jsstring) (length : jsvalue) :
  lookup_sellers Object_prototype mockSellers partId = InheritedMember length ->
  predefined mockSellers !! partId = None /\ Object_prototype partId = Some length.
Proof.
  unfold lookup_sellers.
  destruct (predefined mockSellers !! partId) as [l|]; [discriminate|].
  destruct (bool_decide (partId = utf16 "global_sellers"));
    destruct (global_sellers mockSellers) as [p|];
    destruct (Object_prototype partId); try discriminate.
  all: intros H; injection H as ->; auto.
Qed.

Lemma lookup_sellers_Undefined (Object_prototype : jsstring -> option jsvalue)
    (mockSellers : mockData) (partId : jsstring) :
  lookup_sellers Object_prototype mockSellers partId = Undefined ->
  predefined mockSellers !! partId = None /\ Object_prototype partId = None /\
  (partId = utf16 "global_sellers" -> global_sellers mockSellers = None).
Proof.
  unfold lookup_sellers.
  destruct (predefined mockSellers !! partId) as [l|]; [discriminate|].
  destruct (bool_decide (partId = utf16 "global_sellers")) eqn:E;
    destruct (global_sellers mockSellers) as [p|];
    destruct (Object_prototype partId); try discriminate; intros _;
    repeat split; try reflexivity.
  intros C; apply bool_decide_eq_false in E; contradiction.
Qed.

(** *** What an answered listing went through *)

(** The steps of [getSellersForPart] up to the value of [sellers] that is
    listed. *)
Lemma listing_found (engine : sort_engine)
    (Object_prototype : jsstring -> option jsvalue) (mockSellers : mockData)
    (partId : jsstring) (w w1 : world) (found : sellers_value) :
  match lookup_sellers Object_prototype mockSellers partId,
        global_sellers mockSellers with
  | Undefined, Some pool =>
    let* generated := generateSellersForPart engine partId pool in
    ret (Offers generated)
  | _, _ => ret (lookup_sellers Object_prototype mockSellers partId)
  end w = (Normal found, w1) ->
  (lookup_sellers Object_prototype mockSellers partId = found /\ w1 = w /\
   (found = Undefined -> global_sellers mockSellers = None)) \/
  (lookup_sellers Object_prototype mockSellers partId = Undefined /\
   exists pool offers,
     global_sellers mockSellers = Some pool /\ found = Offers offers /\
     generateSellersForPart engine partId pool w = (Normal offers, w1)).
Proof.
  destruct (lookup_sellers Object_prototype mockSellers partId) as [l|p|len|] eqn:Hl;
    intros H.
  - unfold ret in H; injection H as <- <-; left; repeat split; discriminate.
  - unfold ret in H; injection H as <- <-; left; repeat split; discriminate.
  - unfold ret in H; injection H as <- <-; left; repeat split; discriminate.
  - destruct (global_sellers mockSellers) as [pool|].
    + right; split; [reflexivity|].
      apply bind_inv in H; destruct H as [generated [w2 [Hgen H]]].
      unfold ret in H; injection H as <- <-.
      exists pool, generated; auto.
    + unfold ret in H; injection H as <- <-; left; repeat split.
Qed.

Lemma listing_inv (engine : sort_engine)
    (Object_prototype : jsstring -> option jsvalue) (mockSellers : mockData)
    (partId : jsstring) (w w' : world)
    (partId' : jsstring) (sellers : list Enriched.t) (count : nat)
    (range : priceRange) (timestamp : jsstring) :
  getSellersForPart engine Object_prototype mockSellers partId w
    = (Normal (Success partId' sellers count range timestamp), w') ->
  exists offers enriched w1 w2 w3,
    offers <> [] /\
    (predefined mockSellers !! partId = Some offers \/
     (lookup_sellers Object_prototype mockSellers partId = Undefined /\
      exists pool, global_sellers mockSellers = Some pool /\
                   generateSellersForPart engine partId pool w1 = (Normal offers, w2))) /\
    Array_map (add_metadata partId) offers w2 = (Normal enriched, w3) /\
    partId' = partId /\
    sellers = sort_by Enriched.price enriched /\
    count = length sellers /\
    range = price_range (map Enriched.price sellers).
Proof.
  unfold getSellersForPart, try_catch; intros H.
  match type of H with
  | match ?body w with _ => _ end = _ => destruct (body w) as [[r|e] w0] eqn:Hbody
  end; [|discriminate H].
  injection H as -> ->.
  apply bind_inv in Hbody; destruct Hbody as [[] [w1 [_ H]]].
  destruct partId as [|c partId]; [apply ret_inv in H; discriminate H|].
  cbv zeta in H.
  apply bind_inv in H; destruct H as [found [w2 [Hfound H]]].
  destruct found as [[|seller rest]|pool|len|].
  - apply ret_inv in H; discriminate H.
  - apply bind_inv in H; destruct H as [enriched [w3 [Hmap H]]].
    apply bind_inv in H; destruct H as [ts [w4 [_ H]]].
    apply ret_inv in H; injection H as <- <- <- <- _.
    exists (seller :: rest), enriched, w1, w2, w3.
    split; [discriminate|]; split; [|repeat split; exact Hmap].
    destruct (listing_found _ _ _ _ _ _ _ Hfound)
      as [[Hl _]|[Hl [pool [offers [Hpool [E Hgen]]]]]].
    + left; apply (lookup_sellers_Offers _ _ _ _ Hl).
    + right; split; [exact Hl|]; exists pool; split; [exact Hpool|].
      injection E as ->; exact Hgen.
  - apply bind_inv in H; destruct H as [elements [w3 [_ H]]].
    destruct elements; [apply ret_inv in H; discriminate H|].
    apply bind_inv in H; destruct H as [enriched [w4 [_ H]]].
    apply bind_inv in H; destruct H as [ts [w5 [_ H]]].
    apply ret_inv in H; discriminate H.
  - destruct (strict_equals_zero len); [apply ret_inv in H|]; discriminate H.
  - apply ret_inv in H; discriminate H.
Qed.

Lemma add_metadata_profile_run (partId : jsstring) (seller : loc) (w : world) :
  add_metadata_profile partId seller w =
  (Normal (EnrichedProfile.mk (objects w !! seller)
             (delivery_walk (random w 0%nat) 0 0 delivery_weights)
             (generateWarranty partId)
             (map utf16 ["Nakit"; "Kredi Kartı"; "Havale"]%string)
             (clock w 0%nat)),
   mkWorld (arrays w) (objects w) (fun i => random w (S i)) (fun n => clock w (S n))).
Proof. reflexivity. Qed.

(** The profiles listed are the elements of the array, in its order. *)
Lemma Array_map_add_metadata_profile (partId : jsstring) (elements : list loc) :
  forall w, exists enriched w',
    Array_map (add_metadata_profile partId) elements w = (Normal enriched, w') /\
    same_store w w' /\
    map EnrichedProfile.seller enriched = map (fun s => objects w !! s) elements /\
    Forall (fun e =>
              In (EnrichedProfile.deliveryTime e) delivery_options /\
              EnrichedProfile.warranty e = generateWarranty partId /\
              EnrichedProfile.paymentMethods e
                = map utf16 ["Nakit"; "Kredi Kartı"; "Havale"]%string) enriched.
Proof.
  induction elements as [|s elements IH]; intros w.
  - exists [], w; repeat split; constructor.
  - cbn [Array_map].
    rewrite (bind_run _ _ _ _ _ (add_metadata_profile_run partId s w)).
    destruct (IH (mkWorld (arrays w) (objects w) (fun i => random w (S i))
                          (fun n => clock w (S n))))
      as [enriched [w' [Hrun [[Ha Ho] [Hmap Hall]]]]].
    rewrite (bind_run _ _ _ _ _ Hrun).
    eexists; eexists; split; [reflexivity|].
    split; [split; [exact Ha|exact Ho]|]; split.
    + cbn [map EnrichedProfile.seller]; f_equal; exact Hmap.
    + constructor; [|exact Hall].
      cbn [EnrichedProfile.deliveryTime EnrichedProfile.warranty
           EnrichedProfile.paymentMethods].
      rewrite delivery_walk_label.
      split; [apply delivery_label_option|split; reflexivity].
Qed.

(** The listing of the name "global_sellers": the value looked up is the
    pool itself. *)
Lemma listing_pool_inv (engine : sort_engine)
    (Object_prototype : jsstring -> option jsvalue) (mockSellers : mockData)
    (partId : jsstring) (w w' : world)
    (partId' : jsstring) (sellers : list EnrichedProfile.t) (count : nat)
    (timestamp : jsstring) :
  getSellersForPart engine Object_prototype mockSellers partId w
    = (Normal (Success_unpriced partId' sellers count timestamp), w') ->
  exists pool elements,
    partId = utf16 "global_sellers" /\ predefined mockSellers !! partId = None /\
    global_sellers mockSellers = Some pool /\
    arrays w !! pool = Some elements /\ elements <> [] /\
    map EnrichedProfile.seller sellers = map (fun s => objects w !! s) elements /\
    Forall (fun e =>
              In (EnrichedProfile.deliveryTime e) delivery_options /\
              EnrichedProfile.warranty e = generateWarranty partId /\
              EnrichedProfile.paymentMethods e
                = map utf16 ["Nakit"; "Kredi Kartı"; "Havale"]%string) sellers /\
    partId' = partId /\ count = length sellers.
Proof.
  unfold getSellersForPart, try_catch; intros H.
  match type of H with
  | match ?body w with _ => _ end = _ => destruct (body w) as [[r|e] w0] eqn:Hbody
  end; [|discriminate H].
  injection H as -> ->.
  apply bind_inv in Hbody; destruct Hbody as [[] [w1 [Hdelay H]]].
  assert (Hstore : same_store w w1).
  { unfold simulateDelay in Hdelay.
    apply bind_inv in Hdelay; destruct Hdelay as [r [w2 [Hr Hdelay]]].
    unfold ret in Hdelay; injection Hdelay as ->.
    destruct (Math_random_run w) as [w3 [Hrun [Ha [Ho _]]]].
    rewrite Hrun in Hr; injection Hr as _ ->; split; assumption. }
  destruct partId as [|c partId]; [apply ret_inv in H; discriminate H|].
  cbv zeta in H.
  apply bind_inv in H; destruct H as [found [w2 [Hfound H]]].
  destruct found as [[|seller rest]|pool|len|].
  - apply ret_inv in H; discriminate H.
  - apply bind_inv in H; destruct H as [enriched [w3 [Hmap H]]].
    apply bind_inv in H; destruct H as [ts [w4 [_ H]]].
    apply ret_inv in H; discriminate H.
  - destruct (listing_found _ _ _ _ _ _ _ Hfound)
      as [[Hl [Hw _]]|[_ [p [offers [_ [E _]]]]]]; [|discriminate E].
    subst w2.
    destruct (lookup_sellers_Pool _ _ _ _ Hl) as [Hname [Hpre Hpool]].
    apply bind_inv in H; destruct H as [elements [w3 [Helements H]]].
    unfold Array_elements in Helements.
    destruct (arrays w1 !! pool) as [l|] eqn:Harr; [|discriminate Helements].
    injection Helements as -> <-.
    destruct elements as [|s elements]; [apply ret_inv in H; discriminate H|].
    apply bind_inv in H; destruct H as [enriched [w4 [Hmap H]]].
    apply bind_inv in H; destruct H as [ts [w5 [_ H]]].
    apply ret_inv in H; injection H as <- <- <- _.
    destruct (Array_map_add_metadata_profile (c :: partId) (s :: elements) w1)
      as [enriched' [w4' [Hrun [_ [Hprofiles Hall]]]]].
    rewrite Hrun in Hmap; injection Hmap as -> ->.
    destruct Hstore as [Ha Ho].
    exists pool, (s :: elements).
    rewrite <- Ha, <- Ho.
    repeat split; try assumption; discriminate.
  - destruct (strict_equals_zero len); [apply ret_inv in H|]; discriminate H.
  - apply ret_inv in H; discriminate H.
Qed.



(** A listing that is answered, on the sample world. *)
Example listing_sample :
  match fst (getSellersForPart insertion_engine sample_prototype
               (mkMockData ∅ (Some 1%positive))
               (utf16 "part-motor-016") sample_world) with
  | Normal (Success _ sellers count range _) =>
    map Enriched.price sellers = [640; 672]%Z /\ count = 2%nat /\
    range = mkPriceRange 640 672 656
  | _ => False
  end.
Proof. vm_compute. repeat split. Qed.

(** The listing of "global_sellers" on the sample world: the three profiles
    of the pool, in its order. *)
Example listing_sample_pool :
  match fst (getSellersForPart insertion_engine sample_prototype
               (mkMockData ∅ (Some 1%positive))
               (utf16 "global_sellers") sample_world) with
  | Normal (Success_unpriced _ sellers count _) =>
    map EnrichedProfile.seller sellers = [Some seller_a; Some seller_b; Some seller_c] /\
    count = 3%nat
  | _ => False
  end.
Proof. vm_compute. repeat split. Qed.

(** A name of [Object.prototype] on the sample world: "constructor" is
    answered 500, "toString", whose [length] is 0, is answered 404. *)
Example listing_sample_inherited :
  fst (getSellersForPart insertion_engine sample_prototype
         (mkMockData ∅ (Some 1%positive)) (utf16 "constructor") sample_world)
    = Normal Status500 /\
  fst (getSellersForPart insertion_engine sample_prototype
         (mkMockData ∅ (Some 1%positive)) (utf16 "toString") sample_world)
    = Normal Status404.
Proof. vm_compute. split; reflexivity. Qed.

(** * Properties of the rest of the code *)

(** ** Regular expressions: the test decides the language *)

Lemma nullable_lang (r : regex) : nullable r = true <-> lang r [].
Proof.
  split.
  - induction r as [| |p|a IHa b IHb|a IHa b IHb|a IHa]; simpl; intros H;
      try discriminate H.
    + constructor.
    + apply andb_true_iff in H; destruct H as [Ha Hb].
      apply (lang_seq a b [] []); auto.
    + apply orb_true_iff in H; destruct H as [H|H];
        [apply lang_alt_l|apply lang_alt_r]; auto.
    + constructor.
  - remember [] as s eqn:Hs; intros H.
    induction H as [|p c Hp|a b s t Ha IHa Hb IHb|a b s Ha IHa|a b s Hb IHb|a
                    |a s t Ha IHa Ht IHt]; simpl; try reflexivity; try discriminate Hs.
    + apply app_eq_nil in Hs; destruct Hs as [-> ->].
      rewrite IHa, IHb; reflexivity.
    + rewrite IHa by exact Hs; reflexivity.
    + rewrite IHb by exact Hs; apply orb_true_r.
Qed.

Lemma lang_star_cons (a : regex) (c : codeunit) (s : jsstring) :
  lang (Star a) (c :: s) ->
  exists s1 s2, s = s1 ++ s2 /\ lang a (c :: s1) /\ lang (Star a) s2.
Proof.
  remember (Star a) as r eqn:Hr; remember (c :: s) as w eqn:Hw; intros H.
  revert s Hw; induction H as [|p c' Hp|a' b s' t Ha IHa Hb IHb|a' b s' Ha IHa
                              |a' b s' Hb IHb|a'|a' s' t Ha IHa Ht IHt];
    intros s0 Hw; try discriminate Hr; try discriminate Hw.
  injection Hr as ->.
  destruct s' as [|c' s'].
  - apply IHt; [reflexivity|exact Hw].
  - simpl in Hw; injection Hw as -> <-.
    exists s', t; auto.
Qed.

Lemma derivative_lang (c : codeunit) (r : regex) :
  forall s, lang (derivative c r) s <-> lang r (c :: s).
Proof.
  induction r as [| |p|a IHa b IHb|a IHa b IHb|a IHa]; intros s; simpl.
  - split; intros H; inversion H.
  - split; intros H; inversion H.
  - destruct (p c) eqn:Hp; split; intros H; inversion H; subst.
    + constructor; exact Hp.
    + constructor.
    + congruence.
  - assert (Hseq : lang (Seq (derivative c a) b) s ->
                   lang (Seq a b) (c :: s)).
    { intros H; inversion H as [| |a0 b0 s1 s2 H1 H2| | | |]; subst.
      apply IHa in H1; apply (lang_seq a b (c :: s1) s2 H1 H2). }
    assert (Hinv : lang (Seq a b) (c :: s) ->
                   lang (Seq (derivative c a) b) s \/
                   (nullable a = true /\ lang (derivative c b) s)).
    { intros H; inversion H as [| |a0 b0 s1 s2 H1 H2 [E1 E2] E| | | |]; subst.
      destruct s1 as [|c' s1]; simpl in E.
      - right; split; [apply nullable_lang; exact H1|].
        subst s2; apply IHb; exact H2.
      - injection E as -> <-; left.
        apply lang_seq; [apply IHa; exact H1|exact H2]. }
    destruct (nullable a) eqn:Hn; split; intros H.
    + inversion H; subst; [auto|].
      apply (lang_seq a b [] (c :: s)); [apply nullable_lang; exact Hn|].
      apply IHb; assumption.
    + destruct (Hinv H) as [H1|[_ H1]]; [apply lang_alt_l|apply lang_alt_r]; exact H1.
    + auto.
    + destruct (Hinv H) as [H1|[H1 _]]; [exact H1|discriminate H1].
  - split; intros H; inversion H; subst.
    + apply lang_alt_l, IHa; assumption.
    + apply lang_alt_r, IHb; assumption.
    + apply lang_alt_l, IHa; assumption.
    + apply lang_alt_r, IHb; assumption.
  - split; intros H.
    + inversion H as [| |a0 b0 s1 s2 H1 H2| | | |]; subst.
      apply IHa in H1; apply (lang_star_app a (c :: s1) s2 H1 H2).
    + destruct (lang_star_cons a c s H) as [s1 [s2 [-> [H1 H2]]]].
      apply lang_seq; [apply IHa; exact H1|exact H2].
Qed.

Lemma RegExp_test_lang (r : regex) (s : jsstring) :
  RegExp_test r s = true <-> lang r s.
Proof.
  unfold RegExp_test; revert r; induction s as [|c s IH]; intros r; simpl.
  - apply nullable_lang.
  - rewrite IH; apply derivative_lang.
Qed.

Lemma lang_times_class (p : codeunit -> bool) (n : nat) (s : jsstring) :
  lang (times n (Class p)) s <-> length s = n /\ Forall (fun c => p c = true) s.
Proof.
  revert s; induction n as [|n IH]; intros s; simpl.
  - split.
    + intros H; inversion H; subst; split; [reflexivity|constructor].
    + intros [Hlen _]; destruct s; [constructor|discriminate Hlen].
  - split.
    + intros H; inversion H as [| |a b s1 s2 H1 H2| | | |]; subst.
      inversion H1; subst; apply IH in H2; destruct H2 as [Hlen Hall].
      simpl; split; [f_equal; exact Hlen|constructor; assumption].
    + intros [Hlen Hall]; destruct s as [|c s]; [discriminate Hlen|].
      inversion Hall; subst.
      apply (lang_seq (Class p) _ [c] s); [constructor; assumption|].
      apply IH; split; [simpl in Hlen; lia|assumption].
Qed.

Lemma vin_class_character (c : codeunit) :
  in_ranges vin_ranges (Canonicalize c) = true <-> vin_character c.
Proof.
  unfold in_ranges, vin_ranges, vin_character, Canonicalize, existsb; cbn [fst snd].
  destruct ((97 <=? c) && (c <=? 122))%N eqn:Hlower.
  - apply andb_true_iff in Hlower; destruct Hlower as [H1 H2].
    apply N.leb_le in H1, H2.
    rewrite !orb_true_iff, !andb_true_iff, !N.leb_le; lia.
  - apply andb_false_iff in Hlower; rewrite !N.leb_gt in Hlower.
    rewrite !orb_true_iff, !andb_true_iff, !N.leb_le; lia.
Qed.

(** X1. [isValidVIN] accepts exactly the strings of 17 code units each of
    which is a digit or a Latin letter other than I, O and Q, in upper or
    lower case; it rejects every value that is not a string. *)
Theorem isValidVIN_characterised (vin : jsvalue) :
  isValidVIN vin = true <->
  exists s, vin = JSString s /\ length s = 17%nat /\ Forall vin_character s.
Proof.
  assert (Hs : forall s, RegExp_test vinRegex s = true <->
                         length s = 17%nat /\ Forall vin_character s).
  { intros s; rewrite RegExp_test_lang; unfold vinRegex; rewrite lang_times_class.
    split; intros [Hlen Hall]; (split; [exact Hlen|]);
      (eapply List.Forall_impl; [|exact Hall]); intros c; apply vin_class_character. }
  split.
  - destruct vin as [| | | |[|c s]]; simpl; try discriminate.
    intros H; exists (c :: s); split; [reflexivity|apply Hs; exact H].
  - intros [s [-> [Hlen Hall]]].
    destruct s as [|c s]; [discriminate Hlen|].
    simpl; apply Hs; split; assumption.
Qed.

Example sample_vin_valid :
  isValidVIN (JSString (utf16 "wdb2020201f685790")) = true /\
  isValidVIN (JSString (utf16 "WDB2020201F68579O")) = false.
Proof. split; vm_compute; reflexivity. Qed.

(** ** interpretPartFromDescription *)

Lemma try_catch_with_inv {R} (on_error : R) (body : M R) (w w' : world) (r : R) :
  try_catch_with on_error body w = (Normal r, w') ->
  body w = (Normal r, w') \/ (r = on_error /\ exists e, body w = (Throw e, w')).
Proof.
  unfold try_catch_with; destruct (body w) as [[r0|e] w0]; intros H;
    injection H as <- <-.
  - left; reflexivity.
  - right; split; [reflexivity|exists e; reflexivity].
Qed.

Lemma find_In {A} (f : A -> bool) (l : list A) (x : A) :
  find f l = Some x -> In x l /\ f x = true.
Proof. apply find_some. Qed.

(** What a successful interpretation went through. *)
Lemma interpretation_inv (toLowerCase : jsstring -> jsstring)
    (mockVehicles : list Vehicle.t) (vin description : jsvalue)
    (w w' : world) (data : Interpretation.t) :
  interpretPartFromDescription toLowerCase mockVehicles vin description w
    = (Normal (Interpret200 data), w') ->
  exists d vehicle suggestedPart timestamp,
    description = JSString d /\
    isValidVIN vin = true /\
    (5 <= length (trim d))%nat /\
    find_vehicle mockVehicles vin = Some vehicle /\
    interpretPartFromText toLowerCase d vin = Normal suggestedPart /\
    data =
    Interpretation.mk
      (Vehicle.vin vehicle) (Vehicle.make vehicle) (Vehicle.model vehicle)
      (Vehicle.year vehicle)
      (SuggestedPart.name suggestedPart) (SuggestedPart.id suggestedPart)
      (Math_round_number (SuggestedPart.confidence suggestedPart * 100) / 100)%float
      d (toLowerCase d)
      match SuggestedPart.matchedKeywords suggestedPart with O => O | S n => S n end
      match SuggestedPart.category suggestedPart with
      | [] => utf16 "unknown"
      | c :: cs => c :: cs
      end
      (getConfidenceLevel (SuggestedPart.confidence suggestedPart))
      (generateRecommendations suggestedPart) timestamp.
Proof.
  unfold interpretPartFromDescription; intros H.
  apply try_catch_with_inv in H; destruct H as [H|[H _]]; [|discriminate H].
  apply bind_inv in H; destruct H as [[] [w1 [_ H]]].
  destruct (negb (ToBoolean vin) || negb (ToBoolean description));
    [apply ret_inv in H; discriminate H|].
  destruct (isValidVIN vin) eqn:Hvin; cbn [negb] in H;
    [|apply ret_inv in H; discriminate H].
  destruct description as [| | | |d]; try discriminate H.
  destruct (length (trim d) <? 5)%nat eqn:Hlen;
    [apply ret_inv in H; discriminate H|].
  apply Nat.ltb_ge in Hlen.
  destruct (find_vehicle mockVehicles vin) as [vehicle|] eqn:Hfind;
    [|apply ret_inv in H; discriminate H].
  apply bind_inv in H; destruct H as [suggestedPart [w2 [Hsp H]]].
  unfold lift_completion in Hsp; injection Hsp as Hsp _.
  apply bind_inv in H; destruct H as [timestamp [w3 [_ H]]].
  apply ret_inv in H; injection H as <-.
  exists d, vehicle, suggestedPart, timestamp.
  repeat split; assumption.
Qed.

(** X2. An interpretation is answered with success only for a request whose
    [vin] is a valid VIN, whose description is a string of at least five
    code units once trimmed, and whose vehicle is known: the vehicle
    reported is an entry of the data with that VIN, and the part reported is
    the one the classifier suggests for the description. *)
Theorem interpretation_guard (toLowerCase : jsstring -> jsstring)
    (mockVehicles : list Vehicle.t) (vin description : jsvalue)
    (w w' : world) (data : Interpretation.t) :
  interpretPartFromDescription toLowerCase mockVehicles vin description w
    = (Normal (Interpret200 data), w') ->
  exists v d vehicle suggestedPart,
    vin = JSString v /\ description = JSString d /\
    isValidVIN vin = true /\ (5 <= length (trim d))%nat /\
    In vehicle mockVehicles /\ Vehicle.vin vehicle = v /\
    interpretPartFromText toLowerCase d vin = Normal suggestedPart /\
    Interpretation.vehicle_vin data = v /\
    Interpretation.vehicle_make data = Vehicle.make vehicle /\
    Interpretation.vehicle_model data = Vehicle.model vehicle /\
    Interpretation.vehicle_year data = Vehicle.year vehicle /\
    Interpretation.part_name data = SuggestedPart.name suggestedPart /\
    Interpretation.part_id data = SuggestedPart.id suggestedPart /\
    Interpretation.originalDescription data = d /\
    Interpretation.processedText data = toLowerCase d.
Proof.
  intros H.
  destruct (interpretation_inv _ _ _ _ _ _ _ H)
    as [d [vehicle [sp [ts [-> [Hvin [Hlen [Hfind [Hsp ->]]]]]]]]].
  apply find_In in Hfind; destruct Hfind as [Hin Heq].
  destruct vin as [| | | |v]; try discriminate Heq.
  apply bool_decide_eq_true in Heq.
  exists v, d, vehicle, sp; cbn.
  repeat split; auto.
Qed.

Lemma interpretation_guard_witness :
  exists data w',
    interpretPartFromDescription toLowerCase_latin sample_vehicles
      (JSString (utf16 "WDB2020201F685790")) (JSString scenario) sample_world
    = (Normal (Interpret200 data), w') /\
    exists v d vehicle suggestedPart,
      JSString (utf16 "WDB2020201F685790") = JSString v /\
      JSString scenario = JSString d /\
      isValidVIN (JSString (utf16 "WDB2020201F685790")) = true /\
      (5 <= length (trim d))%nat /\
      In vehicle sample_vehicles /\ Vehicle.vin vehicle = v /\
      interpretPartFromText toLowerCase_latin d (JSString (utf16 "WDB2020201F685790"))
        = Normal suggestedPart /\
      Interpretation.vehicle_vin data = v /\
      Interpretation.vehicle_make data = Vehicle.make vehicle /\
      Interpretation.vehicle_model data = Vehicle.model vehicle /\
      Interpretation.vehicle_year data = Vehicle.year vehicle /\
      Interpretation.part_name data = SuggestedPart.name suggestedPart /\
      Interpretation.part_id data = SuggestedPart.id suggestedPart /\
      Interpretation.originalDescription data = d /\
      Interpretation.processedText data = toLowerCase_latin d.
Proof.
  eexists; eexists.
  match goal with |- ?H /\ _ => assert (Hrun : H) by (vm_compute; reflexivity) end.
  split; [exact Hrun|].
  exact (interpretation_guard _ _ _ _ _ _ _ Hrun).
Defined.

(** The category of a suggestion is "general" or the name of a category. *)
Lemma classifier_category (toLowerCase : jsstring -> jsstring)
    (description : jsstring) (vin : jsvalue) (r : SuggestedPart.t) :
  interpretPartFromText toLowerCase description vin = Normal r ->
  In (SuggestedPart.category r) (utf16 "general" :: map fst partMappings).
Proof.
  intros Hr.
  destruct (classifier_winner toLowerCase description vin) as [r' [Hr' Hwin]].
  rewrite Hr in Hr'; injection Hr' as <-.
  destruct Hwin as [[-> _]|[j [e [p [Hj [_ [_ [-> _]]]]]]]].
  - left; reflexivity.
  - right; cbn [SuggestedPart.category suggestion_of].
    apply in_map, (lookup_In _ _ _ Hj).
Qed.

Lemma analysis_reports_classifier_inv (toLowerCase : jsstring -> jsstring)
    (mockVehicles : list Vehicle.t) (vin description : jsvalue)
    (w w' : world) (data : Interpretation.t) :
  interpretPartFromDescription toLowerCase mockVehicles vin description w
    = (Normal (Interpret200 data), w') ->
  exists d suggestedPart,
    interpretPartFromText toLowerCase d vin = Normal suggestedPart /\
    Interpretation.detectedKeywords data = SuggestedPart.matchedKeywords suggestedPart /\
    Interpretation.confidenceLevel data
      = getConfidenceLevel (SuggestedPart.confidence suggestedPart) /\
    Interpretation.recommendations data = generateRecommendations suggestedPart.
Proof.
  intros H.
  destruct (interpretation_inv _ _ _ _ _ _ _ H)
    as [d [vehicle [sp [ts [-> [_ [_ [_ [Hsp ->]]]]]]]]].
  exists d, sp; cbn.
  repeat split; try assumption.
  destruct (SuggestedPart.matchedKeywords sp); reflexivity.
Qed.

(** X3. The analysis of a successful interpretation carries the classifier's
    own category and matched-keyword count, with the confidence level and
    the recommendations computed from its suggestion: the defaults "unknown"
    and 0 of the handler never take their place. *)
Theorem analysis_reports_classifier (toLowerCase : jsstring -> jsstring)
    (mockVehicles : list Vehicle.t) (vin description : jsvalue)
    (w w' : world) (data : Interpretation.t) :
  interpretPartFromDescription toLowerCase mockVehicles vin description w
    = (Normal (Interpret200 data), w') ->
  exists d suggestedPart,
    description = JSString d /\
    interpretPartFromText toLowerCase d vin = Normal suggestedPart /\
    Interpretation.category data = SuggestedPart.category suggestedPart /\
    Interpretation.category data <> utf16 "unknown" /\
    Interpretation.detectedKeywords data = SuggestedPart.matchedKeywords suggestedPart /\
    Interpretation.confidenceLevel data
      = getConfidenceLevel (SuggestedPart.confidence suggestedPart) /\
    Interpretation.recommendations data = generateRecommendations suggestedPart.
Proof.
  intros H.
  destruct (interpretation_inv _ _ _ _ _ _ _ H)
    as [d [vehicle [sp [ts [-> [_ [_ [_ [Hsp ->]]]]]]]]].
  exists d, sp; cbn.
  pose proof (classifier_category _ _ _ _ Hsp) as Hcat.
  assert (Hne : SuggestedPart.category sp <> [] /\
                SuggestedPart.category sp <> utf16 "unknown").
  { unfold partMappings in Hcat; cbn [In map fst] in Hcat.
    repeat (destruct Hcat as [Hcat|Hcat];
            [rewrite <- Hcat; split; intros E; vm_compute in E; discriminate E|]).
    destruct Hcat. }
  destruct Hne as [Hnil Hunknown].
  destruct (SuggestedPart.category sp) as [|c cs] eqn:Ecat; [contradiction|].
  repeat split; try assumption.
  destruct (SuggestedPart.matchedKeywords sp); reflexivity.
Qed.

Lemma analysis_reports_classifier_witness :
  exists data w',
    interpretPartFromDescription toLowerCase_latin sample_vehicles
      (JSString (utf16 "WDB2020201F685790")) (JSString scenario) sample_world
    = (Normal (Interpret200 data), w') /\
    exists d suggestedPart,
      JSString scenario = JSString d /\
      interpretPartFromText toLowerCase_latin d (JSString (utf16 "WDB2020201F685790"))
        = Normal suggestedPart /\
      Interpretation.category data = SuggestedPart.category suggestedPart /\
      Interpretation.category data <> utf16 "unknown" /\
      Interpretation.detectedKeywords data = SuggestedPart.matchedKeywords suggestedPart /\
      Interpretation.confidenceLevel data
        = getConfidenceLevel (SuggestedPart.confidence suggestedPart) /\
      Interpretation.recommendations data = generateRecommendations suggestedPart.
Proof.
  eexists; eexists.
  match goal with |- ?H /\ _ => assert (Hrun : H) by (vm_compute; reflexivity) end.
  split; [exact Hrun|].
  exact (analysis_reports_classifier _ _ _ _ _ _ _ Hrun).
Defined.

(** ** Confidence levels and recommendations of the classifier's results *)

Lemma levels_checked : forallb level_check partMappings = true.
Proof. vm_compute. reflexivity. Qed.

Lemma level_facts (entry : jsstring * Mapping.t) (k : nat) (a : float) :
  In entry partMappings ->
  (1 <= k <= length (Mapping.keywords (snd entry)))%nat ->
  adjusted (snd entry) k = Some a ->
  (getConfidenceLevel a = utf16 "Yüksek" -> (8 <= k)%nat) /\
  ((k <= 2)%nat -> getConfidenceLevel a = utf16 "Çok Düşük") /\
  ((0.7 <? a)%float = true -> (7 <= k)%nat) /\
  ((k <= 3)%nat -> (a <? 0.5)%float = true).
Proof.
  intros Hin Hk Hadj.
  pose proof levels_checked as H; rewrite forallb_forall in H.
  specialize (H entry Hin); unfold level_check in H.
  apply forallb_seq with (k := k) in H; [|lia].
  rewrite Hadj in H.
  apply andb_true_iff in H; destruct H as [H H4].
  apply andb_true_iff in H; destruct H as [H H3].
  apply andb_true_iff in H; destruct H as [H1 H2].
  split; [|split; [|split]].
  - intros E; rewrite bool_decide_eq_true_2 in H1 by exact E.
    apply Nat.leb_le; exact H1.
  - intros E; apply Nat.leb_le in E; rewrite E in H2.
    apply bool_decide_eq_true in H2; exact H2.
  - intros E; rewrite E in H3; apply Nat.leb_le; exact H3.
  - intros E; apply Nat.leb_le in E; rewrite E in H4; exact H4.
Qed.

(** A suggestion is the fallback, or comes from a category with its number
    of matched keywords and the confidence adjusted for that number. *)
Lemma classifier_result_cases (toLowerCase : jsstring -> jsstring)
    (description : jsstring) (vin : jsvalue) (r : SuggestedPart.t) :
  interpretPartFromText toLowerCase description vin = Normal r ->
  r = fallback \/
  exists entry,
    In entry partMappings /\
    SuggestedPart.category r = fst entry /\
    (1 <= SuggestedPart.matchedKeywords r <= length (Mapping.keywords (snd entry)))%nat /\
    adjusted (snd entry) (SuggestedPart.matchedKeywords r)
      = Some (SuggestedPart.confidence r).
Proof.
  intros Hr.
  destruct (classifier_winner toLowerCase description vin) as [r' [Hr' Hwin]].
  rewrite Hr in Hr'; injection Hr' as <-.
  destruct Hwin as [[-> _]|[j [e [p [Hj [_ [[Hpos Hadj] [Hsugg _]]]]]]]].
  - left; reflexivity.
  - right; exists e.
    assert (Hmk : SuggestedPart.matchedKeywords r
                  = matches (toLowerCase description) (snd e))
      by (rewrite Hsugg; reflexivity).
    assert (Hcat : SuggestedPart.category r = fst e) by (rewrite Hsugg; reflexivity).
    rewrite Hmk; split; [exact (lookup_In _ _ _ Hj)|].
    split; [exact Hcat|]; split; [|exact Hadj].
    split; [lia|apply keywordMatches_le].
Qed.

Lemma recommendation_lines_distinct :
  high_reliability_line <> brake_line /\ high_reliability_line <> engine_line /\
  high_reliability_line <> more_detail_line /\ high_reliability_line <> expert_line.
Proof. repeat split; intros E; vm_compute in E; discriminate E. Qed.

Lemma high_line_needs_confidence (suggestedPart : SuggestedPart.t) :
  In high_reliability_line (generateRecommendations suggestedPart) ->
  (0.7 <? SuggestedPart.confidence suggestedPart)%float = true.
Proof.
  destruct recommendation_lines_distinct as [H1 [H2 [H3 H4]]].
  unfold generateRecommendations.
  destruct (0.7 <? SuggestedPart.confidence suggestedPart)%float; [reflexivity|].
  destruct (bool_decide _), (bool_decide _), (_ <? 0.5)%float; simpl;
    intros H; repeat (destruct H as [H|H]; [congruence|]); destruct H.
Qed.

(** X4. In a successful interpretation, the confidence level "Yüksek" is
    reported only when at least eight keywords of the category matched, and
    a description in which at most two keywords matched (none included) is
    always reported as "Çok Düşük". *)
Theorem level_needs_keywords (toLowerCase : jsstring -> jsstring)
    (mockVehicles : list Vehicle.t) (vin description : jsvalue)
    (w w' : world) (data : Interpretation.t) :
  interpretPartFromDescription toLowerCase mockVehicles vin description w
    = (Normal (Interpret200 data), w') ->
  (Interpretation.confidenceLevel data = utf16 "Yüksek" ->
   (8 <= Interpretation.detectedKeywords data)%nat) /\
  ((Interpretation.detectedKeywords data <= 2)%nat ->
   Interpretation.confidenceLevel data = utf16 "Çok Düşük").
Proof.
  intros H.
  destruct (analysis_reports_classifier_inv _ _ _ _ _ _ _ H)
    as [d [sp [Hsp [-> [-> _]]]]].
  destruct (classifier_result_cases _ _ _ _ Hsp) as [->|[e [Hin [_ [Hk Hadj]]]]].
  - split; [intros E; vm_compute in E; discriminate E|intros _; vm_compute; reflexivity].
  - destruct (level_facts e _ _ Hin Hk Hadj) as [H1 [H2 _]]; split; assumption.
Qed.

Lemma level_needs_keywords_witness :
  exists data w',
    interpretPartFromDescription toLowerCase_latin sample_vehicles
      (JSString (utf16 "WDB2020201F685790")) (JSString (utf16 "Fren sesi geliyor"))
      sample_world
    = (Normal (Interpret200 data), w') /\
    (Interpretation.detectedKeywords data <= 2)%nat /\
    Interpretation.confidenceLevel data = utf16 "Çok Düşük".
Proof.
  eexists; eexists.
  match goal with |- ?H /\ _ => assert (Hrun : H) by (vm_compute; reflexivity) end.
  split; [exact Hrun|].
  split; [cbn; lia|].
  apply (proj2 (level_needs_keywords _ _ _ _ _ _ _ Hrun)); cbn; lia.
Defined.

(** Eight brake keywords: the level "Yüksek" is reached. *)
Example level_high_reached :
  match fst (interpretPartFromDescription toLowerCase_latin sample_vehicles
               (JSString (utf16 "WDB2020201F685790"))
               (JSString (utf16 "fren balata disk durmuyor tutmuyor gıcırdıyor ses titreşim"))
               sample_world) with
  | Normal (Interpret200 data) =>
    Interpretation.confidenceLevel data = utf16 "Yüksek" /\
    Interpretation.detectedKeywords data = 8%nat /\
    Interpretation.part_confidence data = 0.82%float
  | _ => False
  end.
Proof. vm_compute. repeat split. Qed.

(** X5. In a successful interpretation, a description in which at most
    three keywords matched always gets the two lines that ask for more
    detail and for an expert, at the end of the recommendations; and the
    line that calls the estimate highly reliable is given only when at
    least seven keywords matched. *)
Theorem recommendations_follow_keywords (toLowerCase : jsstring -> jsstring)
    (mockVehicles : list Vehicle.t) (vin description : jsvalue)
    (w w' : world) (data : Interpretation.t) :
  interpretPartFromDescription toLowerCase mockVehicles vin description w
    = (Normal (Interpret200 data), w') ->
  ((Interpretation.detectedKeywords data <= 3)%nat ->
   exists before,
     Interpretation.recommendations data = before ++ [more_detail_line; expert_line]) /\
  (In high_reliability_line (Interpretation.recommendations data) ->
   (7 <= Interpretation.detectedKeywords data)%nat).
Proof.
  intros H.
  destruct (analysis_reports_classifier_inv _ _ _ _ _ _ _ H)
    as [d [sp [Hsp [-> [_ ->]]]]].
  assert (Hfacts : ((SuggestedPart.matchedKeywords sp <= 3)%nat ->
                    (SuggestedPart.confidence sp <? 0.5)%float = true) /\
                   ((0.7 <? SuggestedPart.confidence sp)%float = true ->
                    (7 <= SuggestedPart.matchedKeywords sp)%nat)).
  { destruct (classifier_result_cases _ _ _ _ Hsp) as [->|[e [Hin [_ [Hk Hadj]]]]].
    - split; [intros _; vm_compute; reflexivity|intros E; vm_compute in E; discriminate E].
    - destruct (level_facts e _ _ Hin Hk Hadj) as [_ [_ [H3 H4]]]; split; assumption. }
  destruct Hfacts as [Hlow Hhigh]; split.
  - intros Hk; unfold generateRecommendations; rewrite (Hlow Hk).
    eexists; rewrite !app_assoc; reflexivity.
  - intros Hin; apply Hhigh, high_line_needs_confidence, Hin.
Qed.

Lemma recommendations_follow_keywords_witness :
  exists data w',
    interpretPartFromDescription toLowerCase_latin sample_vehicles
      (JSString (utf16 "WDB2020201F685790")) (JSString scenario) sample_world
    = (Normal (Interpret200 data), w') /\
    exists before,
      Interpretation.recommendations data = before ++ [more_detail_line; expert_line].
Proof.
  eexists; eexists.
  match goal with |- ?H /\ _ => assert (Hrun : H) by (vm_compute; reflexivity) end.
  split; [exact Hrun|].
  apply (proj1 (recommendations_follow_keywords _ _ _ _ _ _ _ Hrun)); cbn; lia.
Defined.

(** ** The listing's answer *)








(** ** generateDeliveryTime and generateWarranty *)

(** The cumulative weights, summed as the source sums them on binary64
    numbers, are the numbers 0.3, 0.6, 0.85, 0.95 and 1 themselves. *)
Example delivery_weights_binary64 :
  ((0 + 0.3 =? 0.3) && (0 + 0.3 + 0.3 =? 0.6) && (0 + 0.3 + 0.3 + 0.25 =? 0.85)
   && (0 + 0.3 + 0.3 + 0.25 + 0.1 =? 0.95)
   && (0 + 0.3 + 0.3 + 0.25 + 0.1 + 0.05 =? 1))%float = true.
Proof. vm_compute. reflexivity. Qed.

(** X7. [generateDeliveryTime] returns the label of the bucket the draw
    falls in: "1-2 gün" up to 0.3, "2-3 gün" up to 0.6, "3-5 gün" up to 0.85,
    "1 hafta" up to 0.95 and "Aynı gün" above; for a draw of [0, 1) the walk
    always ends in a bucket, so the fallback after the loop is not reached. *)
Theorem delivery_time_buckets (w : world) :
  valid_random w ->
  exists label w',
    generateDeliveryTime w = (Normal label, w') /\
    let r := random w 0%nat in
    ((r <= 3 # 10)%Q /\ label = utf16 "1-2 gün") \/
    ((3 # 10 < r)%Q /\ (r <= 3 # 5)%Q /\ label = utf16 "2-3 gün") \/
    ((3 # 5 < r)%Q /\ (r <= 17 # 20)%Q /\ label = utf16 "3-5 gün") \/
    ((17 # 20 < r)%Q /\ (r <= 19 # 20)%Q /\ label = utf16 "1 hafta") \/
    ((19 # 20 < r)%Q /\ (r < 1)%Q /\ label = utf16 "Aynı gün").
Proof.
  intros Hvalid; destruct (Hvalid 0%nat) as [H0 H1].
  unfold generateDeliveryTime.
  destruct (Math_random_run w) as [w1 [Hrun _]].
  rewrite (bind_run _ _ w w1 _ Hrun).
  eexists; eexists; split; [reflexivity|].
  rewrite delivery_walk_label; cbv zeta; unfold delivery_label.
  set (r := random w 0%nat) in *.
  destruct (Qle_bool r (3 # 10)) eqn:E1;
    [apply Qle_bool_iff in E1; left; split; [exact E1|reflexivity]|].
  assert (L1 : (3 # 10 < r)%Q)
    by (apply Qnot_le_lt; intros C; apply Qle_bool_iff in C; congruence).
  destruct (Qle_bool r (3 # 5)) eqn:E2;
    [apply Qle_bool_iff in E2; right; left; auto|].
  assert (L2 : (3 # 5 < r)%Q)
    by (apply Qnot_le_lt; intros C; apply Qle_bool_iff in C; congruence).
  destruct (Qle_bool r (17 # 20)) eqn:E3;
    [apply Qle_bool_iff in E3; right; right; left; auto|].
  assert (L3 : (17 # 20 < r)%Q)
    by (apply Qnot_le_lt; intros C; apply Qle_bool_iff in C; congruence).
  destruct (Qle_bool r (19 # 20)) eqn:E4;
    [apply Qle_bool_iff in E4; right; right; right; left; auto|].
  assert (L4 : (19 # 20 < r)%Q)
    by (apply Qnot_le_lt; intros C; apply Qle_bool_iff in C; congruence).
  destruct (Qle_bool r 1) eqn:E5; [right; right; right; right; auto|].
  exfalso; assert (C : (r <= 1)%Q) by (apply Qlt_le_weak; exact H1).
  apply Qle_bool_iff in C; congruence.
Qed.

Lemma delivery_time_buckets_witness :
  exists label w',
    generateDeliveryTime sample_world = (Normal label, w') /\
    label = utf16 "3-5 gün".
Proof.
  destruct (delivery_time_buckets sample_world sample_world_valid)
    as [label [w' [Hrun Hbucket]]].
  exists label, w'; split; [exact Hrun|].
  cbv zeta in Hbucket.
  change (random sample_world 0%nat) with (7 # 10)%Q in Hbucket.
  destruct Hbucket as [[H _]|[[_ [H _]]|[[_ [_ H]]|[[H _]|[H _]]]]];
    try exact H; exfalso; revert H;
    (unfold Qle, Z.le || unfold Qlt, Z.lt); cbn; intros H;
    try (apply H; reflexivity); discriminate H.
Defined.

Lemma add_metadata_inv (partId : jsstring) (offer : Offer.t) (w w' : world)
    (e : Enriched.t) :
  add_metadata partId offer w = (Normal e, w') ->
  Enriched.seller e = offer /\
  In (Enriched.deliveryTime e) delivery_options /\
  Enriched.warranty e = generateWarranty partId /\
  Enriched.paymentMethods e = map utf16 ["Nakit"; "Kredi Kartı"; "Havale"]%string.
Proof.
  unfold add_metadata, generateDeliveryTime; intros H.
  apply bind_inv in H; destruct H as [label [w1 [Hlabel H]]].
  apply bind_inv in Hlabel; destruct Hlabel as [r [w0 [_ Hlabel]]].
  apply ret_inv in Hlabel.
  apply bind_inv in H; destruct H as [ts [w2 [_ H]]].
  apply ret_inv in H; subst e label.
  cbn [Enriched.seller Enriched.deliveryTime Enriched.warranty Enriched.paymentMethods].
  rewrite delivery_walk_label.
  split; [reflexivity|]; split; [apply delivery_label_option|]; split; reflexivity.
Qed.

Lemma Array_map_add_metadata (partId : jsstring) (offers : list Offer.t) :
  forall w w' enriched,
    Array_map (add_metadata partId) offers w = (Normal enriched, w') ->
    map Enriched.seller enriched = offers /\
    Forall (fun e =>
              In (Enriched.deliveryTime e) delivery_options /\
              Enriched.warranty e = generateWarranty partId /\
              Enriched.paymentMethods e
                = map utf16 ["Nakit"; "Kredi Kartı"; "Havale"]%string) enriched.
Proof.
  induction offers as [|o offers IH]; intros w w' enriched H; simpl in H.
  - apply ret_inv in H; subst enriched; split; [reflexivity|constructor].
  - apply bind_inv in H; destruct H as [e [w1 [He H]]].
    apply bind_inv in H; destruct H as [es [w2 [Hes H]]].
    apply ret_inv in H; subst enriched.
    destruct (add_metadata_inv _ _ _ _ _ He) as [Hs Hmeta].
    destruct (IH _ _ _ Hes) as [Hmap Hall].
    split; [simpl; f_equal; assumption|constructor; assumption].
Qed.

(** X8. A listing that is answered with offers shows exactly the offers
    found for the part: those of its own entry in the data when there is
    one, else, for a name that is neither "global_sellers" nor a name of
    [Object.prototype], the ones synthesized from the global pool; none is
    dropped, added or changed.  The listing of the name "global_sellers"
    shows the profiles of the pool, each as it is in the store, in the order
    of the pool.  In both, every entry carries a delivery time among the
    five labels, the warranty of the part and the three payment methods.
    The answer 400 is that of the empty part id. *)
Theorem listing_shows_the_offers (engine : sort_engine)
    (Object_prototype : jsstring -> option jsvalue) (mockSellers : mockData)
    (partId : jsstring) (w w' : world) (response : response) :
  getSellersForPart engine Object_prototype mockSellers partId w
    = (Normal response, w') ->
  match response with
  | Success partId' sellers _ _ _ =>
    partId' = partId /\
    (exists offers,
        Permutation (map Enriched.seller sellers) offers /\
        (predefined mockSellers !! partId = Some offers \/
         (predefined mockSellers !! partId = None /\
          partId <> utf16 "global_sellers" /\ Object_prototype partId = None /\
          exists pool w1 w2,
            global_sellers mockSellers = Some pool /\
            generateSellersForPart engine partId pool w1 = (Normal offers, w2)))) /\
    Forall (fun e =>
              In (Enriched.deliveryTime e) delivery_options /\
              Enriched.warranty e = generateWarranty partId /\
              Enriched.paymentMethods e
                = map utf16 ["Nakit"; "Kredi Kartı"; "Havale"]%string) sellers
  | Success_unpriced partId' sellers _ _ =>
    partId' = partId /\ partId = utf16 "global_sellers" /\
    predefined mockSellers !! partId = None /\
    (exists pool elements,
        global_sellers mockSellers = Some pool /\
        arrays w !! pool = Some elements /\
        map EnrichedProfile.seller sellers = map (fun s => objects w !! s) elements) /\
    Forall (fun e =>
              In (EnrichedProfile.deliveryTime e) delivery_options /\
              EnrichedProfile.warranty e = generateWarranty partId /\
              EnrichedProfile.paymentMethods e
                = map utf16 ["Nakit"; "Kredi Kartı"; "Havale"]%string) sellers
  | Status400 => partId = []
  | Status404 | Status500 => True
  end.
Proof.
  intros H.
  destruct response as [| | |partId' sellers count range ts|partId' sellers count ts];
    try exact I.
  - revert H; unfold getSellersForPart, try_catch.
    match goal with
    | |- match ?body w with _ => _ end = _ -> _ =>
      destruct (body w) as [[r|e] w0] eqn:Hbody
    end; intros H; [|discriminate H].
    injection H as -> ->.
    apply bind_inv in Hbody; destruct Hbody as [[] [w1 [_ H]]].
    destruct partId as [|c partId]; [reflexivity|].
    cbv zeta in H.
    apply bind_inv in H; destruct H as [found [w2 [_ H]]].
    destruct found as [[|seller rest]|pool|len|].
    + apply ret_inv in H; discriminate H.
    + apply bind_inv in H; destruct H as [enriched [w3 [_ H]]].
      apply bind_inv in H; destruct H as [ts [w4 [_ H]]].
      apply ret_inv in H; discriminate H.
    + apply bind_inv in H; destruct H as [elements [w3 [_ H]]].
      destruct elements; [apply ret_inv in H; discriminate H|].
      apply bind_inv in H; destruct H as [enriched [w4 [_ H]]].
      apply bind_inv in H; destruct H as [ts [w5 [_ H]]].
      apply ret_inv in H; discriminate H.
    + destruct (strict_equals_zero len); [apply ret_inv in H|]; discriminate H.
    + apply ret_inv in H; discriminate H.
  - destruct (listing_inv _ _ _ _ _ _ _ _ _ _ _ H)
      as [offers [enriched [w1 [w2 [w3 [_ [Hfound [Hmap [Hid [Hs _]]]]]]]]]].
    destruct (Array_map_add_metadata _ _ _ _ _ Hmap) as [Hsellers Hall].
    split; [exact Hid|]; split.
    + exists offers; split.
      * rewrite Hs, <- Hsellers.
        apply Permutation_map, sort_by_perm.
      * destruct Hfound as [Hpre|[Hl [pool [Hpool Hgen]]]]; [left; exact Hpre|].
        destruct (lookup_sellers_Undefined _ _ _ Hl) as [Hpre [Hproto Hname]].
        right; split; [exact Hpre|]; split; [|split; [exact Hproto|]].
        -- intros E; specialize (Hname E); congruence.
        -- exists pool, w1, w2; auto.
    + rewrite Hs.
      eapply Permutation_Forall; [symmetry; apply sort_by_perm|exact Hall].
  - destruct (listing_pool_inv _ _ _ _ _ _ _ _ _ _ H)
      as [pool [elements [Hname [Hpre [Hpool [Harr [_ [Hmap [Hall [Hid _]]]]]]]]]].
    split; [exact Hid|]; split; [exact Hname|]; split; [exact Hpre|].
    split; [|exact Hall].
    exists pool, elements; auto.
Qed.

Lemma listing_shows_the_offers_witness :
  exists sellers count timestamp w',
    getSellersForPart insertion_engine sample_prototype (mkMockData ∅ (Some 1%positive))
      (utf16 "global_sellers") sample_world
    = (Normal (Success_unpriced (utf16 "global_sellers") sellers count timestamp), w') /\
    map EnrichedProfile.seller sellers = [Some seller_a; Some seller_b; Some seller_c] /\
    Forall (fun e =>
              In (EnrichedProfile.deliveryTime e) delivery_options /\
              EnrichedProfile.warranty e = generateWarranty (utf16 "global_sellers") /\
              EnrichedProfile.paymentMethods e
                = map utf16 ["Nakit"; "Kredi Kartı"; "Havale"]%string) sellers.
Proof.
  do 4 eexists.
  match goal with |- ?H /\ _ => assert (Hrun : H) by (vm_compute; reflexivity) end.
  split; [exact Hrun|].
  destruct (listing_shows_the_offers _ _ _ _ _ _ _ Hrun)
    as [_ [_ [_ [[pool [elements [Hpool [Harr Hmap]]]] Hall]]]].
  split; [|exact Hall].
  injection Hpool as <-.
  vm_compute in Harr; injection Harr as <-.
  exact Hmap.
Defined.

(** A name the data does not hold and [Object.prototype] answers to: the
    member found is truthy, so no offer is synthesized; it is answered 404
    when its [length] is 0 and 500 otherwise, for it has no [map]. *)
Lemma listing_inherited_name (engine : sort_engine)
    (Object_prototype : jsstring -> option jsvalue) (mockSellers : mockData)
    (partId : jsstring) (length : jsvalue) (w : world) :
  partId <> [] -> partId <> utf16 "global_sellers" ->
  predefined mockSellers !! partId = None -> Object_prototype partId = Some length ->
  exists w',
    getSellersForPart engine Object_prototype mockSellers partId w
      = (Normal (if strict_equals_zero length then Status404 else Status500), w').
Proof.
  intros Hne Hname Hpre Hproto.
  unfold getSellersForPart, try_catch, simulateDelay.
  destruct partId as [|c partId]; [contradiction|].
  rewrite !bind_cases; cbn [Math_random lift_rand rand_random].
  unfold ret at 1; cbv zeta.
  assert (Hl : lookup_sellers Object_prototype mockSellers (c :: partId)
               = InheritedMember length).
  { unfold lookup_sellers; rewrite Hpre, Hproto.
    rewrite bool_decide_eq_false_2 by exact Hname; reflexivity. }
  rewrite bind_cases, Hl.
  unfold ret at 1.
  destruct (strict_equals_zero length); eexists; reflexivity.
Qed.

(** X9. The price rule and the warranty rule read a part identifier alike:
    base price and warranty label always form one of the pairs 800 with two
    years, 300, 400 or 250 with one year, 200 or 600 with six months, 150 or
    100 with three months.  An identifier that contains "motor" has the base
    price 800 and two years whatever else it contains, and one without any
    of the substrings has 100 and three months. *)
Theorem price_and_warranty_agree (partId : jsstring) :
  In (basePrice_of partId, generateWarranty partId) price_and_warranty /\
  (includes partId (utf16 "motor") = true ->
   basePrice_of partId = 800%Z /\ generateWarranty partId = utf16 "2 yıl garanti") /\
  ((forall key, In key (map fst price_rules) -> includes partId key = false) ->
   basePrice_of partId = 100%Z /\ generateWarranty partId = utf16 "3 ay garanti").
Proof.
  split; [|split].
  - unfold basePrice_of, generateWarranty, price_and_warranty.
    repeat match goal with
           | |- context [includes partId ?k] => destruct (includes partId k)
           end; simpl; tauto.
  - intros H; unfold basePrice_of, generateWarranty; rewrite H; split; reflexivity.
  - intros H; unfold basePrice_of, generateWarranty.
    rewrite !H by (unfold price_rules; simpl; tauto); split; reflexivity.
Qed.

Lemma price_and_warranty_agree_witness :
  basePrice_of (utf16 "part-motor-fren-7") = 800%Z /\
  generateWarranty (utf16 "part-motor-fren-7") = utf16 "2 yıl garanti".
Proof.
  apply (proj1 (proj2 (price_and_warranty_agree (utf16 "part-motor-fren-7")))).
  vm_compute; reflexivity.
Defined.

(** X10. A part whose entry in the data is an empty list is answered with
    404 even when a global pool of sellers exists: no offer is synthesized,
    the store is left as it is, and only the draw of the delay is taken
    from the random source. *)
Theorem listing_empty_entry (engine : sort_engine)
    (Object_prototype : jsstring -> option jsvalue) (mockSellers : mockData)
    (partId : jsstring) (w : world) :
  partId <> [] -> predefined mockSellers !! partId = Some [] ->
  exists w',
    getSellersForPart engine Object_prototype mockSellers partId w
      = (Normal Status404, w') /\
    arrays w' = arrays w /\ objects w' = objects w /\ clock w' = clock w /\
    forall i, random w' i = random w (S i).
Proof.
  intros Hne Hentry.
  unfold getSellersForPart, try_catch, simulateDelay.
  destruct partId as [|c partId]; [contradiction|].
  rewrite !bind_cases; cbn [Math_random lift_rand rand_random].
  unfold ret at 1; unfold lookup_sellers; rewrite bind_cases, Hentry.
  unfold ret; eexists; split; [reflexivity|].
  repeat split.
Qed.

Lemma listing_empty_entry_witness :
  exists w',
    getSellersForPart insertion_engine sample_prototype
      (mkMockData {[ utf16 "part-fren-001" := [] ]} (Some 1%positive))
      (utf16 "part-fren-001") sample_world = (Normal Status404, w') /\
    arrays w' = arrays sample_world /\ objects w' = objects sample_world /\
    clock w' = clock sample_world /\
    forall i, random w' i = random sample_world (S i).
Proof.
  apply (listing_empty_entry insertion_engine sample_prototype
           (mkMockData {[ utf16 "part-fren-001" := [] ]} (Some 1%positive))
           (utf16 "part-fren-001") sample_world).
  - intros E; vm_compute in E; discriminate E.
  - apply lookup_singleton_eq.
Defined.

(** ** Which sellers the offers are made from *)





(** ** The e-mail pattern *)

Lemma lang_star_class (p : codeunit -> bool) (s : jsstring) :
  lang (Star (Class p)) s <-> Forall (fun c => p c = true) s.
Proof.
  split.
  - remember (Star (Class p)) as r eqn:Hr; intros H.
    induction H as [|p' c Hp|a b s t Ha IHa Hb IHb|a b s Ha IHa|a b s Hb IHb|a
                    |a s t Ha IHa Ht IHt]; try discriminate Hr.
    + constructor.
    + injection Hr as ->.
      inversion Ha; subst; simpl.
      constructor; [assumption|apply IHt; reflexivity].
  - induction 1 as [|c s Hc _ IH].
    + constructor.
    + apply (lang_star_app (Class p) [c] s); [constructor; exact Hc|exact IH].
Qed.

Lemma lang_plus_class (p : codeunit -> bool) (s : jsstring) :
  lang (Plus (Class p)) s <-> s <> [] /\ Forall (fun c => p c = true) s.
Proof.
  unfold Plus; split.
  - intros H; inversion H as [| |a b s1 s2 H1 H2| | | |]; subst.
    inversion H1; subst; apply lang_star_class in H2.
    split; [discriminate|constructor; assumption].
  - intros [Hne Hall]; destruct s as [|c s]; [contradiction|].
    inversion Hall; subst.
    apply (lang_seq (Class p) _ [c] s); [constructor; assumption|].
    apply lang_star_class; assumption.
Qed.

Lemma email_class_part (s : jsstring) :
  (s <> [] /\ Forall (fun c => email_class c = true) s) <-> email_part s.
Proof.
  unfold email_part, email_class.
  split; intros [Hne Hall]; (split; [exact Hne|]);
    (eapply List.Forall_impl; [|exact Hall]); intros c; simpl.
  - rewrite negb_true_iff, orb_false_iff, N.eqb_neq; tauto.
  - rewrite negb_true_iff, orb_false_iff, N.eqb_neq; tauto.
Qed.

Lemma emailRegex_wellformed (s : jsstring) :
  RegExp_test emailRegex s = true <-> email_wellformed s.
Proof.
  rewrite RegExp_test_lang; unfold emailRegex, email_wellformed; split.
  - intros H.
    inversion H as [| |r1 r2 a t1 Ha H1| | | |]; subst.
    inversion H1 as [| |r1 r2 at_ t2 Hat H2| | | |]; subst.
    inversion H2 as [| |r1 r2 b t3 Hb H3| | | |]; subst.
    inversion H3 as [| |r1 r2 dot c Hdot Hc| | | |]; subst.
    inversion Hat as [|p x Hx| | | | |]; subst.
    inversion Hdot as [|p y Hy| | | | |]; subst.
    apply N.eqb_eq in Hx, Hy; subst x y.
    exists a, b, c; split; [reflexivity|].
    split; [|split]; apply email_class_part, lang_plus_class; assumption.
  - intros [a [b [c [-> [Ha [Hb Hc]]]]]].
    apply lang_seq; [apply lang_plus_class, email_class_part; exact Ha|].
    apply (lang_seq _ _ [64%N]); [constructor; reflexivity|].
    apply lang_seq; [apply lang_plus_class, email_class_part; exact Hb|].
    apply (lang_seq _ _ [46%N]); [constructor; reflexivity|].
    apply lang_plus_class, email_class_part; exact Hc.
Qed.

(** ** Computations that return *)

Lemma returns_ret {A} (P Q : A -> Prop) (a : A) : P a -> Q a -> returns P Q (ret a).
Proof. intros HP HQ w; exists a, w; split; [reflexivity|]; split; [exact HP|auto]. Qed.

Lemma returns_bind {A B} (P1 Q1 : A -> Prop) (P2 Q2 : B -> Prop) (c : M A) (k : A -> M B) :
  returns P1 Q1 c ->
  (forall a, P1 a -> returns P2 (fun b => Q1 a -> Q2 b) (k a)) ->
  returns P2 Q2 (bind c k).
Proof.
  intros Hc Hk w; destruct (Hc w) as [a [w1 [Hrun [Ha Hv]]]].
  destruct (Hk a Ha w1) as [b [w2 [Hrun' [Hb Hv']]]].
  exists b, w2; split; [rewrite (bind_run _ _ w w1 a Hrun); exact Hrun'|].
  split; [exact Hb|].
  intros Hw; destruct (Hv Hw) as [Hw1 HQ1]; destruct (Hv' Hw1) as [Hw2 HQ2].
  split; [exact Hw2|exact (HQ2 HQ1)].
Qed.

Lemma returns_Math_random :
  returns (fun _ => True) (fun r => (0 <= r)%Q /\ (r < 1)%Q) Math_random.
Proof.
  intros w; destruct (Math_random_run w) as [w' [Hrun Hlater]].
  exists (random w 0%nat), w'; split; [exact Hrun|]; split; [exact I|].
  intros Hw; split; [exact (later_valid _ _ Hlater Hw)|apply Hw].
Qed.

Lemma returns_Date_toISOString : returns (fun _ => True) (fun _ => True) Date_toISOString.
Proof.
  intros w; eexists; eexists; split; [reflexivity|]; split; [exact I|].
  intros Hw; split; [exact Hw|exact I].
Qed.

Lemma returns_simulateDelay (min max : Z) :
  returns (fun _ => True) (fun _ => True) (simulateDelay min max).
Proof.
  unfold simulateDelay.
  eapply returns_bind; [apply returns_Math_random|intros r _].
  apply returns_ret; auto.
Qed.

Lemma returns_generateRequestId (Date_parse : jsstring -> Z) :
  returns (fun _ => True) (fun _ => True) (generateRequestId Date_parse).
Proof.
  unfold generateRequestId, Date_now.
  eapply returns_bind.
  - eapply returns_bind; [apply returns_Date_toISOString|intros now _].
    apply (returns_ret (fun _ => True) (fun _ => True -> True)); auto.
  - intros ts _; eapply returns_bind; [apply returns_Math_random|intros r _].
    apply returns_ret; auto.
Qed.

Lemma notifications_range (r : Q) :
  (0 <= r)%Q -> (r < 1)%Q -> (3 <= Math_floor (r * 8) + 3 <= 10)%Z.
Proof.
  intros H0 H1.
  assert (0 <= Qfloor (r * 8) < 8)%Z; [|unfold Math_floor; lia].
  apply floor_bounds; unfold inject_Z; lra.
Qed.

Lemma returns_simulateSellerNotification (request : Request.t) :
  returns (fun _ => True) (fun n => (3 <= n <= 10)%Z) (simulateSellerNotification request).
Proof.
  unfold simulateSellerNotification.
  eapply returns_bind; [apply returns_simulateDelay|intros u _].
  eapply (returns_bind _ (fun r => (0 <= r)%Q /\ (r < 1)%Q));
    [apply returns_Math_random|intros r _].
  eapply (returns_bind _ (fun _ => True)); [apply returns_Date_toISOString|intros ts _].
  apply returns_ret; [exact I|].
  intros _ [H0 H1] _; apply notifications_range; assumption.
Qed.

Lemma try_catch_with_run {R} (on_error r : R) (body : M R) (w w' : world) :
  body w = (Normal r, w') -> try_catch_with on_error body w = (Normal r, w').
Proof. intros H; unfold try_catch_with; rewrite H; reflexivity. Qed.

(** ** createPartRequest *)

(** What a call of [createPartRequest] went through, by its answer. *)
Lemma createPartRequest_inv (Date_parse : jsstring -> Z)
    (vin partId userEmail description urgency : jsvalue)
    (pendingRequests pendingRequests' : gmap jsstring Request.t)
    (w w' : world) (response : create_response) :
  createPartRequest Date_parse vin partId userEmail description urgency pendingRequests w
    = (Normal (response, pendingRequests'), w') ->
  (pendingRequests' = pendingRequests /\
   (response = Create400_missing \/ response = Create400_email \/ response = Create500)) \/
  (exists requestId createdAt notificationsSent timestamp w1 w2 w3 w4,
      ToBoolean vin = true /\ ToBoolean partId = true /\ ToBoolean userEmail = true /\
      test_email userEmail = true /\
      generateRequestId Date_parse w1 = (Normal requestId, w2) /\
      simulateSellerNotification
        (Request.mk requestId vin partId userEmail
           (or_default description (JSString []))
           (or_default urgency (JSString (utf16 "normal")))
           pending createdAt (getEstimatedResponseTime urgency) 0 None) w3
        = (Normal notificationsSent, w4) /\
      response = Create201 requestId (getEstimatedResponseTime urgency)
                   notificationsSent timestamp /\
      pendingRequests' =
      <[requestId :=
          Request.mk requestId vin partId userEmail
            (or_default description (JSString []))
            (or_default urgency (JSString (utf16 "normal")))
            pending createdAt (getEstimatedResponseTime urgency) 0 None]>
        pendingRequests).
Proof.
  unfold createPartRequest; intros H.
  apply try_catch_with_inv in H; destruct H as [H|[H _]].
  2: { injection H as -> ->; left; split; [reflexivity|auto]. }
  apply bind_inv in H; destruct H as [[] [w1 [_ H]]].
  destruct (ToBoolean vin); cbn [negb orb] in H;
    [|apply ret_inv in H; injection H as <- <-; left; split; [reflexivity|auto]].
  destruct (ToBoolean partId); cbn [negb orb] in H;
    [|apply ret_inv in H; injection H as <- <-; left; split; [reflexivity|auto]].
  destruct (ToBoolean userEmail); cbn [negb orb] in H;
    [|apply ret_inv in H; injection H as <- <-; left; split; [reflexivity|auto]].
  destruct (test_email userEmail) eqn:Hemail; cbn [negb] in H;
    [|apply ret_inv in H; injection H as <- <-; left; split; [reflexivity|auto]].
  apply bind_inv in H; destruct H as [requestId [w2 [Hid H]]].
  apply bind_inv in H; destruct H as [createdAt [w3 [_ H]]].
  apply bind_inv in H; destruct H as [n [w4 [Hn H]]].
  apply bind_inv in H; destruct H as [ts [w5 [_ H]]].
  apply ret_inv in H; injection H as <- <-.
  right; exists requestId, createdAt, n, ts, w1, w2, w3, w4.
  repeat split; assumption.
Qed.

(** X12. A part request is created only when [vin], [partId] and
    [userEmail] are given and [userEmail] is a string of the form
    local@domain, the domain holding a dot with something on both sides, and
    no part holding white space or another "@"; and a request that is
    refused with 400 leaves the pending requests as they were. *)
Theorem createPartRequest_validates (Date_parse : jsstring -> Z)
    (vin partId userEmail description urgency : jsvalue)
    (pendingRequests pendingRequests' : gmap jsstring Request.t)
    (w w' : world) (response : create_response) :
  createPartRequest Date_parse vin partId userEmail description urgency pendingRequests w
    = (Normal (response, pendingRequests'), w') ->
  ((exists requestId estimatedResponse notificationsSent timestamp,
       response = Create201 requestId estimatedResponse notificationsSent timestamp) ->
   ToBoolean vin = true /\ ToBoolean partId = true /\
   exists e, userEmail = JSString e /\ email_wellformed e) /\
  (response = Create400_missing \/ response = Create400_email ->
   pendingRequests' = pendingRequests).
Proof.
  intros H; apply createPartRequest_inv in H.
  destruct H as [[-> Hresp]|[id [createdAt [n [ts [w1 [w2 [w3 [w4 H]]]]]]]]].
  - split; [|reflexivity].
    intros [id [er [n [ts ->]]]].
    destruct Hresp as [E|[E|E]]; discriminate E.
  - destruct H as [Hvin [Hpart [_ [Hemail [_ [_ [-> _]]]]]]].
    split; [|intros [E|E]; discriminate E].
    intros _; split; [exact Hvin|]; split; [exact Hpart|].
    destruct userEmail as [| | | |e]; try discriminate Hemail.
    exists e; split; [reflexivity|apply emailRegex_wellformed; exact Hemail].
Qed.

Lemma createPartRequest_validates_witness :
  exists response pendingRequests' w',
    createPartRequest sample_parse
      (JSString (utf16 "WDB2020201F685790")) (JSString (utf16 "part-fren-001"))
      (JSString (utf16 "user@example.com")) JSUndefined (JSString (utf16 "high"))
      ∅ sample_server_world
    = (Normal (response, pendingRequests'), w') /\
    ToBoolean (JSString (utf16 "WDB2020201F685790")) = true /\
    ToBoolean (JSString (utf16 "part-fren-001")) = true /\
    exists e, JSString (utf16 "user@example.com") = JSString e /\ email_wellformed e.
Proof.
  do 3 eexists.
  match goal with |- ?H /\ _ => assert (Hrun : H) by (vm_compute; reflexivity) end.
  split; [exact Hrun|].
  apply (proj1 (createPartRequest_validates _ _ _ _ _ _ _ _ _ _ _ Hrun)).
  do 4 eexists; reflexivity.
Defined.

(** A request with [vin], [partId] and an address the pattern accepts is
    created. *)
Lemma createPartRequest_accepts (Date_parse : jsstring -> Z)
    (vin partId userEmail description urgency : jsvalue)
    (pendingRequests : gmap jsstring Request.t) (w : world) :
  ToBoolean vin = true -> ToBoolean partId = true -> test_email userEmail = true ->
  exists requestId notificationsSent timestamp pendingRequests' w',
    createPartRequest Date_parse vin partId userEmail description urgency pendingRequests w
    = (Normal (Create201 requestId (getEstimatedResponseTime urgency)
                 notificationsSent timestamp, pendingRequests'), w') /\
    (valid_random w -> valid_random w' /\ (3 <= notificationsSent <= 10)%Z).
Proof.
  intros Hvin Hpart Hemail.
  assert (Huser : ToBoolean userEmail = true).
  { destruct userEmail as [| | | |[|c e]]; try discriminate Hemail; reflexivity. }
  assert (Hbody : returns
            (fun result => exists requestId notificationsSent timestamp,
                 fst result = Create201 requestId (getEstimatedResponseTime urgency)
                                notificationsSent timestamp)
            (fun result => forall requestId estimatedResponse notificationsSent timestamp,
                 fst result = Create201 requestId estimatedResponse
                                notificationsSent timestamp ->
                 (3 <= notificationsSent <= 10)%Z)
            (let* _ := simulateDelay 300 800 in
             let* requestId := generateRequestId Date_parse in
             let* createdAt := Date_toISOString in
             let request :=
               Request.mk requestId vin partId userEmail
                 (or_default description (JSString []))
                 (or_default urgency (JSString (utf16 "normal")))
                 pending createdAt (getEstimatedResponseTime urgency) 0 None in
             let* notificationsSent := simulateSellerNotification request in
             let* timestamp := Date_toISOString in
             ret (Create201 requestId (Request.estimatedResponse request)
                    notificationsSent timestamp,
                  <[requestId := request]> pendingRequests))).
  { eapply returns_bind; [apply returns_simulateDelay|intros u _].
    eapply (returns_bind _ (fun _ => True));
      [apply returns_generateRequestId|intros id _].
    eapply (returns_bind _ (fun _ => True));
      [apply returns_Date_toISOString|intros createdAt _].
    eapply (returns_bind _ (fun n => (3 <= n <= 10)%Z));
      [apply returns_simulateSellerNotification|intros n _].
    eapply (returns_bind _ (fun _ => True));
      [apply returns_Date_toISOString|intros ts _].
    apply returns_ret; [exists id, n, ts; reflexivity|].
    intros _ Hn _ _ _ id' er' n' ts' E; cbn [fst] in E.
    injection E as _ _ <- _; exact Hn. }
  destruct (Hbody w) as [[response reqs'] [w' [Hrun [[id [n [ts Hresp]]] Hv]]]].
  cbn [fst] in Hresp; subst response.
  exists id, n, ts, reqs', w'; split.
  - unfold createPartRequest; apply try_catch_with_run.
    rewrite bind_cases in Hrun |- *.
    destruct (simulateDelay 300 800 w) as [[[]|e] w1]; [|discriminate Hrun].
    rewrite Hvin, Hpart, Huser, Hemail; cbn [negb orb]; exact Hrun.
  - intros Hw; destruct (Hv Hw) as [Hw' Hn]; split; [exact Hw'|].
    exact (Hn _ _ _ _ eq_refl).
Qed.

(** X13. A request that is created is stored under its id, and nothing else
    of the pending requests changes: the stored request has that id, the
    [vin], [partId] and [userEmail] of the body, the status pending, no
    contact attempt and no offer count, an empty description and the urgency
    "normal" where the body gives none, and the estimated response time of
    its urgency, which is the one the answer reports. *)
Theorem createPartRequest_stores (Date_parse : jsstring -> Z)
    (vin partId userEmail description urgency : jsvalue)
    (pendingRequests pendingRequests' : gmap jsstring Request.t)
    (w w' : world) (requestId estimatedResponse : jsstring) (notificationsSent : Z)
    (timestamp : jsstring) :
  createPartRequest Date_parse vin partId userEmail description urgency pendingRequests w
    = (Normal (Create201 requestId estimatedResponse notificationsSent timestamp,
               pendingRequests'), w') ->
  exists request,
    pendingRequests' !! requestId = Some request /\
    (forall other, other <> requestId ->
                   pendingRequests' !! other = pendingRequests !! other) /\
    Request.requestId request = requestId /\
    Request.vin request = vin /\ Request.partId request = partId /\
    Request.userEmail request = userEmail /\
    Request.description request = (if ToBoolean description then description
                                   else JSString []) /\
    Request.urgency request = (if ToBoolean urgency then urgency
                               else JSString (utf16 "normal")) /\
    Request.status request = pending /\
    Request.contactAttempts request = 0%Z /\ Request.offerCount request = None /\
    Request.estimatedResponse request = getEstimatedResponseTime urgency /\
    estimatedResponse = getEstimatedResponseTime urgency.
Proof.
  intros H; apply createPartRequest_inv in H.
  destruct H as [[_ [E|[E|E]]]|[id [createdAt [n [ts [w1 [w2 [w3 [w4 H]]]]]]]]];
    try discriminate E.
  destruct H as [_ [_ [_ [_ [_ [_ [Hresp ->]]]]]]].
  injection Hresp as -> -> -> ->.
  eexists; split; [apply lookup_insert_eq|].
  split; [intros other Hother; apply lookup_insert_ne; congruence|].
  cbn; repeat split.
Qed.

Lemma createPartRequest_stores_witness :
  exists requestId estimatedResponse notificationsSent timestamp pendingRequests' w',
    createPartRequest sample_parse
      (JSString (utf16 "WDB2020201F685790")) (JSString (utf16 "part-fren-001"))
      (JSString (utf16 "user@example.com")) JSUndefined (JSString (utf16 "high"))
      ∅ sample_server_world
    = (Normal (Create201 requestId estimatedResponse notificationsSent timestamp,
               pendingRequests'), w') /\
    exists request,
      pendingRequests' !! requestId = Some request /\
      Request.status request = pending /\
      Request.description request = JSString [] /\
      estimatedResponse = utf16 "4-8 saat".
Proof.
  destruct (createPartRequest_accepts sample_parse
              (JSString (utf16 "WDB2020201F685790")) (JSString (utf16 "part-fren-001"))
              (JSString (utf16 "user@example.com")) JSUndefined (JSString (utf16 "high"))
              ∅ sample_server_world)
    as [id [n [ts [reqs' [w' [Hrun _]]]]]]; try reflexivity.
  exists id, (getEstimatedResponseTime (JSString (utf16 "high"))), n, ts, reqs', w'.
  split; [exact Hrun|].
  destruct (createPartRequest_stores _ _ _ _ _ _ _ _ _ _ _ _ _ _ Hrun)
    as [request [H1 [_ [_ [_ [_ [_ [H2 [_ [H3 [_ [_ [_ H4]]]]]]]]]]]]].
  exists request; split; [exact H1|]; split; [exact H3|]; split; [exact H2|].
  reflexivity.
Defined.

(** ** getRequestStatus *)

Lemma minutes_elapsed_le (elapsed minutes : Z) :
  Qle_bool (inject_Z elapsed / inject_Z (1000 * 60)) (inject_Z minutes)
  = (elapsed <=? minutes * 60000)%Z.
Proof.
  destruct (elapsed <=? minutes * 60000)%Z eqn:E.
  - apply Z.leb_le in E; apply Qle_bool_iff.
    apply Qle_shift_div_r; [reflexivity|].
    rewrite <- inject_Z_mult, <- Zle_Qle; exact E.
  - apply Z.leb_gt in E.
    destruct (Qle_bool _ _) eqn:Q; [|reflexivity].
    apply Qle_bool_iff in Q; exfalso.
    assert (H : (inject_Z elapsed <= inject_Z minutes * inject_Z (1000 * 60))%Q).
    { apply (Qmult_le_r _ _ (/ inject_Z (1000 * 60))); [reflexivity|].
      rewrite <- Qmult_assoc, Qmult_inv_r, Qmult_1_r by discriminate.
      exact Q. }
    rewrite <- inject_Z_mult, <- Zle_Qle in H; change (1000 * 60)%Z with 60000%Z in H.
    lia.
Qed.

(** The status a reading gives is the status before or the next one. *)
Lemma status_after_step (elapsed : Z) (status : request_status) :
  status_step status (status_after elapsed status).
Proof.
  destruct status; simpl; try exact I.
  - destruct (_ <? _)%Z; exact I.
  - destruct (_ <? _)%Z; exact I.
Qed.

Lemma polled_unchanged (elapsed : Z) (r : Q) (request : Request.t) :
  status_after elapsed (Request.status request) = Request.status request ->
  polled elapsed r request = request.
Proof.
  destruct request as [id v p u d ur st c e ca oc]; unfold polled; cbn.
  destruct st; cbn; try reflexivity.
  - destruct (_ <? _)%Z; [discriminate|reflexivity].
  - destruct (_ <? _)%Z; [discriminate|reflexivity].
Qed.

Lemma update_status_run (Date_parse : jsstring -> Z) (now : jsstring)
    (request : Request.t) (w : world) :
  exists w',
    update_status Date_parse now request w
    = (Normal (polled (Date_parse now - Date_parse (Request.createdAt request))
                 (random w 0%nat) request), w') /\
    clock w' = clock w.
Proof.
  unfold update_status.
  change 30%Q with (inject_Z 30); change 60%Q with (inject_Z 60).
  rewrite !minutes_elapsed_le, <- !Z.ltb_antisym.
  set (elapsed := (Date_parse now - Date_parse (Request.createdAt request))%Z).
  destruct request as [id v p u d ur st c e ca oc]; unfold polled; cbn.
  destruct st; cbn.
  - destruct (_ <? elapsed)%Z; cbn.
    + eexists; split; reflexivity.
    + rewrite andb_false_r; eexists; split; reflexivity.
  - destruct (30 * 60000 <? elapsed)%Z; cbn; destruct (60 * 60000 <? elapsed)%Z; cbn;
      eexists; split; reflexivity.
  - rewrite !andb_false_r; eexists; split; reflexivity.
Qed.

(** A reading of a request that is there: what it answers, and what it
    leaves. *)
Lemma getRequestStatus_found (Date_parse : jsstring -> Z) (requestId : jsstring)
    (pendingRequests : gmap jsstring Request.t) (request : Request.t) (w : world) :
  pendingRequests !! requestId = Some request ->
  exists w',
    getRequestStatus Date_parse requestId pendingRequests w
    = (let request' :=
         polled (Date_parse (clock w 0%nat) - Date_parse (Request.createdAt request))
           (random w 1%nat) request in
       (Normal (RequestStatus200 request' (clock w 1%nat),
                <[requestId := request']> pendingRequests), w')) /\
    forall i, clock w' i = clock w (2 + i)%nat.
Proof.
  intros Hfound; unfold getRequestStatus.
  destruct (returns_simulateDelay 100 300 w) as [[] [w1 [Hdelay _]]].
  assert (Hw1 : clock w1 = clock w /\ random w1 0%nat = random w 1%nat).
  { unfold simulateDelay in Hdelay.
    apply bind_inv in Hdelay; destruct Hdelay as [r [w0 [Hr Hret]]].
    injection Hr as _ <-; injection Hret as <-; split; reflexivity. }
  destruct Hw1 as [Hclock Hrandom].
  set (w2 := mkWorld (arrays w1) (objects w1) (random w1) (fun n => clock w1 (S n))).
  destruct (update_status_run Date_parse (clock w1 0%nat) request w2) as [w3 [Hupdate Hclock3]].
  eexists; split.
  - apply try_catch_with_run.
    rewrite (bind_run _ _ _ _ _ Hdelay), Hfound.
    rewrite (bind_run Date_toISOString _ w1 w2 (clock w1 0%nat) eq_refl).
    rewrite (bind_run _ _ _ _ _ Hupdate).
    rewrite (bind_run Date_toISOString _ w3 _ (clock w3 0%nat) eq_refl).
    unfold ret; cbn zeta.
    rewrite Hclock3; unfold w2; cbn [clock random]; rewrite Hclock, Hrandom.
    reflexivity.
  - intros i; reflexivity.
Qed.

(** X14. A body with [vin], [partId] and a well-formed address as
    [userEmail] is answered 201, with the estimated response time of its
    urgency: the handler does not fail on it. *)
Theorem createPartRequest_accepts_wellformed (Date_parse : jsstring -> Z)
    (vin partId description urgency : jsvalue) (e : jsstring)
    (pendingRequests : gmap jsstring Request.t) (w : world) :
  ToBoolean vin = true -> ToBoolean partId = true -> email_wellformed e ->
  exists requestId notificationsSent timestamp pendingRequests' w',
    createPartRequest Date_parse vin partId (JSString e) description urgency
      pendingRequests w
    = (Normal (Create201 requestId (getEstimatedResponseTime urgency)
                 notificationsSent timestamp, pendingRequests'), w').
Proof.
  intros Hvin Hpart He.
  destruct (createPartRequest_accepts Date_parse vin partId (JSString e) description
              urgency pendingRequests w Hvin Hpart)
    as [id [n [ts [reqs' [w' [Hrun _]]]]]].
  - apply emailRegex_wellformed; exact He.
  - exists id, n, ts, reqs', w'; exact Hrun.
Qed.

Lemma createPartRequest_accepts_wellformed_witness :
  email_wellformed (utf16 "user@example.com") /\
  exists requestId notificationsSent timestamp pendingRequests' w',
    createPartRequest sample_parse
      (JSString (utf16 "WDB2020201F685790")) (JSString (utf16 "part-fren-001"))
      (JSString (utf16 "user@example.com")) JSUndefined JSUndefined
      ∅ sample_server_world
    = (Normal (Create201 requestId (utf16 "8-24 saat") notificationsSent timestamp,
               pendingRequests'), w').
Proof.
  assert (He : email_wellformed (utf16 "user@example.com")).
  { apply emailRegex_wellformed; vm_compute; reflexivity. }
  split; [exact He|].
  apply (createPartRequest_accepts_wellformed sample_parse
           (JSString (utf16 "WDB2020201F685790")) (JSString (utf16 "part-fren-001"))
           JSUndefined JSUndefined (utf16 "user@example.com") ∅ sample_server_world
           eq_refl eq_refl He).
Defined.

(** X15. Body fields taken as JSON scalars (no array, no object): a body
    that lacks [vin], [partId] or [userEmail], or whose [userEmail] is not a
    string that is a well-formed address, is answered 400: "Missing required
    fields" when one of the three is falsy, "Invalid email format"
    otherwise; and the pending requests stay as they were. *)
Theorem createPartRequest_refuses (Date_parse : jsstring -> Z)
    (vin partId userEmail description urgency : jsvalue)
    (pendingRequests : gmap jsstring Request.t) (w : world) :
  ~ (ToBoolean vin = true /\ ToBoolean partId = true /\
     exists e, userEmail = JSString e /\ email_wellformed e) ->
  exists w',
    createPartRequest Date_parse vin partId userEmail description urgency pendingRequests w
    = (Normal (if ToBoolean vin && ToBoolean partId && ToBoolean userEmail
               then Create400_email else Create400_missing,
               pendingRequests), w').
Proof.
  intros Hnot; unfold createPartRequest.
  destruct (returns_simulateDelay 300 800 w) as [[] [w1 [Hdelay _]]].
  exists w1; apply try_catch_with_run; rewrite (bind_run _ _ _ _ _ Hdelay).
  destruct (ToBoolean vin) eqn:Hvin; cbn [negb orb andb]; [|reflexivity].
  destruct (ToBoolean partId) eqn:Hpart; cbn [negb orb andb]; [|reflexivity].
  destruct (ToBoolean userEmail) eqn:Huser; cbn [negb orb andb]; [|reflexivity].
  destruct (test_email userEmail) eqn:Hemail; cbn [negb]; [|reflexivity].
  exfalso; apply Hnot; split; [reflexivity|]; split; [reflexivity|].
  destruct userEmail as [| | | |e]; try discriminate Hemail.
  exists e; split; [reflexivity|apply emailRegex_wellformed; exact Hemail].
Qed.

Lemma createPartRequest_refuses_witness :
  exists w',
    createPartRequest sample_parse
      (JSString (utf16 "WDB2020201F685790")) (JSString (utf16 "part-fren-001"))
      (JSString (utf16 "user@example")) JSUndefined JSUndefined
      sample_requests sample_server_world
    = (Normal (Create400_email, sample_requests), w').
Proof.
  apply (createPartRequest_refuses sample_parse
           (JSString (utf16 "WDB2020201F685790")) (JSString (utf16 "part-fren-001"))
           (JSString (utf16 "user@example")) JSUndefined JSUndefined
           sample_requests sample_server_world).
  intros [_ [_ [e [E He]]]]; injection E as <-.
  apply emailRegex_wellformed in He; vm_compute in He; discriminate He.
Defined.

(** X16. When the draws of [Math.random] are numbers of [0, 1), the answer
    to a request that is created reports between 3 and 10 sellers
    notified. *)
Theorem createPartRequest_notifications (Date_parse : jsstring -> Z)
    (vin partId userEmail description urgency : jsvalue)
    (pendingRequests pendingRequests' : gmap jsstring Request.t)
    (w w' : world) (requestId estimatedResponse : jsstring) (notificationsSent : Z)
    (timestamp : jsstring) :
  valid_random w ->
  createPartRequest Date_parse vin partId userEmail description urgency pendingRequests w
    = (Normal (Create201 requestId estimatedResponse notificationsSent timestamp,
               pendingRequests'), w') ->
  (3 <= notificationsSent <= 10)%Z.
Proof.
  intros Hw H.
  destruct (createPartRequest_inv _ _ _ _ _ _ _ _ _ _ _ H)
    as [[_ [E|[E|E]]]|[id [createdAt [n [ts [w1 [w2 [w3 [w4 Hinv]]]]]]]]];
    try discriminate E.
  destruct Hinv as [Hvin [Hpart [_ [Hemail _]]]].
  destruct (createPartRequest_accepts Date_parse vin partId userEmail description
              urgency pendingRequests w Hvin Hpart Hemail)
    as [id' [n' [ts' [reqs' [w'' [Hrun Hv]]]]]].
  rewrite H in Hrun; injection Hrun as _ _ -> _ _ _.
  apply Hv; exact Hw.
Qed.

Lemma createPartRequest_notifications_witness :
  exists requestId notificationsSent timestamp pendingRequests' w',
    valid_random sample_server_world /\
    createPartRequest sample_parse
      (JSString (utf16 "WDB2020201F685790")) (JSString (utf16 "part-fren-001"))
      (JSString (utf16 "user@example.com")) JSUndefined (JSString (utf16 "high"))
      ∅ sample_server_world
    = (Normal (Create201 requestId (utf16 "4-8 saat") notificationsSent timestamp,
               pendingRequests'), w') /\
    (3 <= notificationsSent <= 10)%Z.
Proof.
  destruct (createPartRequest_accepts sample_parse
              (JSString (utf16 "WDB2020201F685790")) (JSString (utf16 "part-fren-001"))
              (JSString (utf16 "user@example.com")) JSUndefined (JSString (utf16 "high"))
              ∅ sample_server_world)
    as [id [n [ts [reqs' [w' [Hrun _]]]]]]; try reflexivity.
  assert (Hw : valid_random sample_server_world) by exact sample_draws_valid.
  exists id, n, ts, reqs', w'; split; [exact Hw|]; split; [exact Hrun|].
  exact (createPartRequest_notifications _ _ _ _ _ _ _ _ _ _ _ _ _ _ Hw Hrun).
Defined.

(** X17. The status of a request id that is not among the pending requests
    is answered 404, and the pending requests stay as they were. *)
Theorem getRequestStatus_unknown (Date_parse : jsstring -> Z) (requestId : jsstring)
    (pendingRequests : gmap jsstring Request.t) (w : world) :
  pendingRequests !! requestId = None ->
  exists w',
    getRequestStatus Date_parse requestId pendingRequests w
    = (Normal (RequestStatus404, pendingRequests), w').
Proof.
  intros Hnone; unfold getRequestStatus.
  destruct (returns_simulateDelay 100 300 w) as [[] [w1 [Hdelay _]]].
  exists w1; apply try_catch_with_run.
  rewrite (bind_run _ _ _ _ _ Hdelay), Hnone; reflexivity.
Qed.

Lemma getRequestStatus_unknown_witness :
  exists w',
    getRequestStatus sample_parse (utf16 "req-0-1234") ∅ sample_server_world
    = (Normal (RequestStatus404, ∅), w').
Proof.
  apply (getRequestStatus_unknown sample_parse (utf16 "req-0-1234") ∅ sample_server_world).
  apply lookup_empty.
Defined.

(** What a reading answered with 200 went through. *)
Lemma getRequestStatus_inv (Date_parse : jsstring -> Z) (requestId : jsstring)
    (pendingRequests pendingRequests' : gmap jsstring Request.t)
    (w w' : world) (request' : Request.t) (timestamp : jsstring) :
  getRequestStatus Date_parse requestId pendingRequests w
    = (Normal (RequestStatus200 request' timestamp, pendingRequests'), w') ->
  exists request,
    pendingRequests !! requestId = Some request /\
    request' = polled (Date_parse (clock w 0%nat)
                       - Date_parse (Request.createdAt request))
                 (random w 1%nat) request /\
    pendingRequests' = <[requestId := request']> pendingRequests.
Proof.
  intros H; destruct (pendingRequests !! requestId) as [request|] eqn:Hlookup.
  - destruct (getRequestStatus_found Date_parse requestId pendingRequests request w Hlookup)
      as [w'' [Hrun _]].
    rewrite H in Hrun; cbn zeta in Hrun; injection Hrun as -> _ -> _.
    exists request; repeat split.
  - destruct (getRequestStatus_unknown Date_parse requestId pendingRequests w Hlookup)
      as [w'' Hrun].
    rewrite H in Hrun; discriminate Hrun.
Qed.

(** X18. A reading answered with 200 reports a request that was pending
    under that id, with its status as it was or moved one step (pending to
    in_progress, in_progress to offers_received); the other fields that
    identify the request are as they were, a request whose status did not
    move is reported as it was, and only the entry of that id is written. *)
Theorem getRequestStatus_reports (Date_parse : jsstring -> Z) (requestId : jsstring)
    (pendingRequests pendingRequests' : gmap jsstring Request.t)
    (w w' : world) (request' : Request.t) (timestamp : jsstring) :
  getRequestStatus Date_parse requestId pendingRequests w
    = (Normal (RequestStatus200 request' timestamp, pendingRequests'), w') ->
  exists request,
    pendingRequests !! requestId = Some request /\
    pendingRequests' !! requestId = Some request' /\
    (forall other, other <> requestId ->
                   pendingRequests' !! other = pendingRequests !! other) /\
    status_step (Request.status request) (Request.status request') /\
    Request.requestId request' = Request.requestId request /\
    Request.vin request' = Request.vin request /\
    Request.partId request' = Request.partId request /\
    Request.userEmail request' = Request.userEmail request /\
    Request.description request' = Request.description request /\
    Request.urgency request' = Request.urgency request /\
    Request.createdAt request' = Request.createdAt request /\
    Request.estimatedResponse request' = Request.estimatedResponse request /\
    (Request.status request' = Request.status request -> request' = request).
Proof.
  intros H; apply getRequestStatus_inv in H.
  destruct H as [request [Hlookup [-> ->]]].
  exists request; split; [exact Hlookup|].
  split; [apply lookup_insert_eq|].
  split; [intros other Hother; apply lookup_insert_ne; congruence|].
  split; [apply status_after_step|].
  do 8 (split; [reflexivity|]).
  intros Hsame; apply polled_unchanged; exact Hsame.
Qed.

Lemma getRequestStatus_reports_witness :
  exists request' timestamp pendingRequests' w',
    getRequestStatus sample_parse (utf16 "req-0-1234") sample_requests sample_late_world
    = (Normal (RequestStatus200 request' timestamp, pendingRequests'), w') /\
    pendingRequests' !! utf16 "req-0-1234" = Some request' /\
    Request.vin request' = JSString (utf16 "WDB2020201F685790").
Proof.
  destruct (getRequestStatus_found sample_parse (utf16 "req-0-1234") sample_requests
              sample_request sample_late_world (lookup_singleton_eq _ _))
    as [w' [Hrun _]].
  cbn zeta in Hrun.
  do 4 eexists; split; [exact Hrun|].
  destruct (getRequestStatus_reports _ _ _ _ _ _ _ _ Hrun)
    as [request [_ [H1 [_ [_ [_ [H2 _]]]]]]].
  split; [exact H1|reflexivity].
Defined.

(** X19. A reading of a request that is pending under its id is answered
    200 (never 500), with the time of the reading as it starts compared with
    the time the request was created: a pending request moves to in_progress
    when more than 30 minutes have passed, an in_progress request to
    offers_received when more than 60 minutes have passed, and otherwise the
    status stays. *)
Theorem getRequestStatus_timing (Date_parse : jsstring -> Z) (requestId : jsstring)
    (pendingRequests : gmap jsstring Request.t) (request : Request.t) (w : world) :
  pendingRequests !! requestId = Some request ->
  exists request' timestamp pendingRequests' w',
    getRequestStatus Date_parse requestId pendingRequests w
    = (Normal (RequestStatus200 request' timestamp, pendingRequests'), w') /\
    Request.status request'
    = status_after (Date_parse (clock w 0%nat) - Date_parse (Request.createdAt request))
        (Request.status request).
Proof.
  intros Hlookup.
  destruct (getRequestStatus_found Date_parse requestId pendingRequests request w Hlookup)
    as [w' [Hrun _]].
  cbn zeta in Hrun.
  do 4 eexists; split; [exact Hrun|reflexivity].
Qed.

Lemma getRequestStatus_timing_witness :
  exists request' timestamp pendingRequests' w',
    getRequestStatus sample_parse (utf16 "req-0-1234") sample_requests sample_late_world
    = (Normal (RequestStatus200 request' timestamp, pendingRequests'), w') /\
    Request.status request' = in_progress.
Proof.
  destruct (getRequestStatus_timing sample_parse (utf16 "req-0-1234") sample_requests
              sample_request sample_late_world (lookup_singleton_eq _ _))
    as [request' [ts [reqs' [w' [Hrun Hstatus]]]]].
  exists request', ts, reqs', w'; split; [exact Hrun|].
  rewrite Hstatus; vm_compute; reflexivity.
Defined.

Lemma polled_pending (elapsed : Z) (r : Q) (request : Request.t) :
  Request.status request = pending -> (30 * 60000 < elapsed)%Z ->
  Request.status (polled elapsed r request) = in_progress /\
  Request.contactAttempts (polled elapsed r request) = (Math_floor (r * 3) + 1)%Z /\
  Request.offerCount (polled elapsed r request) = Request.offerCount request.
Proof.
  intros Hstatus Hlate; apply Z.ltb_lt in Hlate.
  unfold polled; cbn; rewrite Hstatus; cbn; rewrite Hlate; repeat split.
Qed.

Lemma polled_in_progress (elapsed : Z) (r : Q) (request : Request.t) :
  Request.status request = in_progress -> (60 * 60000 < elapsed)%Z ->
  Request.status (polled elapsed r request) = offers_received /\
  Request.contactAttempts (polled elapsed r request) = Request.contactAttempts request /\
  Request.offerCount (polled elapsed r request) = Some (Math_floor (r * 5) + 1)%Z.
Proof.
  intros Hstatus Hlate; apply Z.ltb_lt in Hlate.
  unfold polled; cbn; rewrite Hstatus; cbn; rewrite Hlate; repeat split.
Qed.

(** X20. A pending request that is first read more than 60 minutes after it
    was created is reported in_progress, not offers_received, and with its
    offer count left as it was: the offers are reported by the next
    reading. *)
Theorem offers_take_two_readings (Date_parse : jsstring -> Z) (requestId : jsstring)
    (pendingRequests : gmap jsstring Request.t) (request : Request.t) (w : world) :
  pendingRequests !! requestId = Some request ->
  Request.status request = pending ->
  (60 * 60000 < Date_parse (clock w 0%nat) - Date_parse (Request.createdAt request))%Z ->
  (60 * 60000 < Date_parse (clock w 2%nat) - Date_parse (Request.createdAt request))%Z ->
  exists first timestamp1 pendingRequests1 w1 second timestamp2 pendingRequests2 w2,
    getRequestStatus Date_parse requestId pendingRequests w
    = (Normal (RequestStatus200 first timestamp1, pendingRequests1), w1) /\
    Request.status first = in_progress /\
    Request.offerCount first = Request.offerCount request /\
    getRequestStatus Date_parse requestId pendingRequests1 w1
    = (Normal (RequestStatus200 second timestamp2, pendingRequests2), w2) /\
    Request.status second = offers_received /\
    exists n, Request.offerCount second = Some n.
Proof.
  intros Hlookup Hpending Hlate0 Hlate2.
  destruct (getRequestStatus_found Date_parse requestId pendingRequests request w Hlookup)
    as [w1 [Hrun1 Hclock1]].
  cbn zeta in Hrun1.
  assert (Hlate1 : (30 * 60000 < Date_parse (clock w 0%nat)
                                 - Date_parse (Request.createdAt request))%Z) by lia.
  destruct (polled_pending _ (random w 1%nat) request Hpending Hlate1)
    as [Hfirst [_ Hcount]].
  set (first := polled _ _ request) in *.
  destruct (getRequestStatus_found Date_parse requestId
              (<[requestId := first]> pendingRequests) first w1 (lookup_insert_eq _ _ _))
    as [w2 [Hrun2 _]].
  cbn zeta in Hrun2.
  assert (Hlate : (60 * 60000 < Date_parse (clock w1 0%nat)
                                - Date_parse (Request.createdAt first))%Z).
  { rewrite Hclock1; exact Hlate2. }
  destruct (polled_in_progress _ (random w1 1%nat) first Hfirst Hlate)
    as [Hsecond [_ Hoffers]].
  do 8 eexists; split; [exact Hrun1|].
  split; [exact Hfirst|].
  split; [exact Hcount|].
  split; [exact Hrun2|].
  split; [exact Hsecond|eexists; exact Hoffers].
Qed.

Lemma offers_take_two_readings_witness :
  exists first timestamp1 pendingRequests1 w1 second timestamp2 pendingRequests2 w2,
    getRequestStatus sample_parse (utf16 "req-0-1234") sample_requests sample_late_world
    = (Normal (RequestStatus200 first timestamp1, pendingRequests1), w1) /\
    Request.status first = in_progress /\
    getRequestStatus sample_parse (utf16 "req-0-1234") pendingRequests1 w1
    = (Normal (RequestStatus200 second timestamp2, pendingRequests2), w2) /\
    Request.status second = offers_received.
Proof.
  destruct (offers_take_two_readings sample_parse (utf16 "req-0-1234") sample_requests
              sample_request sample_late_world (lookup_singleton_eq _ _) eq_refl)
    as [r1 [ts1 [reqs1 [w1 [r2 [ts2 [reqs2 [w2 [H1 [H2 [_ [H3 [H4 _]]]]]]]]]]]]].
  - vm_compute; reflexivity.
  - vm_compute; reflexivity.
  - exists r1, ts1, reqs1, w1, r2, ts2, reqs2, w2; repeat split; assumption.
Defined.

Lemma contact_range (r : Q) :
  (0 <= r)%Q -> (r < 1)%Q -> (1 <= Math_floor (r * 3) + 1 <= 3)%Z.
Proof.
  intros H0 H1.
  assert (0 <= Qfloor (r * 3) < 3)%Z; [|unfold Math_floor; lia].
  apply floor_bounds; unfold inject_Z; lra.
Qed.

Lemma offer_count_range (r : Q) :
  (0 <= r)%Q -> (r < 1)%Q -> (1 <= Math_floor (r * 5) + 1 <= 5)%Z.
Proof.
  intros H0 H1.
  assert (0 <= Qfloor (r * 5) < 5)%Z; [|unfold Math_floor; lia].
  apply floor_bounds; unfold inject_Z; lra.
Qed.

(** X21. When the draws of [Math.random] are numbers of [0, 1), a reading
    that moves the status of a request either moves it to in_progress and
    sets its contact attempts to a number from 1 to 3, leaving the offer
    count, or moves it to offers_received and sets its offer count to a
    number from 1 to 5, leaving the contact attempts. *)
Theorem getRequestStatus_counts (Date_parse : jsstring -> Z) (requestId : jsstring)
    (pendingRequests pendingRequests' : gmap jsstring Request.t)
    (w w' : world) (request request' : Request.t) (timestamp : jsstring) :
  valid_random w ->
  pendingRequests !! requestId = Some request ->
  getRequestStatus Date_parse requestId pendingRequests w
    = (Normal (RequestStatus200 request' timestamp, pendingRequests'), w') ->
  Request.status request' <> Request.status request ->
  (Request.status request = pending /\ Request.status request' = in_progress /\
   (1 <= Request.contactAttempts request' <= 3)%Z /\
   Request.offerCount request' = Request.offerCount request) \/
  (Request.status request = in_progress /\ Request.status request' = offers_received /\
   Request.contactAttempts request' = Request.contactAttempts request /\
   exists n, Request.offerCount request' = Some n /\ (1 <= n <= 5)%Z).
Proof.
  intros Hw Hlookup H Hmoved; apply getRequestStatus_inv in H.
  destruct H as [request0 [Hlookup0 [-> _]]].
  rewrite Hlookup in Hlookup0; injection Hlookup0 as <-.
  destruct (Hw 1%nat) as [H0 H1].
  set (elapsed := (Date_parse (clock w 0%nat)
                   - Date_parse (Request.createdAt request))%Z) in *.
  destruct (Request.status request) eqn:Hstatus.
  - left; split; [reflexivity|].
    destruct (Z.ltb_spec (30 * 60000) elapsed) as [Hlate|Hearly].
    + destruct (polled_pending elapsed (random w 1%nat) request Hstatus Hlate)
        as [Hs [Hc Ho]].
      rewrite Hs, Hc, Ho; split; [reflexivity|]; split; [|reflexivity].
      apply contact_range; assumption.
    + exfalso; apply Hmoved; unfold polled; cbn; rewrite Hstatus; cbn.
      destruct (Z.ltb_spec (30 * 60000) elapsed); [lia|reflexivity].
  - right; split; [reflexivity|].
    destruct (Z.ltb_spec (60 * 60000) elapsed) as [Hlate|Hearly].
    + destruct (polled_in_progress elapsed (random w 1%nat) request Hstatus Hlate)
        as [Hs [Hc Ho]].
      rewrite Hs, Hc, Ho; split; [reflexivity|]; split; [reflexivity|].
      eexists; split; [reflexivity|apply offer_count_range; assumption].
    + exfalso; apply Hmoved; unfold polled; cbn; rewrite Hstatus; cbn.
      destruct (Z.ltb_spec (60 * 60000) elapsed); [lia|reflexivity].
  - exfalso; apply Hmoved; unfold polled; cbn; rewrite Hstatus; reflexivity.
Qed.

Lemma getRequestStatus_counts_witness :
  exists request' timestamp pendingRequests' w',
    getRequestStatus sample_parse (utf16 "req-0-1234") sample_requests sample_late_world
    = (Normal (RequestStatus200 request' timestamp, pendingRequests'), w') /\
    Request.status request' = in_progress /\
    (1 <= Request.contactAttempts request' <= 3)%Z.
Proof.
  destruct (getRequestStatus_found sample_parse (utf16 "req-0-1234") sample_requests
              sample_request sample_late_world (lookup_singleton_eq _ _))
    as [w' [Hrun _]].
  cbn zeta in Hrun.
  do 4 eexists; split; [exact Hrun|].
  assert (Hw : valid_random sample_late_world) by exact sample_draws_valid.
  destruct (getRequestStatus_counts _ _ _ _ _ _ _ _ _ Hw (lookup_singleton_eq _ _) Hrun)
    as [[_ [Hs [Hc _]]]|[Hs _]].
  - vm_compute; discriminate.
  - split; [exact Hs|exact Hc].
  - discriminate Hs.
Defined.

(** X22. A request that was created can be read back: the status of its id,
    asked of the pending requests it left, is answered 200 with the id, the
    [vin], [partId] and [userEmail] of the body and the estimated response
    time the creation reported; the status is pending, or in_progress when
    more than 30 minutes have passed, and there is no offer count yet. *)
Theorem created_request_is_found (Date_parse : jsstring -> Z)
    (vin partId userEmail description urgency : jsvalue)
    (pendingRequests pendingRequests' : gmap jsstring Request.t)
    (w w' : world) (requestId estimatedResponse : jsstring) (notificationsSent : Z)
    (timestamp : jsstring) :
  createPartRequest Date_parse vin partId userEmail description urgency pendingRequests w
    = (Normal (Create201 requestId estimatedResponse notificationsSent timestamp,
               pendingRequests'), w') ->
  exists request timestamp' pendingRequests'' w'',
    getRequestStatus Date_parse requestId pendingRequests' w'
    = (Normal (RequestStatus200 request timestamp', pendingRequests''), w'') /\
    Request.requestId request = requestId /\
    Request.vin request = vin /\ Request.partId request = partId /\
    Request.userEmail request = userEmail /\
    Request.estimatedResponse request = estimatedResponse /\
    (Request.status request = pending \/ Request.status request = in_progress) /\
    Request.offerCount request = None.
Proof.
  intros H; apply createPartRequest_inv in H.
  destruct H as [[_ [E|[E|E]]]|[id [createdAt [n [ts [w1 [w2 [w3 [w4 H]]]]]]]]];
    try discriminate E.
  destruct H as [_ [_ [_ [_ [_ [_ [Hresp ->]]]]]]].
  injection Hresp as -> -> -> ->.
  match goal with
  | |- context [<[id := ?r]> pendingRequests] => set (request := r)
  end.
  destruct (getRequestStatus_found Date_parse id (<[id := request]> pendingRequests)
              request w' (lookup_insert_eq _ _ _))
    as [w'' [Hrun _]].
  cbn zeta in Hrun.
  do 4 eexists; split; [exact Hrun|].
  do 5 (split; [reflexivity|]).
  split; [|reflexivity].
  unfold polled, request; cbn.
  destruct (_ <? _)%Z; [right|left]; reflexivity.
Qed.

Lemma created_request_is_found_witness :
  exists requestId estimatedResponse notificationsSent timestamp pendingRequests' w',
    createPartRequest sample_parse
      (JSString (utf16 "WDB2020201F685790")) (JSString (utf16 "part-fren-001"))
      (JSString (utf16 "user@example.com")) JSUndefined (JSString (utf16 "high"))
      ∅ sample_server_world
    = (Normal (Create201 requestId estimatedResponse notificationsSent timestamp,
               pendingRequests'), w') /\
    exists request timestamp' pendingRequests'' w'',
      getRequestStatus sample_parse requestId pendingRequests' w'
      = (Normal (RequestStatus200 request timestamp', pendingRequests''), w'') /\
      Request.vin request = JSString (utf16 "WDB2020201F685790").
Proof.
  destruct (createPartRequest_accepts sample_parse
              (JSString (utf16 "WDB2020201F685790")) (JSString (utf16 "part-fren-001"))
              (JSString (utf16 "user@example.com")) JSUndefined (JSString (utf16 "high"))
              ∅ sample_server_world)
    as [id [n [ts [reqs' [w' [Hrun _]]]]]]; try reflexivity.
  exists id, (getEstimatedResponseTime (JSString (utf16 "high"))), n, ts, reqs', w'.
  split; [exact Hrun|].
  destruct (created_request_is_found _ _ _ _ _ _ _ _ _ _ _ _ _ _ Hrun)
    as [request [ts' [reqs'' [w'' [Hstatus [_ [Hvin _]]]]]]].
  exists request, ts', reqs'', w''; split; [exact Hstatus|exact Hvin].
Defined.

(** * Properties of the vehicle lookup *)

Lemma find_vehicle_None (mockVehicles : list Vehicle.t) (vin : jsstring) :
  find_vehicle mockVehicles (JSString vin) = None ->
  Forall (fun v => Vehicle.vin v <> vin) mockVehicles.
Proof.
  unfold find_vehicle; intros H; apply List.Forall_forall; intros v Hin E.
  apply (find_none _ _ H) in Hin; cbn in Hin.
  apply bool_decide_eq_false in Hin; apply Hin; symmetry; exact E.
Qed.

Lemma find_vehicle_Some (mockVehicles : list Vehicle.t) (vin : jsstring)
    (vehicle : Vehicle.t) :
  find_vehicle mockVehicles (JSString vin) = Some vehicle ->
  In vehicle mockVehicles /\ Vehicle.vin vehicle = vin.
Proof.
  unfold find_vehicle; intros H; apply find_In in H; destruct H as [Hin E].
  cbn in E; apply bool_decide_eq_true in E; split; [exact Hin|symmetry; exact E].
Qed.

(** X23. [getVehicleByVIN] always answers, and never with 500: with 400
    exactly when the VIN is not well formed; with 200 and a vehicle of the
    file that has exactly that VIN when there is one; and with 404 when the
    VIN is well formed and no vehicle of the file has exactly that VIN. *)
Theorem getVehicleByVIN_answers (mockVehicles : list Vehicle.t) (vin : jsstring)
    (w : world) :
  exists response w',
    getVehicleByVIN mockVehicles vin w = (Normal response, w') /\
    match response with
    | Vehicle400 => isValidVIN (JSString vin) = false
    | Vehicle404 v =>
      v = vin /\ isValidVIN (JSString vin) = true /\
      Forall (fun x => Vehicle.vin x <> vin) mockVehicles
    | Vehicle500 => False
    | Vehicle200 data _ =>
      isValidVIN (JSString vin) = true /\ In data mockVehicles /\ Vehicle.vin data = vin
    end.
Proof.
  unfold getVehicleByVIN.
  destruct (returns_simulateDelay 200 800 w) as [[] [w1 [Hdelay _]]].
  destruct (isValidVIN (JSString vin)) eqn:Hvin.
  - destruct (find_vehicle mockVehicles (JSString vin)) as [vehicle|] eqn:Hfind.
    + eexists; eexists; split.
      * apply try_catch_with_run.
        rewrite (bind_run _ _ _ _ _ Hdelay); cbn [negb].
        rewrite (bind_run Date_toISOString _ w1 _ _ eq_refl); reflexivity.
      * cbn; split; [reflexivity|apply find_vehicle_Some; exact Hfind].
    + eexists; eexists; split.
      * apply try_catch_with_run.
        rewrite (bind_run _ _ _ _ _ Hdelay); reflexivity.
      * cbn; split; [reflexivity|]; split; [reflexivity|].
        apply find_vehicle_None; exact Hfind.
  - eexists; eexists; split.
    + apply try_catch_with_run.
      rewrite (bind_run _ _ _ _ _ Hdelay); reflexivity.
    + reflexivity.
Qed.

Lemma filter_sublist_of {A} (f : A -> bool) (l : list A) : sublist (List.filter f l) l.
Proof.
  induction l as [|x l IH]; simpl.
  - constructor.
  - destruct (f x); [apply sublist_skip|apply sublist_cons]; exact IH.
Qed.

(** The run of [searchVehicles]. *)
Lemma searchVehicles_run (toLowerCase : jsstring -> jsstring)
    (mockVehicles : list Vehicle.t) (make model year : option jsstring) (w : world) :
  exists data timestamp w',
    searchVehicles toLowerCase mockVehicles make model year w
    = (Normal (VehicleSearch200 data (length data) make model year timestamp), w') /\
    data =
    (let by_make :=
       match make with
       | Some (c :: m) =>
         List.filter
           (fun v => includes (toLowerCase (Vehicle.make v)) (toLowerCase (c :: m)))
           mockVehicles
       | _ => mockVehicles
       end in
     let by_model :=
       match model with
       | Some (c :: m) =>
         List.filter
           (fun v => includes (toLowerCase (Vehicle.model v)) (toLowerCase (c :: m)))
           by_make
       | _ => by_make
       end in
     match year with
     | Some (c :: y) =>
       match parseInt (c :: y) with
       | Some yearNum => List.filter (fun v => (Vehicle.year v =? yearNum)%Z) by_model
       | None => by_model
       end
     | _ => by_model
     end).
Proof.
  unfold searchVehicles.
  destruct (returns_simulateDelay 150 400 w) as [[] [w1 [Hdelay _]]].
  eexists; eexists; eexists; split; [|reflexivity].
  apply try_catch_with_run.
  rewrite (bind_run _ _ _ _ _ Hdelay); cbn zeta.
  rewrite (bind_run Date_toISOString _ w1 _ _ eq_refl); reflexivity.
Qed.

(** X24. Query values taken as strings or absent (no repeated or bracketed
    key): [searchVehicles] then always answers 200, with the vehicles of the
    file that pass every filter the query gives, in the order of the file,
    and their number.  A vehicle passes [make] when its make holds it, both in
    lower case, and [model] likewise; it passes [year] when its year is the
    integer [parseInt] reads from it; an empty filter, and a [year] that
    [parseInt] cannot read, let every vehicle pass. *)
Theorem searchVehicles_results (toLowerCase : jsstring -> jsstring)
    (mockVehicles : list Vehicle.t) (make model year : option jsstring) (w : world) :
  exists data timestamp w',
    searchVehicles toLowerCase mockVehicles make model year w
    = (Normal (VehicleSearch200 data (length data) make model year timestamp), w') /\
    sublist data mockVehicles /\
    forall v,
      In v data <->
      In v mockVehicles /\
      (forall c m, make = Some (c :: m) ->
         includes (toLowerCase (Vehicle.make v)) (toLowerCase (c :: m)) = true) /\
      (forall c m, model = Some (c :: m) ->
         includes (toLowerCase (Vehicle.model v)) (toLowerCase (c :: m)) = true) /\
      (forall c y n, year = Some (c :: y) -> parseInt (c :: y) = Some n ->
         Vehicle.year v = n).
Proof.
  destruct (searchVehicles_run toLowerCase mockVehicles make model year w)
    as [data [ts [w' [Hrun ->]]]].
  eexists; eexists; eexists; split; [exact Hrun|]; cbn zeta; split.
  - destruct make as [[|c1 m1]|], model as [[|c2 m2]|], year as [[|c3 y3]|];
      try destruct (parseInt (c3 :: y3));
      repeat (etransitivity; [apply filter_sublist_of|]); reflexivity.
  - intros v.
    destruct make as [[|c1 m1]|], model as [[|c2 m2]|], year as [[|c3 y3]|];
      try destruct (parseInt (c3 :: y3)) as [n3|] eqn:Hparse;
      rewrite ?filter_In, ?Z.eqb_eq;
      (split;
       [intros H; repeat match goal with H' : _ /\ _ |- _ => destruct H' end;
        repeat split; try assumption; intros; congruence
       |intros [Hin [Hmake [Hmodel Hyear]]];
        repeat split;
        first [exact Hin|eapply Hmake; reflexivity|eapply Hmodel; reflexivity
              |eapply Hyear; [reflexivity|eassumption]]]).
Qed.

(** ** parseInt on the decimal form of an integer *)

Lemma parse_digits_acc (u : Decimal.uint) (a : positive) :
  parse_digits 10 (uint_units u) (Some (Z.pos a)) = Some (Z.pos (Pos.of_uint_acc u a)).
Proof.
  revert a; induction u; intros a; cbn [uint_units parse_digits Pos.of_uint_acc];
    [reflexivity|..];
    (match goal with
     | |- context [digit_value ?c] =>
       let d := eval vm_compute in (digit_value c) in change (digit_value c) with d
     end;
     cbv iota beta;
     match goal with
     | |- context [(?d <? 10)%Z] => change (d <? 10)%Z with true
     end;
     cbv iota; rewrite <- IHu; f_equal; f_equal; lia).
Qed.

Lemma parse_digits_zero (u : Decimal.uint) :
  parse_digits 10 (uint_units u) (Some 0%Z) = Some (Z.of_N (Pos.of_uint u)).
Proof.
  induction u; cbn [uint_units parse_digits Pos.of_uint];
    [reflexivity|..];
    (match goal with
     | |- context [digit_value ?c] =>
       let d := eval vm_compute in (digit_value c) in change (digit_value c) with d
     end;
     cbv iota beta;
     match goal with
     | |- context [(?d <? 10)%Z] => change (d <? 10)%Z with true
     end;
     cbv iota);
    [exact IHu|..]; apply parse_digits_acc.
Qed.

Lemma parse_digits_units (u : Decimal.uint) :
  u <> Decimal.Nil ->
  parse_digits 10 (uint_units u) None = Some (Z.of_N (Pos.of_uint u)).
Proof.
  intros Hu; destruct u; [contradiction|..];
    cbn [uint_units parse_digits Pos.of_uint];
    (match goal with
     | |- context [digit_value ?c] =>
       let d := eval vm_compute in (digit_value c) in change (digit_value c) with d
     end;
     cbv iota beta;
     match goal with
     | |- context [(?d <? 10)%Z] => change (d <? 10)%Z with true
     end;
     cbv iota);
    [apply parse_digits_zero|..]; apply parse_digits_acc.
Qed.

(** The code units of a decimal numeral are digits. *)
Lemma uint_units_digits (u : Decimal.uint) :
  Forall (fun c => (48 <= c <= 57)%N) (uint_units u).
Proof. induction u; cbn [uint_units]; constructor; try assumption; lia. Qed.

Lemma digit_not_space (c : codeunit) : (48 <= c <= 57)%N -> is_whitespace c = false.
Proof.
  intros Hc.
  assert (H : (c = 48 \/ c = 49 \/ c = 50 \/ c = 51 \/ c = 52 \/ c = 53 \/ c = 54 \/
               c = 55 \/ c = 56 \/ c = 57)%N) by lia.
  repeat destruct H as [H|H]; subst c; reflexivity.
Qed.

Lemma no_hex_prefix (c : codeunit) (s : jsstring) :
  Forall (fun c => (48 <= c <= 57)%N) (c :: s) ->
  match s with
  | x :: rest =>
    if ((c =? 48) && ((x =? 120) || (x =? 88)))%N then (16%Z, rest)
    else (10%Z, c :: s)
  | [] => (10%Z, c :: s)
  end = (10%Z, c :: s).
Proof.
  intros H; destruct s as [|x rest]; [reflexivity|].
  inversion H as [|c' s' _ Hs]; subst; inversion Hs as [|x' r' Hx _]; subst.
  assert (Hx' : ((x =? 120) || (x =? 88))%N = false).
  { apply orb_false_iff; split; apply N.eqb_neq; lia. }
  rewrite Hx', andb_false_r; reflexivity.
Qed.

Lemma parseInt_digits (c : codeunit) (s : jsstring) :
  Forall (fun c => (48 <= c <= 57)%N) (c :: s) ->
  parseInt (c :: s) = parse_digits 10 (c :: s) None.
Proof.
  intros H; pose proof (no_hex_prefix c s H) as Hprefix.
  inversion H as [|c' s' Hc Hs]; subst.
  unfold parseInt; cbn [trimStart]; rewrite (digit_not_space c Hc).
  assert (H45 : (c =? 45)%N = false) by (apply N.eqb_neq; lia).
  assert (H43 : (c =? 43)%N = false) by (apply N.eqb_neq; lia).
  rewrite H45, H43; cbv beta iota zeta.
  match goal with
  | |- context [match ?m with (radix, digits) => _ end] =>
    replace m with (10%Z, c :: s) by (symmetry; exact Hprefix)
  end.
  destruct (parse_digits 10 (c :: s) None) as [n|]; [|reflexivity].
  f_equal; lia.
Qed.

Lemma parseInt_negative (c : codeunit) (s : jsstring) :
  Forall (fun c => (48 <= c <= 57)%N) (c :: s) ->
  parseInt (45%N :: c :: s)
  = match parse_digits 10 (c :: s) None with
    | Some n => Some (- n)%Z
    | None => None
    end.
Proof.
  intros H; pose proof (no_hex_prefix c s H) as Hprefix.
  unfold parseInt; cbn [trimStart].
  change (is_whitespace 45%N) with false; cbv iota.
  change (45 =? 45)%N with true; cbv beta iota zeta.
  match goal with
  | |- context [match ?m with (radix, digits) => _ end] =>
    replace m with (10%Z, c :: s) by (symmetry; exact Hprefix)
  end.
  destruct (parse_digits 10 (c :: s) None) as [n|]; [|reflexivity].
  f_equal; lia.
Qed.

Lemma to_uint_units (p : positive) :
  exists c s, uint_units (Pos.to_uint p) = c :: s /\
              parse_digits 10 (c :: s) None = Some (Z.pos p).
Proof.
  assert (Hne : Pos.to_uint p <> Decimal.Nil).
  { intros E; pose proof (DecimalPos.Unsigned.of_to p) as H.
    rewrite E in H; discriminate H. }
  pose proof (parse_digits_units _ Hne) as Hparse.
  rewrite DecimalPos.Unsigned.of_to in Hparse.
  destruct (uint_units (Pos.to_uint p)) as [|c s] eqn:E.
  - destruct (Pos.to_uint p); try contradiction; discriminate E.
  - exists c, s; split; [reflexivity|exact Hparse].
Qed.

(** [parseInt] reads back the decimal form of an integer. *)
Lemma parseInt_toString (z : Z) :
  exists c s, Number_toString_integer z = c :: s /\ parseInt (c :: s) = Some z.
Proof.
  unfold Number_toString_integer; destruct z as [|p|p]; cbn [Z.to_int].
  - eexists; eexists; split; reflexivity.
  - destruct (to_uint_units p) as [c [s [E Hparse]]].
    exists c, s; split; [exact E|].
    rewrite parseInt_digits, Hparse; [reflexivity|].
    rewrite <- E; apply uint_units_digits.
  - destruct (to_uint_units p) as [c [s [E Hparse]]].
    exists 45%N, (uint_units (Pos.to_uint p)); split; [reflexivity|].
    rewrite E, parseInt_negative, Hparse; [reflexivity|].
    rewrite <- E; apply uint_units_digits.
Qed.

(** X25. Searching the vehicles by the year of a vehicle of the file, in
    decimal digits and with no other filter, finds that vehicle, and every
    vehicle found is of that year. *)
Theorem searchVehicles_by_year (toLowerCase : jsstring -> jsstring)
    (mockVehicles : list Vehicle.t) (v : Vehicle.t) (w : world) :
  In v mockVehicles ->
  exists data timestamp w',
    searchVehicles toLowerCase mockVehicles None None
      (Some (Number_toString_integer (Vehicle.year v))) w
    = (Normal (VehicleSearch200 data (length data) None None
                 (Some (Number_toString_integer (Vehicle.year v))) timestamp), w') /\
    In v data /\
    Forall (fun x => Vehicle.year x = Vehicle.year v) data.
Proof.
  intros Hin.
  destruct (searchVehicles_run toLowerCase mockVehicles None None
              (Some (Number_toString_integer (Vehicle.year v))) w)
    as [data [ts [w' [Hrun Hdata]]]].
  exists data, ts, w'; split; [exact Hrun|].
  destruct (parseInt_toString (Vehicle.year v)) as [c [s [E Hparse]]].
  cbn zeta in Hdata; rewrite E, Hparse in Hdata; subst data; split.
  - apply filter_In; split; [exact Hin|apply Z.eqb_refl].
  - apply List.Forall_forall; intros x Hx.
    apply filter_In in Hx; destruct Hx as [_ Hx]; apply Z.eqb_eq; exact Hx.
Qed.

Lemma searchVehicles_by_year_witness :
  exists data timestamp w',
    searchVehicles toLowerCase_latin sample_vehicles None None (Some (utf16 "2020"))
      sample_server_world
    = (Normal (VehicleSearch200 data (length data) None None (Some (utf16 "2020"))
                 timestamp), w') /\
    data <> [].
Proof.
  destruct (searchVehicles_by_year toLowerCase_latin sample_vehicles
              (Vehicle.mk (utf16 "WDB2020201F685790") (utf16 "Mercedes-Benz")
                 (utf16 "A180") 2020 (map utf16 ["Motor"; "Fren"]%string))
              sample_server_world (or_introl eq_refl))
    as [data [ts [w' [Hrun [Hin _]]]]].
  exists data, ts, w'; split; [exact Hrun|].
  intros E; rewrite E in Hin; exact Hin.
Defined.

(** * Properties of the catalogue handlers *)


(** Every name of [Object.keys] has its own property. *)
Lemma own_property_keys {V} (key : jsstring) (o : list (jsstring * V)) :
  In key (map fst o) -> exists v, own_property key o = Some v.
Proof.
  induction o as [|[k x] o IH]; simpl; [contradiction|].
  intros Hin; destruct (bool_decide (k = key)) eqn:E.
  - exists x; reflexivity.
  - apply bool_decide_eq_false in E.
    destruct Hin as [Hk|Hin]; [contradiction|apply IH; exact Hin].
Qed.

Lemma includes_category (category : jsstring) (categories : list jsstring) :
  existsb (fun c => bool_decide (c = category)) categories = true <-> In category categories.
Proof.
  rewrite existsb_exists; split.
  - intros [c [Hin E]]; apply bool_decide_eq_true in E; subst c; exact Hin.
  - intros Hin; exists category; split; [exact Hin|apply bool_decide_eq_true; reflexivity].
Qed.

(** X26. [getPartsByCategory] always answers, and never with 500.  Its
    answers, in the order they are tried: 400 when the VIN is not well
    formed; 404 when no vehicle of the file has exactly that VIN; 404 with
    the categories of the vehicle when the category is not one of them; 404
    with the categories of the catalogue when the catalogue has no such
    name; and else 200, with the vehicle, the parts the catalogue has under
    that category and their number, or, when the name is not a category of
    the catalogue but one of [Object.prototype], with what that gives. *)
Theorem getPartsByCategory_answers (mockVehicles : list Vehicle.t)
    (mockParts : list (jsstring * list CatalogPart.t))
    (Object_prototype : jsstring -> option jsvalue) (vin category : jsstring) (w : world) :
  exists response w',
    getPartsByCategory mockVehicles mockParts Object_prototype vin category w
    = (Normal response, w') /\
    match response with
    | Parts400 => isValidVIN (JSString vin) = false
    | Parts404_vehicle v =>
      v = vin /\ isValidVIN (JSString vin) = true /\
      Forall (fun x => Vehicle.vin x <> vin) mockVehicles
    | Parts404_unavailable c availableCategories =>
      c = category /\ isValidVIN (JSString vin) = true /\
      exists vehicle,
        In vehicle mockVehicles /\ Vehicle.vin vehicle = vin /\
        availableCategories = Vehicle.categories vehicle /\
        ~ In category availableCategories
    | Parts404_category c availableCategories =>
      c = category /\ isValidVIN (JSString vin) = true /\
      availableCategories = map fst mockParts /\
      ~ In category availableCategories /\ Object_prototype category = None /\
      exists vehicle,
        In vehicle mockVehicles /\ Vehicle.vin vehicle = vin /\
        In category (Vehicle.categories vehicle)
    | Parts500 => False
    | Parts200 v make model year c parts count _ =>
      c = category /\ isValidVIN (JSString vin) = true /\
      own_property category mockParts = Some parts /\ count = length parts /\
      exists vehicle,
        In vehicle mockVehicles /\ Vehicle.vin vehicle = vin /\
        In category (Vehicle.categories vehicle) /\
        v = vin /\ make = Vehicle.make vehicle /\ model = Vehicle.model vehicle /\
        year = Vehicle.year vehicle
    | Parts200_inherited v make model year c length _ =>
      c = category /\ isValidVIN (JSString vin) = true /\
      own_property category mockParts = None /\
      Object_prototype category = Some length /\
      exists vehicle,
        In vehicle mockVehicles /\ Vehicle.vin vehicle = vin /\
        In category (Vehicle.categories vehicle) /\
        v = vin /\ make = Vehicle.make vehicle /\ model = Vehicle.model vehicle /\
        year = Vehicle.year vehicle
    end.
Proof.
  unfold getPartsByCategory.
  destruct (returns_simulateDelay 150 600 w) as [[] [w1 [Hdelay _]]].
  destruct (isValidVIN (JSString vin)) eqn:Hvin; cbn [negb].
  2: { eexists; eexists; split.
       - apply try_catch_with_run; rewrite (bind_run _ _ _ _ _ Hdelay); reflexivity.
       - reflexivity. }
  destruct (find_vehicle mockVehicles (JSString vin)) as [vehicle|] eqn:Hfind.
  2: { eexists; eexists; split.
       - apply try_catch_with_run; rewrite (bind_run _ _ _ _ _ Hdelay); reflexivity.
       - cbn; split; [reflexivity|]; split; [reflexivity|].
         apply find_vehicle_None; exact Hfind. }
  apply find_vehicle_Some in Hfind; destruct Hfind as [Hin Hv].
  destruct (existsb _ (Vehicle.categories vehicle)) eqn:Hcat; cbn [negb].
  2: { eexists; eexists; split.
       - apply try_catch_with_run; rewrite (bind_run _ _ _ _ _ Hdelay); reflexivity.
       - cbn; split; [reflexivity|]; split; [reflexivity|].
         exists vehicle; repeat split; try assumption.
         intros Hc; apply includes_category in Hc; congruence. }
  apply includes_category in Hcat.
  unfold get_parts.
  destruct (own_property category mockParts) as [parts|] eqn:Hown;
    [|destruct (Object_prototype category) as [len|] eqn:Hproto].
  - eexists; eexists; split.
    + apply try_catch_with_run; rewrite (bind_run _ _ _ _ _ Hdelay).
      rewrite (bind_run Date_toISOString _ w1 _ _ eq_refl); reflexivity.
    + cbn; repeat split; exists vehicle; repeat split; assumption.
  - eexists; eexists; split.
    + apply try_catch_with_run; rewrite (bind_run _ _ _ _ _ Hdelay).
      rewrite (bind_run Date_toISOString _ w1 _ _ eq_refl); reflexivity.
    + cbn; repeat split; exists vehicle; repeat split; assumption.
  - eexists; eexists; split.
    + apply try_catch_with_run; rewrite (bind_run _ _ _ _ _ Hdelay); reflexivity.
    + cbn; split; [reflexivity|]; split; [reflexivity|]; split; [reflexivity|].
      split; [|split; [reflexivity|exists vehicle; repeat split; assumption]].
      intros Hkey; apply own_property_keys in Hkey; destruct Hkey as [v' Hkey].
      congruence.
Qed.

Lemma bind_lift_Normal {A B} (c : completion A) (a : A) (k : A -> M B) (w : world) :
  c = Normal a -> bind (lift_completion c) k w = k a w.
Proof. intros ->; reflexivity. Qed.

Lemma bind_lift_Throw {A B} (c : completion A) (e : js_error) (k : A -> M B) (w : world) :
  c = Throw e -> bind (lift_completion c) k w = (Throw e, w).
Proof. intros ->; reflexivity. Qed.

Section SearchParts.

Variable toLowerCase : jsstring -> jsstring.
Variable mockParts : list (jsstring * list CatalogPart.t).
Variable Object_prototype : jsstring -> option jsvalue.

Lemma search_categories_results (searchTerm : jsstring) (categories : list jsstring)
    (pushed results : list SearchResult.t) :
  search_categories toLowerCase mockParts Object_prototype searchTerm categories pushed
    = Normal results ->
  forall r,
    In r results <->
    In r pushed \/
    (In (SearchResult.category r) categories /\
     exists parts,
       own_property (SearchResult.category r) mockParts = Some parts /\
       In (SearchResult.part r) parts /\
       includes (toLowerCase (CatalogPart.name (SearchResult.part r))) searchTerm
       || includes (toLowerCase (CatalogPart.id (SearchResult.part r))) searchTerm
       = true).
Proof.
  revert pushed; induction categories as [|cat categories IH]; intros pushed H r.
  - injection H as <-; simpl; split; [auto|intros [Hr|[[] _]]; exact Hr].
  - cbn [search_categories] in H; unfold get_parts in H.
    destruct (own_property cat mockParts) as [parts|] eqn:Hown;
      [|destruct (Object_prototype cat); [discriminate H|]].
    + rewrite (IH _ H r), in_app_iff, in_map_iff; clear IH H.
      split.
      * intros [[Hr|[part [<- Hpart]]]|[Hin Hrest]].
        -- left; exact Hr.
        -- apply filter_In in Hpart; destruct Hpart as [Hpart Hmatch].
           right; cbn; split; [left; reflexivity|].
           exists parts; repeat split; assumption.
        -- right; split; [right; exact Hin|exact Hrest].
      * intros [Hr|[[Hcat|Hin] [parts' [Hown' [Hpart Hmatch]]]]].
        -- left; left; exact Hr.
        -- left; right; exists (SearchResult.part r).
           rewrite <- Hcat in Hown'; rewrite Hown in Hown'; injection Hown' as <-.
           split; [destruct r as [p c]; cbn in *; congruence|].
           apply filter_In; split; assumption.
        -- right; split; [exact Hin|exists parts'; repeat split; assumption].
    + rewrite (IH _ H r); clear IH H.
      split.
      * intros [Hr|[Hin Hrest]]; [left; exact Hr|right; split; [right; exact Hin|exact Hrest]].
      * intros [Hr|[[Hcat|Hin] [parts' [Hown' Hrest]]]].
        -- left; exact Hr.
        -- rewrite <- Hcat in Hown'; congruence.
        -- right; split; [exact Hin|exists parts'; split; assumption].
Qed.

(** The search fails on a name of [Object.prototype] that is not a category
    of the catalogue, and on nothing else. *)
Lemma search_categories_throws (searchTerm : jsstring) (categories : list jsstring)
    (pushed : list SearchResult.t) :
  match search_categories toLowerCase mockParts Object_prototype searchTerm categories pushed with
  | Normal _ =>
    forall cat, In cat categories -> own_property cat mockParts = None ->
                Object_prototype cat = None
  | Throw _ =>
    exists cat length,
      In cat categories /\ own_property cat mockParts = None /\
      Object_prototype cat = Some length
  end.
Proof.
  revert pushed; induction categories as [|cat categories IH]; intros pushed.
  - intros cat [].
  - cbn [search_categories]; unfold get_parts.
    destruct (own_property cat mockParts) as [parts|] eqn:Hown;
      [|destruct (Object_prototype cat) as [len|] eqn:Hproto].
    + specialize (IH (pushed ++ map (fun part => SearchResult.mk part cat)
                                (List.filter
                                   (fun part =>
                                      includes (toLowerCase (CatalogPart.name part)) searchTerm
                                      || includes (toLowerCase (CatalogPart.id part)) searchTerm)
                                   parts))).
      destruct (search_categories _ _ _ _ _ _) as [results|e].
      * intros cat' [<-|Hin] Hnone; [congruence|exact (IH cat' Hin Hnone)].
      * destruct IH as [cat' [len [Hin H]]]; exists cat', len; split; [right; exact Hin|exact H].
    + exists cat, len; split; [left; reflexivity|split; assumption].
    + specialize (IH pushed).
      destruct (search_categories _ _ _ _ _ _) as [results|e].
      * intros cat' [<-|Hin] Hnone; [exact Hproto|exact (IH cat' Hin Hnone)].
      * destruct IH as [cat' [len [Hin H]]]; exists cat', len; split; [right; exact Hin|exact H].
Qed.

(** What a call of [searchParts] went through, by its answer. *)
Lemma searchParts_cases (query category : option jsstring) (w : world) :
  exists response w',
    searchParts toLowerCase mockParts Object_prototype query category w
    = (Normal response, w') /\
    let categoriesToSearch :=
      match category with
      | Some (c :: cat) => [c :: cat]
      | _ => map fst mockParts
      end in
    match response with
    | SearchParts400 => forall q, query = Some q -> (length (trim q) < 2)%nat
    | SearchParts500 =>
      exists q e,
        query = Some q /\ (2 <= length (trim q))%nat /\
        search_categories toLowerCase mockParts Object_prototype
          (trim (toLowerCase q)) categoriesToSearch [] = Throw e
    | SearchParts200 q cat results count _ =>
      query = Some q /\ (2 <= length (trim q))%nat /\ count = length results /\
      cat = match category with
            | Some (c :: k) => c :: k
            | _ => utf16 "all"
            end /\
      search_categories toLowerCase mockParts Object_prototype
        (trim (toLowerCase q)) categoriesToSearch [] = Normal results
    end.
Proof.
  unfold searchParts.
  destruct (returns_simulateDelay 200 500 w) as [[] [w1 [Hdelay _]]].
  destruct query as [[|c q]|].
  - eexists; eexists; split.
    + apply try_catch_with_run; rewrite (bind_run _ _ _ _ _ Hdelay); reflexivity.
    + cbn; intros q E; injection E as <-; cbn; lia.
  - destruct (length (trim (c :: q)) <? 2)%nat eqn:Hlen.
    + eexists; eexists; split.
      * apply try_catch_with_run; rewrite (bind_run _ _ _ _ _ Hdelay); reflexivity.
      * cbn; intros q' E; injection E as <-; apply Nat.ltb_lt; exact Hlen.
    + apply Nat.ltb_ge in Hlen.
      set (categoriesToSearch :=
             match category with
             | Some (c' :: cat) => [c' :: cat]
             | _ => map fst mockParts
             end).
      destruct (search_categories toLowerCase mockParts Object_prototype
                  (trim (toLowerCase (c :: q))) categoriesToSearch []) as [results|e] eqn:Hs.
      * eexists; eexists; split.
        -- apply try_catch_with_run; rewrite (bind_run _ _ _ _ _ Hdelay).
           erewrite bind_lift_Normal by reflexivity.
           rewrite (bind_run Date_toISOString _ w1 _ _ eq_refl); reflexivity.
        -- cbn; repeat split; assumption.
      * eexists; eexists; split.
        -- unfold try_catch_with; rewrite (bind_run _ _ _ _ _ Hdelay).
           erewrite bind_lift_Throw by reflexivity; reflexivity.
        -- cbn; exists (c :: q), e; repeat split; assumption.
  - eexists; eexists; split.
    + apply try_catch_with_run; rewrite (bind_run _ _ _ _ _ Hdelay); reflexivity.
    + cbn; intros q E; discriminate E.
Qed.

End SearchParts.



(** X28. Query values taken as strings or absent (no repeated or bracketed
    key): [searchParts] then always answers, with 400 exactly when the query
    is missing or has fewer than two characters, white space at its ends apart;
    with 500 exactly when the query is good and the category asked for is
    not a category of the catalogue but a name of [Object.prototype]; and
    else with 200.  A category that is neither gives 200 with no result, and
    a search of every category never fails. *)
Theorem searchParts_answers (toLowerCase : jsstring -> jsstring)
    (mockParts : list (jsstring * list CatalogPart.t))
    (Object_prototype : jsstring -> option jsvalue)
    (query category : option jsstring) (w : world) :
  exists response w',
    searchParts toLowerCase mockParts Object_prototype query category w
    = (Normal response, w') /\
    match response with
    | SearchParts400 => forall q, query = Some q -> (length (trim q) < 2)%nat
    | SearchParts500 =>
      exists q c k length,
        query = Some q /\ (2 <= List.length (trim q))%nat /\
        category = Some (c :: k) /\
        own_property (c :: k) mockParts = None /\
        Object_prototype (c :: k) = Some length
    | SearchParts200 q _ results count _ =>
      query = Some q /\ (2 <= length (trim q))%nat /\ count = length results /\
      forall c k, category = Some (c :: k) -> own_property (c :: k) mockParts = None ->
                  Object_prototype (c :: k) = None /\ results = []
    end.
Proof.
  destruct (searchParts_cases toLowerCase mockParts Object_prototype query category w)
    as [response [w' [Hrun Hcases]]].
  exists response, w'; split; [exact Hrun|]; cbn zeta in Hcases.
  destruct response as [| |q cat results count ts].
  - exact Hcases.
  - destruct Hcases as [q [e [Hq [Hlen Hthrow]]]].
    pose proof (search_categories_throws toLowerCase mockParts Object_prototype
                  (trim (toLowerCase q))
                  match category with
                  | Some (c :: cat) => [c :: cat]
                  | _ => map fst mockParts
                  end []) as H.
    rewrite Hthrow in H; destruct H as [cat [len [Hin [Hown Hproto]]]].
    destruct category as [[|c k]|].
    + apply own_property_keys in Hin; destruct Hin as [v Hv]; congruence.
    + destruct Hin as [<-|[]]; exists q, c, k, len; repeat split; assumption.
    + apply own_property_keys in Hin; destruct Hin as [v Hv]; congruence.
  - destruct Hcases as [Hq [Hlen [Hcount [_ Hsearch]]]].
    do 3 (split; [assumption|]).
    intros c k -> Hown.
    pose proof (search_categories_throws toLowerCase mockParts Object_prototype
                  (trim (toLowerCase q)) [c :: k] []) as H.
    rewrite Hsearch in H; split; [apply H; [left; reflexivity|exact Hown]|].
    destruct results as [|r results]; [reflexivity|exfalso].
    destruct (proj1 (search_categories_results _ _ _ _ _ _ _ Hsearch r) (or_introl eq_refl))
      as [[]|[[Hcat|[]] [parts [Hown' _]]]].
    rewrite <- Hcat in Hown'; congruence.
Qed.

(** * Properties of the routers *)

Lemma getVehicleByVIN_invalid (mockVehicles : list Vehicle.t) (vin : jsstring) (w : world) :
  isValidVIN (JSString vin) = false ->
  exists w', getVehicleByVIN mockVehicles vin w = (Normal Vehicle400, w').
Proof.
  intros Hvin; unfold getVehicleByVIN.
  destruct (returns_simulateDelay 200 800 w) as [[] [w1 [Hdelay _]]].
  exists w1; apply try_catch_with_run.
  rewrite (bind_run _ _ _ _ _ Hdelay), Hvin; reflexivity.
Qed.

Lemma literal_not_empty (c : codeunit) (text : jsstring) :
  literal_matches (c :: text) [] = false.
Proof. apply bool_decide_eq_false; discriminate. Qed.

Lemma literal_matches_refl (text : jsstring) : literal_matches text text = true.
Proof. apply bool_decide_eq_true; reflexivity. Qed.

(** A path that a parameter and literal text take, two parameters take. *)
Lemma param_literal_shadowed (a b : jsstring) (c : codeunit) (text : jsstring)
    (path : list jsstring) :
  match_path [Param a; Param b] path = None ->
  match_path [Param a; Literal (c :: text)] path = None.
Proof.
  destruct path as [|s1 [|s2 [|s3 path]]]; cbn [match_path]; try reflexivity.
  - destruct s1; reflexivity.
  - destruct s1 as [|c1 s1]; [reflexivity|].
    destruct s2 as [|c2 s2]; [rewrite literal_not_empty; reflexivity|discriminate].
  - destruct s1 as [|c1 s1]; [reflexivity|].
    destruct s2 as [|c2 s2]; [rewrite literal_not_empty; reflexivity|].
    intros _; destruct (literal_matches _ _); reflexivity.
Qed.

(** A path that literal text takes, a parameter takes. *)
Lemma literal_shadowed (a : jsstring) (c : codeunit) (text : jsstring)
    (path : list jsstring) :
  match_path [Param a] path = None -> match_path [Literal (c :: text)] path = None.
Proof.
  destruct path as [|s1 [|s2 path]]; cbn [match_path]; try reflexivity.
  - destruct s1 as [|c1 s1]; [rewrite literal_not_empty; reflexivity|discriminate].
  - intros _; destruct (literal_matches _ _); reflexivity.
Qed.

(** X29. No request reaches [getVehicleCategories]: the route of
    [getPartsByCategory], with its two parameters, is added before and takes
    every path the route "/:vin/categories" would take.  A GET of
    "/<vin>/categories" is given to [getPartsByCategory], with "categories"
    as the category. *)
Theorem getVehicleCategories_unreachable :
  (forall method path handler params,
      dispatch partRoutes method path = Some (handler, params) ->
      handler <> GetVehicleCategories) /\
  (forall c vin,
      dispatch partRoutes GET [c :: vin; utf16 "categories"]
      = Some (GetPartsByCategory,
              [(utf16 "vin", c :: vin); (utf16 "category", utf16 "categories")])).
Proof.
  split.
  - intros method path handler params; unfold partRoutes.
    destruct method;
      cbn [dispatch method_eqb Route.method Route.path Route.handler].
    + destruct (match_path [Param (utf16 "vin"); Param (utf16 "category")] path)
        as [params1|] eqn:H1.
      * intros E; injection E as <- _; discriminate.
      * change (utf16 "categories") with (99%N :: utf16 "ategories").
        rewrite (param_literal_shadowed _ _ _ _ _ H1); cbv iota.
        destruct (match_path [Literal (utf16 "search")] path) as [params4|];
          intros E; [injection E as <- _|]; discriminate.
    + destruct (match_path [Literal (utf16 "interpret")] path) as [params2|];
        intros E; [injection E as <- _|]; discriminate.
  - intros c vin; reflexivity.
Qed.

(** X30. No request reaches [searchVehicles]: the route of
    [getVehicleByVIN], with its parameter, is added before and takes every
    path the route "/search" would take.  A GET of "/search" is given to
    [getVehicleByVIN] with "search" as the VIN, and answered 400. *)
Theorem searchVehicles_unreachable (mockVehicles : list Vehicle.t) (w : world) :
  (forall method path handler params,
      dispatch vehicleRoutes method path = Some (handler, params) ->
      handler <> SearchVehicles) /\
  dispatch vehicleRoutes GET [utf16 "search"]
  = Some (GetVehicleByVIN, [(utf16 "vin", utf16 "search")]) /\
  exists w', getVehicleByVIN mockVehicles (utf16 "search") w = (Normal Vehicle400, w').
Proof.
  split; [|split].
  - intros method path handler params; unfold vehicleRoutes.
    destruct method;
      cbn [dispatch method_eqb Route.method Route.path Route.handler].
    + destruct (match_path [Param (utf16 "vin")] path) as [params1|] eqn:H1.
      * intros E; injection E as <- _; discriminate.
      * change (utf16 "search") with (115%N :: utf16 "earch").
        rewrite (literal_shadowed _ _ _ _ H1); cbv iota.
        destruct (match_path [] path); intros E; [injection E as <- _|]; discriminate.
    + discriminate.
  - reflexivity.
  - apply getVehicleByVIN_invalid; reflexivity.
Qed.

(** Every handler of the seller router is reached: "request" as the only
    segment of a GET is taken as a part id, and as the first of two leads to
    the status of a request. *)
Lemma sellerRoutes_reach (c : codeunit) (requestId : jsstring) :
  dispatch sellerRoutes GET [utf16 "request"]
  = Some (GetSellersForPart, [(utf16 "partId", utf16 "request")]) /\
  dispatch sellerRoutes POST [utf16 "request"] = Some (CreatePartRequest, []) /\
  dispatch sellerRoutes GET [utf16 "request"; c :: requestId]
  = Some (GetRequestStatus, [(utf16 "requestId", c :: requestId)]) /\
  dispatch sellerRoutes GET [] = Some (GetAllSellers, []).
Proof. repeat split. Qed.

(** * Properties of getVehicleCategories *)

(** The handler answers, never with 500; with 200 it lists the categories of
    the vehicle, in their order, each with the number of parts the catalogue
    has under that name, or 0 and not available when it has none. *)
Lemma getVehicleCategories_answers (mockVehicles : list Vehicle.t)
    (mockParts : list (jsstring * list CatalogPart.t))
    (Object_prototype : jsstring -> option jsvalue) (vin : jsstring) (w : world) :
  exists response w',
    getVehicleCategories mockVehicles mockParts Object_prototype vin w
    = (Normal response, w') /\
    match response with
    | Categories400 => isValidVIN (JSString vin) = false
    | Categories404 v =>
      v = vin /\ isValidVIN (JSString vin) = true /\
      Forall (fun x => Vehicle.vin x <> vin) mockVehicles
    | Categories500 => False
    | Categories200 v make model year categories totalCategories _ =>
      isValidVIN (JSString vin) = true /\
      exists vehicle,
        In vehicle mockVehicles /\ Vehicle.vin vehicle = vin /\ v = vin /\
        map CategoryCount.name categories = Vehicle.categories vehicle /\
        totalCategories = length (Vehicle.categories vehicle) /\
        Forall (fun entry =>
                  match own_property (CategoryCount.name entry) mockParts with
                  | Some parts =>
                    CategoryCount.partCount entry = Count (length parts) /\
                    CategoryCount.available entry = true
                  | None =>
                    match Object_prototype (CategoryCount.name entry) with
                    | Some length =>
                      CategoryCount.partCount entry = InheritedLength length /\
                      CategoryCount.available entry = true
                    | None =>
                      CategoryCount.partCount entry = Count 0 /\
                      CategoryCount.available entry = false
                    end
                  end) categories
    end.
Proof.
  unfold getVehicleCategories.
  destruct (returns_simulateDelay 100 300 w) as [[] [w1 [Hdelay _]]].
  destruct (isValidVIN (JSString vin)) eqn:Hvin; cbn [negb].
  2: { eexists; eexists; split.
       - apply try_catch_with_run; rewrite (bind_run _ _ _ _ _ Hdelay); reflexivity.
       - reflexivity. }
  destruct (find_vehicle mockVehicles (JSString vin)) as [vehicle|] eqn:Hfind.
  2: { eexists; eexists; split.
       - apply try_catch_with_run; rewrite (bind_run _ _ _ _ _ Hdelay); reflexivity.
       - cbn; split; [reflexivity|]; split; [reflexivity|].
         apply find_vehicle_None; exact Hfind. }
  apply find_vehicle_Some in Hfind; destruct Hfind as [Hin Hv].
  eexists; eexists; split.
  - apply try_catch_with_run; rewrite (bind_run _ _ _ _ _ Hdelay); cbn zeta.
    rewrite (bind_run Date_toISOString _ w1 _ _ eq_refl); reflexivity.
  - cbn beta iota; split; [reflexivity|].
    exists vehicle; split; [exact Hin|]; split; [exact Hv|]; split; [exact Hv|].
    split; [rewrite map_map; apply map_id|].
    split; [apply length_map|].
    apply List.Forall_forall; intros entry Hentry.
    apply in_map_iff in Hentry; destruct Hentry as [category [<- _]].
    unfold get_parts; cbn [CategoryCount.name CategoryCount.partCount CategoryCount.available].
    destruct (own_property category mockParts); [split; reflexivity|].
    destruct (Object_prototype category); split; reflexivity.
Qed.
